(** * LeGO-LOAM-BOR front end: range-image segmentation and scan-to-scan odometry

    A shallow embedding of [imageProjection.cpp] (class [ImageProjection]) and
    of [featureAssociation.cpp] (class [FeatureAssociation]), with the
    properties of the specification stated over it.

    Conventions of the embedding.
    - [float] values are the kernel's binary64 floats (IEEE 754 arithmetic,
      NaN and infinities included).  The source computes in binary32; nothing
      below depends on the rounding of a result, only on the IEEE rules for
      NaN, infinities and zeros, on comparisons, and on exactly representable
      constants.
    - Functions of libm, Eigen and PCL ([sin], [atan2], the eigen solver, the
      QR solve, the KD-tree search, the voxel filter) are external to the
      repository: they are parameters of the model.
    - Dense matrices and clouds are lists read and written by index; the cell
      [(i, j)] of an [N_scan x horizon_scan] matrix is stored at
      [j + i * horizon_scan], the index the source uses for [_full_cloud].
    - Member variables of a class are fields of a record that every member
      function takes and returns. *)

From Stdlib Require Import ZArith List Bool Lia Floats Uint63.
From stdpp Require Import base tactics option list.

Local Open Scope Z_scope.

(** ** Floats and points *)

(** Conversion of a non-negative [int] or [size_t] to floating point. *)
Definition float_of_Z (z : Z) : float := PrimFloat.of_uint63 (Uint63.of_Z z).

Definition FLT_MAX : float := 0x1.fffffep+127%float.
Definition M_PI : float := 0x1.921fb54442d18p+1%float.
Definition M_PI_2 : float := 0x1.921fb54442d18p+0%float.
Definition DEG_TO_RAD : float := (M_PI / 180)%float.

Definition quiet_NaN : float := PrimFloat.nan.

(** [std::isnan] and [std::isfinite]. *)
Definition isnan (x : float) : bool := negb (PrimFloat.eqb x x).
Definition isfinite (x : float) : bool :=
  negb (isnan x) && negb (PrimFloat.eqb (PrimFloat.abs x) PrimFloat.infinity).

(** [pcl::PointXYZI]. *)
Record PointType : Type := mkPoint {
  px : float;
  py : float;
  pz : float;
  intensity : float
}.

(** The default constructor of [pcl::PointXYZI]: coordinates and intensity
    are zero. *)
Definition PointXYZI_default : PointType := mkPoint 0 0 0 0.

(** The functions of [<cmath>] the sources call, and the conversion of a
    floating value to [int] (truncation toward zero). *)
Record Libm : Type := mkLibm {
  sin : float -> float;
  cos : float -> float;
  tan : float -> float;
  asin : float -> float;
  atan2 : float -> float -> float;
  round : float -> float;
  to_int : float -> Z
}.

(** Reading an array element; the sources never check an index, and every
    index they use is in range, so the default is never observed on a
    well-formed state. *)
Definition nth_def {A} (d : A) (l : list A) (k : nat) : A := default d (l !! k).

(** The values [0, 1, ..., n-1] of a counting [for] loop. *)
Definition upto (n : nat) : list Z := map Z.of_nat (seq 0 n).

(** A [for] loop over [l] threading the state [s]. *)
Definition for_each {A S} (l : list A) (body : A -> S -> S) (s : S) : S :=
  fold_left (fun s a => body a s) l s.

(** The same for a body that may fail to return. *)
Fixpoint for_each_opt {A S} (l : list A) (body : A -> S -> option S) (s : S)
  : option S :=
  match l with
  | [] => Some s
  | a :: l' =>
      match body a s with
      | Some s' => for_each_opt l' body s'
      | None => None
      end
  end.

(** [std::max] and [std::min] on floats, as the standard defines them. *)
Definition fmax (a b : float) : float := if PrimFloat.ltb a b then b else a.
Definition fmin (a b : float) : float := if PrimFloat.ltb b a then b else a.

(** [boost::circular_buffer::push_back] with capacity [cap]: when the buffer
    is full the oldest element is overwritten. *)
Definition cb_push_back {A} (cap : nat) (l : list A) (x : A) : list A :=
  if (length l <? cap)%nat then l ++ [x]
  else match l with
       | [] => []
       | _ :: t => t ++ [x]
       end.

(** ** imageProjection.cpp *)

Module ImageProjection.

(** Configuration constants of the projection stage (declared in the
    repository's headers, read once at start-up). *)
Record Config : Type := mkConfig {
  N_scan : nat;
  horizon_scan : nat;
  ang_res_x : float;
  ang_res_y : float;
  ang_bottom : float;
  groundScanInd : nat;
  sensorMountAngle : float;
  segmentTheta : float;
  segmentAlphaX : float;
  segmentAlphaY : float;
  segmentValidPointNum : nat;
  segmentValidLineNum : Z
}.

(** [cloud_msgs::cloud_info]. *)
Record cloud_info : Type := mkCloudInfo {
  startOrientation : float;
  endOrientation : float;
  orientationDiff : float;
  startRingIndex : list Z;
  endRingIndex : list Z;
  segmentedCloudGroundFlag : list bool;
  segmentedCloudColInd : list Z;
  segmentedCloudRange : list float
}.

(** The member variables of [ImageProjection] that a scan reads or writes. *)
Record State : Type := mkState {
  laser_cloud_in : list PointType;
  full_cloud : list PointType;
  full_info_cloud : list PointType;
  ground_cloud : list PointType;
  segmented_cloud : list PointType;
  segmented_cloud_pure : list PointType;
  outlier_cloud : list PointType;
  range_mat : list float;
  ground_mat : list Z;
  label_mat : list Z;
  label_count : Z;
  seg_msg : cloud_info
}.

Definition with_laser_cloud_in v s :=
  mkState v (full_cloud s) (full_info_cloud s) (ground_cloud s)
    (segmented_cloud s) (segmented_cloud_pure s) (outlier_cloud s)
    (range_mat s) (ground_mat s) (label_mat s) (label_count s) (seg_msg s).
Definition with_full_cloud v s :=
  mkState (laser_cloud_in s) v (full_info_cloud s) (ground_cloud s)
    (segmented_cloud s) (segmented_cloud_pure s) (outlier_cloud s)
    (range_mat s) (ground_mat s) (label_mat s) (label_count s) (seg_msg s).
Definition with_full_info_cloud v s :=
  mkState (laser_cloud_in s) (full_cloud s) v (ground_cloud s)
    (segmented_cloud s) (segmented_cloud_pure s) (outlier_cloud s)
    (range_mat s) (ground_mat s) (label_mat s) (label_count s) (seg_msg s).
Definition with_ground_cloud v s :=
  mkState (laser_cloud_in s) (full_cloud s) (full_info_cloud s) v
    (segmented_cloud s) (segmented_cloud_pure s) (outlier_cloud s)
    (range_mat s) (ground_mat s) (label_mat s) (label_count s) (seg_msg s).
Definition with_segmented_cloud v s :=
  mkState (laser_cloud_in s) (full_cloud s) (full_info_cloud s) (ground_cloud s)
    v (segmented_cloud_pure s) (outlier_cloud s)
    (range_mat s) (ground_mat s) (label_mat s) (label_count s) (seg_msg s).
Definition with_segmented_cloud_pure v s :=
  mkState (laser_cloud_in s) (full_cloud s) (full_info_cloud s) (ground_cloud s)
    (segmented_cloud s) v (outlier_cloud s)
    (range_mat s) (ground_mat s) (label_mat s) (label_count s) (seg_msg s).
Definition with_outlier_cloud v s :=
  mkState (laser_cloud_in s) (full_cloud s) (full_info_cloud s) (ground_cloud s)
    (segmented_cloud s) (segmented_cloud_pure s) v
    (range_mat s) (ground_mat s) (label_mat s) (label_count s) (seg_msg s).
Definition with_range_mat v s :=
  mkState (laser_cloud_in s) (full_cloud s) (full_info_cloud s) (ground_cloud s)
    (segmented_cloud s) (segmented_cloud_pure s) (outlier_cloud s)
    v (ground_mat s) (label_mat s) (label_count s) (seg_msg s).
Definition with_ground_mat v s :=
  mkState (laser_cloud_in s) (full_cloud s) (full_info_cloud s) (ground_cloud s)
    (segmented_cloud s) (segmented_cloud_pure s) (outlier_cloud s)
    (range_mat s) v (label_mat s) (label_count s) (seg_msg s).
Definition with_label_mat v s :=
  mkState (laser_cloud_in s) (full_cloud s) (full_info_cloud s) (ground_cloud s)
    (segmented_cloud s) (segmented_cloud_pure s) (outlier_cloud s)
    (range_mat s) (ground_mat s) v (label_count s) (seg_msg s).
Definition with_label_count v s :=
  mkState (laser_cloud_in s) (full_cloud s) (full_info_cloud s) (ground_cloud s)
    (segmented_cloud s) (segmented_cloud_pure s) (outlier_cloud s)
    (range_mat s) (ground_mat s) (label_mat s) v (seg_msg s).
Definition with_seg_msg v s :=
  mkState (laser_cloud_in s) (full_cloud s) (full_info_cloud s) (ground_cloud s)
    (segmented_cloud s) (segmented_cloud_pure s) (outlier_cloud s)
    (range_mat s) (ground_mat s) (label_mat s) (label_count s) v.

Section Model.

Context (cfg : Config) (lm : Libm).

Definition cloud_size : nat := (N_scan cfg * horizon_scan cfg)%nat.

(** Index of the cell [(i, j)]: [j + i * _horizon_scan]. *)
Definition cell (i j : nat) : nat := (j + i * horizon_scan cfg)%nat.

(** The point [resetParameters] fills the clouds with: the coordinates are
    set to NaN, the intensity keeps the value of the default constructor. *)
Definition nanPoint : PointType :=
  mkPoint quiet_NaN quiet_NaN quiet_NaN (intensity PointXYZI_default).

Definition resetParameters (s : State) : State :=
  mkState
    [] (* _laser_cloud_in->clear() *)
    (replicate (length (full_cloud s)) nanPoint)
    (replicate (length (full_info_cloud s)) nanPoint)
    [] [] [] []
    (replicate cloud_size FLT_MAX)
    (replicate cloud_size 0)
    (replicate cloud_size 0)
    1
    (mkCloudInfo
       (startOrientation (seg_msg s)) (endOrientation (seg_msg s))
       (orientationDiff (seg_msg s))
       (replicate (N_scan cfg) 0) (replicate (N_scan cfg) 0)
       (replicate cloud_size false) (replicate cloud_size 0)
       (replicate cloud_size 0%float)).

(** The state the constructor leaves: both full clouds resized to
    [cloud_size], everything else empty. *)
Definition initial_state : State :=
  mkState [] (replicate cloud_size PointXYZI_default)
    (replicate cloud_size PointXYZI_default) [] [] [] [] [] [] [] 0
    (mkCloudInfo 0 0 0 [] [] [] [] []).

(** [pcl::removeNaNFromPointCloud]: keeps the points whose three coordinates
    are finite. *)
Definition removeNaNFromPointCloud (cloud : list PointType) : list PointType :=
  filter (fun p => Is_true (isfinite (px p) && isfinite (py p) && isfinite (pz p)))
    cloud.

(** [findStartEndAngle] reads [points.front()] and [points.back()]; on an
    empty vector neither exists, which the embedding reports as [None]. *)
Definition findStartEndAngle (s : State) : option State :=
  match head (laser_cloud_in s), last (laser_cloud_in s) with
  | Some first, Some final =>
      let start := (- atan2 lm (py first) (px first))%float in
      let end0 := (- atan2 lm (py final) (px final) + 2 * M_PI)%float in
      let end1 :=
        if PrimFloat.ltb (3 * M_PI) (end0 - start) then (end0 - 2 * M_PI)%float
        else if PrimFloat.ltb (end0 - start) M_PI then (end0 + 2 * M_PI)%float
        else end0 in
      let m := seg_msg s in
      Some (with_seg_msg
              (mkCloudInfo start end1 (end1 - start)%float
                 (startRingIndex m) (endRingIndex m)
                 (segmentedCloudGroundFlag m) (segmentedCloudColInd m)
                 (segmentedCloudRange m)) s)
  | _, _ => None
  end.

Definition H : Z := Z.of_nat (horizon_scan cfg).
Definition N : Z := Z.of_nat (N_scan cfg).

(** Index of the cell [(i, j)] for signed coordinates. *)
Definition cellZ (i j : Z) : nat := Z.to_nat (j + i * H).

Definition mat_get {A} (d : A) (m : list A) (i j : Z) : A := nth_def d m (cellZ i j).
Definition mat_set {A} (m : list A) (i j : Z) (v : A) : list A := <[cellZ i j := v]> m.

Definition project_point (thisPoint : PointType) (s : State) : State :=
  let range := PrimFloat.sqrt (px thisPoint * px thisPoint +
                               py thisPoint * py thisPoint +
                               pz thisPoint * pz thisPoint)%float in
  let verticalAngle := asin lm (pz thisPoint / range)%float in
  let rowIdn := to_int lm ((verticalAngle + ang_bottom cfg) / ang_res_y cfg)%float in
  if (rowIdn <? 0) || (rowIdn >=? N) then s else
  let horizonAngle := atan2 lm (px thisPoint) (py thisPoint) in
  let columnIdn :=
    to_int lm (- round lm ((horizonAngle - M_PI_2) / ang_res_x cfg)
               + float_of_Z H * 0.5)%float in
  let columnIdn := if columnIdn >=? H then columnIdn - H else columnIdn in
  if (columnIdn <? 0) || (columnIdn >=? H) then s else
  if PrimFloat.ltb range 0x1.999999999999ap-4 (* 0.1 *) then s else
  let tagged :=
    mkPoint (px thisPoint) (py thisPoint) (pz thisPoint)
      (float_of_Z rowIdn + float_of_Z columnIdn / 10000)%float in
  let index := Z.to_nat (columnIdn + rowIdn * H) in
  with_full_info_cloud
    (<[index := mkPoint (px tagged) (py tagged) (pz tagged) range]>
       (full_info_cloud s))
    (with_full_cloud (<[index := tagged]> (full_cloud s))
       (with_range_mat (mat_set (range_mat s) rowIdn columnIdn range) s)).

Definition projectPointCloud (s : State) : State :=
  for_each (laser_cloud_in s) project_point s.

(** One pass of the inner loop of [groundRemoval], for the pair of cells
    [(i, j)] and [(i+1, j)]. *)
Definition ground_pair (j i : Z) (s : State) : State :=
  let lower := nth_def PointXYZI_default (full_cloud s) (Z.to_nat (j + i * H)) in
  let upper := nth_def PointXYZI_default (full_cloud s) (Z.to_nat (j + (i + 1) * H)) in
  if PrimFloat.eqb (intensity lower) (-1) || PrimFloat.eqb (intensity upper) (-1)
  then with_ground_mat (mat_set (ground_mat s) i j (-1)) s
  else
    let dX := (px upper - px lower)%float in
    let dY := (py upper - py lower)%float in
    let dZ := (pz upper - pz lower)%float in
    let vertical_angle := atan2 lm dZ (PrimFloat.sqrt (dX * dX + dY * dY + dZ * dZ)) in
    if PrimFloat.leb (vertical_angle - sensorMountAngle cfg) (10 * DEG_TO_RAD)
    then with_ground_mat
           (mat_set (mat_set (ground_mat s) i j 1) (i + 1) j 1) s
    else s.

Definition mark_label (i j : Z) (s : State) : State :=
  if (mat_get 0 (ground_mat s) i j =? 1)
     || PrimFloat.eqb (mat_get 0%float (range_mat s) i j) FLT_MAX
  then with_label_mat (mat_set (label_mat s) i j (-1)) s
  else s.

Definition push_ground (i j : Z) (s : State) : State :=
  if mat_get 0 (ground_mat s) i j =? 1
  then with_ground_cloud
         (ground_cloud s ++
          [nth_def PointXYZI_default (full_cloud s) (Z.to_nat (j + i * H))]) s
  else s.

Definition groundRemoval (s : State) : State :=
  let s1 :=
    for_each (upto (horizon_scan cfg))
      (fun j => for_each (upto (groundScanInd cfg)) (ground_pair j)) s in
  let s2 :=
    for_each (upto (N_scan cfg))
      (fun i => for_each (upto (horizon_scan cfg)) (mark_label i)) s1 in
  for_each (upto (S (groundScanInd cfg)))
    (fun i => for_each (upto (horizon_scan cfg)) (push_ground i)) s2.

(** *** labelComponents *)

Definition Coord2D : Type := (Z * Z)%type.

(** The local variables of [labelComponents] together with the label
    matrix it writes. *)
Record Bfs : Type := mkBfs {
  b_label : list Z;
  b_queue : list Coord2D;
  b_all_pushed : list Coord2D;
  b_lineCountFlag : list bool
}.

Definition neighborIterator : list Coord2D := [(0, -1); (-1, 0); (1, 0); (0, 1)].

(** The body of the loop over [neighborIterator] for the popped cell
    [fromInd]; [lc] is [_label_count] and [rm] is [_range_mat]. *)
Definition visit_neighbor (rm : list float) (lc : Z) (fromInd iter : Coord2D)
    (b : Bfs) : Bfs :=
  let thisIndX := fromInd.1 + iter.1 in
  let thisIndY := fromInd.2 + iter.2 in
  if (thisIndX <? 0) || (thisIndX >=? N) then b else
  let thisIndY := if thisIndY <? 0 then H - 1 else thisIndY in
  let thisIndY := if thisIndY >=? H then 0 else thisIndY in
  if negb (mat_get 0 (b_label b) thisIndX thisIndY =? 0) then b else
  let d1 := fmax (mat_get 0%float rm fromInd.1 fromInd.2)
                 (mat_get 0%float rm thisIndX thisIndY) in
  let d2 := fmin (mat_get 0%float rm fromInd.1 fromInd.2)
                 (mat_get 0%float rm thisIndX thisIndY) in
  let alpha := if iter.1 =? 0 then segmentAlphaX cfg else segmentAlphaY cfg in
  let tang := (d2 * sin lm alpha / (d1 - d2 * cos lm alpha))%float in
  if PrimFloat.ltb (tan lm (segmentTheta cfg)) tang then
    mkBfs (mat_set (b_label b) thisIndX thisIndY lc)
      (cb_push_back cloud_size (b_queue b) (thisIndX, thisIndY))
      (cb_push_back cloud_size (b_all_pushed b) (thisIndX, thisIndY))
      (<[Z.to_nat thisIndX := true]> (b_lineCountFlag b))
  else b.

(** One turn of [while (queue.size() > 0)]: pop the front, mark it, visit
    its four neighbours. *)
Definition bfs_step (rm : list float) (lc : Z) (fromInd : Coord2D)
    (rest : list Coord2D) (b : Bfs) : Bfs :=
  for_each neighborIterator (visit_neighbor rm lc fromInd)
    (mkBfs (mat_set (b_label b) fromInd.1 fromInd.2 lc) rest
       (b_all_pushed b) (b_lineCountFlag b)).

(** The [while] loop, bounded by [fuel] turns. *)
Fixpoint bfs_loop (fuel : nat) (rm : list float) (lc : Z) (b : Bfs) : option Bfs :=
  match b_queue b with
  | [] => Some b
  | fromInd :: rest =>
      match fuel with
      | O => None
      | S fuel' => bfs_loop fuel' rm lc (bfs_step rm lc fromInd rest b)
      end
  end.

Definition lineCount (flags : list bool) : Z :=
  for_each (upto (N_scan cfg))
    (fun i c => if nth_def false flags (Z.to_nat i) then c + 1 else c) 0.

Definition feasibleSegment (b : Bfs) : bool :=
  if (30 <=? length (b_all_pushed b))%nat then true
  else if (segmentValidPointNum cfg <=? length (b_all_pushed b))%nat
       then lineCount (b_lineCountFlag b) >=? segmentValidLineNum cfg
       else false.

(** [labelComponents(row, col)].  Every turn of the loop labels a cell that
    was unlabeled or empties the queue by one, so [cloud_size + 1] turns are
    enough (lemma [bfs_loop_terminates]). *)
Definition labelComponents (row col : Z) (s : State) : option State :=
  let b0 := mkBfs (label_mat s)
              (cb_push_back cloud_size [] (row, col))
              (cb_push_back cloud_size [] (row, col))
              (replicate (N_scan cfg) false) in
  match bfs_loop (S cloud_size) (range_mat s) (label_count s) b0 with
  | None => None
  | Some b =>
      if feasibleSegment b
      then Some (with_label_count (label_count s + 1)
                   (with_label_mat (b_label b) s))
      else Some (with_label_mat
                   (for_each (b_all_pushed b)
                      (fun c m => mat_set m c.1 c.2 999999) (b_label b)) s)
  end.

(** *** cloudSegmentation *)

(** The local [sizeOfSegCloud] and the members the extraction loop writes. *)
Record Emit : Type := mkEmit {
  sizeOfSegCloud : Z;
  e_msg : cloud_info;
  e_segmented : list PointType;
  e_outlier : list PointType
}.

Definition emit_cell (s : State) (i j : Z) (e : Emit) : Emit :=
  let point := nth_def PointXYZI_default (full_cloud s) (Z.to_nat (j + i * H)) in
  if (mat_get 0 (label_mat s) i j >? 0) || (mat_get 0 (ground_mat s) i j =? 1) then
    if mat_get 0 (label_mat s) i j =? 999999 then
      if (i >? Z.of_nat (groundScanInd cfg)) && (j mod 5 =? 0)
      then mkEmit (sizeOfSegCloud e) (e_msg e) (e_segmented e) (e_outlier e ++ [point])
      else e
    else
      if (mat_get 0 (ground_mat s) i j =? 1)
         && (negb (j mod 5 =? 0) && (j >? 5) && (j <? (H - 5) mod 2 ^ 64))
      then e
      else
        let m := e_msg e in
        let k := Z.to_nat (sizeOfSegCloud e) in
        mkEmit (sizeOfSegCloud e + 1)
          (mkCloudInfo (startOrientation m) (endOrientation m) (orientationDiff m)
             (startRingIndex m) (endRingIndex m)
             (<[k := mat_get 0 (ground_mat s) i j =? 1]> (segmentedCloudGroundFlag m))
             (<[k := j]> (segmentedCloudColInd m))
             (<[k := mat_get 0%float (range_mat s) i j]> (segmentedCloudRange m)))
          (e_segmented e ++ [point]) (e_outlier e)
  else e.

Definition set_startRingIndex (i v : Z) (m : cloud_info) : cloud_info :=
  mkCloudInfo (startOrientation m) (endOrientation m) (orientationDiff m)
    (<[Z.to_nat i := v]> (startRingIndex m)) (endRingIndex m)
    (segmentedCloudGroundFlag m) (segmentedCloudColInd m) (segmentedCloudRange m).

Definition set_endRingIndex (i v : Z) (m : cloud_info) : cloud_info :=
  mkCloudInfo (startOrientation m) (endOrientation m) (orientationDiff m)
    (startRingIndex m) (<[Z.to_nat i := v]> (endRingIndex m))
    (segmentedCloudGroundFlag m) (segmentedCloudColInd m) (segmentedCloudRange m).

Definition emit_ring (s : State) (i : Z) (e : Emit) : Emit :=
  let e1 := mkEmit (sizeOfSegCloud e)
              (set_startRingIndex i (sizeOfSegCloud e - 1 + 5) (e_msg e))
              (e_segmented e) (e_outlier e) in
  let e2 := for_each (upto (horizon_scan cfg)) (emit_cell s i) e1 in
  mkEmit (sizeOfSegCloud e2)
    (set_endRingIndex i (sizeOfSegCloud e2 - 1 - 5) (e_msg e2))
    (e_segmented e2) (e_outlier e2).

Definition pure_cell (i j : Z) (s : State) : State :=
  if (mat_get 0 (label_mat s) i j >? 0)
     && negb (mat_get 0 (label_mat s) i j =? 999999)
  then
    let point := nth_def PointXYZI_default (full_cloud s) (Z.to_nat (j + i * H)) in
    with_segmented_cloud_pure
      (segmented_cloud_pure s ++
       [mkPoint (px point) (py point) (pz point)
          (float_of_Z (mat_get 0 (label_mat s) i j))]) s
  else s.

(** The first loop of [cloudSegmentation]: label every cell still at 0. *)
Definition label_all (s : State) : option State :=
  for_each_opt (upto (N_scan cfg))
    (fun i => for_each_opt (upto (horizon_scan cfg))
       (fun j s => if mat_get 0 (label_mat s) i j =? 0
                   then labelComponents i j s else Some s)) s.

(** The second loop: extraction of the segmented cloud. *)
Definition extract_segmented (s : State) : Emit :=
  for_each (upto (N_scan cfg)) (emit_ring s)
    (mkEmit 0 (seg_msg s) (segmented_cloud s) (outlier_cloud s)).

Definition cloudSegmentation (s : State) : option State :=
  match label_all s with
  | None => None
  | Some s1 =>
      let e := extract_segmented s1 in
      let s2 := with_seg_msg (e_msg e)
                  (with_outlier_cloud (e_outlier e)
                     (with_segmented_cloud (e_segmented e) s1)) in
      Some (for_each (upto (N_scan cfg))
              (fun i => for_each (upto (horizon_scan cfg)) (pure_cell i)) s2)
  end.

(** [ProjectionOut], the bundle sent to the association stage. *)
Record ProjectionOut : Type := mkProjectionOut {
  out_segmented_cloud : list PointType;
  out_outlier_cloud : list PointType;
  out_seg_msg : cloud_info
}.

(** [publishClouds] moves the segmented cloud, the outlier cloud and the
    segmentation message into the output bundle (the publishers of the
    visualisation topics are not modelled). *)
Definition publishClouds (s : State) : State * ProjectionOut :=
  (with_seg_msg (mkCloudInfo 0 0 0 [] [] [] [] [])
     (with_outlier_cloud [] (with_segmented_cloud [] s)),
   mkProjectionOut (segmented_cloud s) (outlier_cloud s) (seg_msg s)).

(** [cloudHandler] for one incoming cloud [msg]. *)
Definition cloudHandler (msg : list PointType) (s : State)
  : option (State * ProjectionOut) :=
  let s := resetParameters s in
  let s := with_laser_cloud_in (removeNaNFromPointCloud msg) s in
  match findStartEndAngle s with
  | None => None
  | Some s =>
      let s := projectPointCloud s in
      let s := groundRemoval s in
      match cloudSegmentation s with
      | None => None
      | Some s => Some (publishClouds s)
      end
  end.

(** *** Vocabulary of the properties *)

(** The cell [(i, j)] lies inside the range image. *)
Definition in_image (c : Coord2D) : Prop := 0 <= c.1 < N /\ 0 <= c.2 < H.

(** The cell [(i, j)] is pushed to the segmented cloud by the extraction
    loop: the condition under which control reaches [push_back]. *)
Definition emits (s : State) (i j : Z) : bool :=
  ((mat_get 0 (label_mat s) i j >? 0) || (mat_get 0 (ground_mat s) i j =? 1))
  && negb (mat_get 0 (label_mat s) i j =? 999999)
  && negb ((mat_get 0 (ground_mat s) i j =? 1)
           && (negb (j mod 5 =? 0) && (j >? 5) && (j <? (H - 5) mod 2 ^ 64))).

(** Number of points ring [i] contributes, and the size of the segmented
    cloud before ring [k]. *)
Definition ring_points (s : State) (i : Z) : Z :=
  Z.of_nat (length (filter (fun j => Is_true (emits s i j)) (upto (horizon_scan cfg)))).

Fixpoint ring_offset (s : State) (k : nat) : Z :=
  match k with
  | O => 0
  | S k' => ring_offset s k' + ring_points s (Z.of_nat k')
  end.

(** The label of a cell. *)
Definition label_at (m : list Z) (c : Coord2D) : Z := mat_get 0 m c.1 c.2.

(** Number of unlabeled entries of a label matrix. *)
Definition zeros (l : list Z) : nat := length (filter (fun v => v = 0) l).

(** The quantity that decreases at every turn of the loop of
    [labelComponents]. *)
Definition bfs_measure (b : Bfs) : nat := (zeros (b_label b) + length (b_queue b))%nat.

(** What holds of the locals of [labelComponents] once the seed has been
    popped: [orig] is the label matrix on entry, [lc] the value of
    [_label_count], [seed] the cell the search started from. *)
Record bfs_inv (orig : list Z) (lc : Z) (seed : Coord2D) (b : Bfs) : Prop := mk_bfs_inv {
  inv_length : length (b_label b) = cloud_size;
  inv_flags_length : length (b_lineCountFlag b) = N_scan cfg;
  inv_queue : forall c, c ∈ b_queue b -> c ∈ b_all_pushed b;
  inv_queue_length : (length (b_queue b) <= length (b_all_pushed b))%nat;
  inv_image : forall c, c ∈ b_all_pushed b -> in_image c;
  inv_orig : forall c, c ∈ b_all_pushed b -> label_at orig c = 0;
  inv_nodup : NoDup (b_all_pushed b);
  inv_marked : forall c, c ∈ b_all_pushed b -> label_at (b_label b) c = lc;
  inv_changed : forall c, in_image c ->
                  label_at (b_label b) c <> label_at orig c -> c ∈ b_all_pushed b;
  inv_seed : head (b_all_pushed b) = Some seed;
  inv_flags : forall r, b_lineCountFlag b !! r = Some true <->
                exists c, c ∈ b_all_pushed b /\ c <> seed /\ Z.to_nat c.1 = r
}.

(** The condition under which [groundRemoval] marks a cell as not to be
    labeled: it is ground, or no return was projected into it. *)
Definition not_to_label (s : State) (c : Coord2D) : bool :=
  (mat_get 0 (ground_mat s) c.1 c.2 =? 1)
  || PrimFloat.eqb (mat_get 0%float (range_mat s) c.1 c.2) FLT_MAX.

(** What the loops of [projectPointCloud] and of [groundRemoval] leave
    alone: the message, the output clouds and the label counter. *)
Definition same_outputs (s s' : State) : Prop :=
  laser_cloud_in s' = laser_cloud_in s /\ segmented_cloud s' = segmented_cloud s
  /\ segmented_cloud_pure s' = segmented_cloud_pure s
  /\ outlier_cloud s' = outlier_cloud s /\ label_count s' = label_count s
  /\ seg_msg s' = seg_msg s
  /\ length (full_cloud s') = length (full_cloud s)
  /\ length (range_mat s') = length (range_mat s)
  /\ length (ground_mat s') = length (ground_mat s)
  /\ length (label_mat s') = length (label_mat s).

(** How the second loop of [groundRemoval] relates two states, and what it
    establishes for a cell it has passed. *)
Definition marks (s0 s1 : State) : Prop :=
  same_outputs s0 s1 /\ full_cloud s1 = full_cloud s0
  /\ range_mat s1 = range_mat s0 /\ ground_mat s1 = ground_mat s0
  /\ forall c, in_image c ->
       label_at (label_mat s1) c = label_at (label_mat s0) c
       \/ (not_to_label s0 c = true /\ label_at (label_mat s1) c = -1).

Definition marked (c : Coord2D) (s : State) : Prop :=
  not_to_label s c = true -> label_at (label_mat s) c = -1.

(** All members but the label matrix and the label counter agree. *)
Definition same_but_labels (s s' : State) : Prop :=
  laser_cloud_in s' = laser_cloud_in s /\ full_cloud s' = full_cloud s
  /\ full_info_cloud s' = full_info_cloud s /\ ground_cloud s' = ground_cloud s
  /\ segmented_cloud s' = segmented_cloud s
  /\ segmented_cloud_pure s' = segmented_cloud_pure s
  /\ outlier_cloud s' = outlier_cloud s /\ range_mat s' = range_mat s
  /\ ground_mat s' = ground_mat s /\ seg_msg s' = seg_msg s.

(** The label matrix has its size and the label counter is positive. *)
Definition labels_wf (s : State) : Prop :=
  length (label_mat s) = cloud_size /\ 1 <= label_count s.

(** How one call of [labelComponents], or any number of them, changes the
    labels: a cell keeps its label, or it was unlabeled and now carries the
    rejection mark or an identifier issued in between. *)
Record seg_step (s s' : State) : Prop := mk_seg_step {
  step_frame : same_but_labels s s';
  step_wf : labels_wf s;
  step_wf' : labels_wf s';
  step_count : label_count s <= label_count s';
  step_labels : forall c, in_image c ->
    label_at (label_mat s') c = label_at (label_mat s) c
    \/ (label_at (label_mat s) c = 0
        /\ (label_at (label_mat s') c = 999999
            \/ label_count s <= label_at (label_mat s') c < label_count s'))
}.

End Model.

(** Sum over the rings of [endRingIndex[i] - startRingIndex[i] + margin]. *)
Definition window_sum (margin : Z) (starts ends : list Z) : Z :=
  foldr Z.add 0 (zip_with (fun a b => b - a + margin) starts ends).

Definition nondecreasing (l : list Z) : Prop :=
  forall i a b, l !! i = Some a -> l !! S i = Some b -> a <= b.

End ImageProjection.

(** ** featureAssociation.cpp *)

Module FeatureAssociation.

Import ImageProjection.

(** Reading and writing an array at a signed index.  An index below zero is
    outside every array: the read yields the default and the write is
    dropped. *)
Definition zget {A} (d : A) (l : list A) (k : Z) : A :=
  if k <? 0 then d else nth_def d l (Z.to_nat k).
Definition zset {A} (l : list A) (k : Z) (v : A) : list A :=
  if k <? 0 then l else <[Z.to_nat k := v]> l.

(** The integers [lo, lo+1, ..., hi-1]. *)
Definition zrange (lo hi : Z) : list Z :=
  map (fun i => lo + Z.of_nat i) (seq 0 (Z.to_nat (hi - lo))).

(** [int(a - b)] for two [uint32] values, then [std::abs]. *)
Definition columnDiff (a b : Z) : Z :=
  let d := (a - b) mod 2 ^ 32 in
  Z.abs (if d <? 2 ^ 31 then d else d - 2 ^ 32).

(** [struct smoothness_t]. *)
Record smoothness_t : Type := mkSmoothness {
  value : float;
  ind : Z
}.

(** *** extractFeatures *)

(** The members [extractFeatures] writes. *)
Record Features : Type := mkFeatures {
  cloudSmoothness : list smoothness_t;
  cloudCurvature : list float;
  cloudNeighborPicked : list Z;
  cloudLabel : list Z;
  cornerPointsSharp : list PointType;
  cornerPointsLessSharp : list PointType;
  surfPointsFlat : list PointType;
  surfPointsLessFlat : list PointType;
  surfPointsLessFlatScan : list PointType
}.

Definition with_cloudSmoothness v f :=
  mkFeatures v (cloudCurvature f) (cloudNeighborPicked f) (cloudLabel f)
    (cornerPointsSharp f) (cornerPointsLessSharp f) (surfPointsFlat f)
    (surfPointsLessFlat f) (surfPointsLessFlatScan f).
Definition with_cloudNeighborPicked v f :=
  mkFeatures (cloudSmoothness f) (cloudCurvature f) v (cloudLabel f)
    (cornerPointsSharp f) (cornerPointsLessSharp f) (surfPointsFlat f)
    (surfPointsLessFlat f) (surfPointsLessFlatScan f).
Definition with_cloudLabel v f :=
  mkFeatures (cloudSmoothness f) (cloudCurvature f) (cloudNeighborPicked f) v
    (cornerPointsSharp f) (cornerPointsLessSharp f) (surfPointsFlat f)
    (surfPointsLessFlat f) (surfPointsLessFlatScan f).
Definition with_cornerPointsSharp v f :=
  mkFeatures (cloudSmoothness f) (cloudCurvature f) (cloudNeighborPicked f)
    (cloudLabel f) v (cornerPointsLessSharp f) (surfPointsFlat f)
    (surfPointsLessFlat f) (surfPointsLessFlatScan f).
Definition with_cornerPointsLessSharp v f :=
  mkFeatures (cloudSmoothness f) (cloudCurvature f) (cloudNeighborPicked f)
    (cloudLabel f) (cornerPointsSharp f) v (surfPointsFlat f)
    (surfPointsLessFlat f) (surfPointsLessFlatScan f).
Definition with_surfPointsFlat v f :=
  mkFeatures (cloudSmoothness f) (cloudCurvature f) (cloudNeighborPicked f)
    (cloudLabel f) (cornerPointsSharp f) (cornerPointsLessSharp f) v
    (surfPointsLessFlat f) (surfPointsLessFlatScan f).
Definition with_surfPointsLessFlat v f :=
  mkFeatures (cloudSmoothness f) (cloudCurvature f) (cloudNeighborPicked f)
    (cloudLabel f) (cornerPointsSharp f) (cornerPointsLessSharp f)
    (surfPointsFlat f) v (surfPointsLessFlatScan f).
Definition with_surfPointsLessFlatScan v f :=
  mkFeatures (cloudSmoothness f) (cloudCurvature f) (cloudNeighborPicked f)
    (cloudLabel f) (cornerPointsSharp f) (cornerPointsLessSharp f)
    (surfPointsFlat f) (surfPointsLessFlat f) v.

Section Extraction.

(** Thresholds of the repository's headers; [std::sort] with [by_value] on a
    range of [cloudSmoothness]; the voxel-grid filter of PCL. *)
Context (N_scan : nat) (edgeThreshold surfThreshold : float)
        (sort_by_value : list smoothness_t -> list smoothness_t)
        (downSizeFilter : list PointType -> list PointType).

(** The input of the stage: the segmented cloud and its message. *)
Context (segInfo : cloud_info) (segmentedCloud : list PointType).

Definition point_at (k : Z) : PointType := zget PointXYZI_default segmentedCloud k.

(** [for (int l = 1; l <= 5; l++)]: mark the following neighbours as picked,
    skipping an index past the end of the column array and stopping at a
    gap of more than 10 columns. *)
Fixpoint mark_after (ls : list Z) (i : Z) (picked : list Z) : list Z :=
  match ls with
  | [] => picked
  | l :: ls' =>
      if ((i + l) mod 2 ^ 64 >=? Z.of_nat (length (segmentedCloudColInd segInfo)))
      then mark_after ls' i picked
      else if columnDiff (zget 0 (segmentedCloudColInd segInfo) (i + l))
                         (zget 0 (segmentedCloudColInd segInfo) (i + l - 1)) >? 10
           then picked
           else mark_after ls' i (zset picked (i + l) 1)
  end.

(** [for (int l = -1; l >= -5; l--)]. *)
Fixpoint mark_before (ls : list Z) (i : Z) (picked : list Z) : list Z :=
  match ls with
  | [] => picked
  | l :: ls' =>
      if i + l <? 0 then mark_before ls' i picked
      else if columnDiff (zget 0 (segmentedCloudColInd segInfo) (i + l))
                         (zget 0 (segmentedCloudColInd segInfo) (i + l + 1)) >? 10
           then picked
           else mark_before ls' i (zset picked (i + l) 1)
  end.

(** The suppression of the neighbourhood of an accepted point. *)
Definition suppress (i : Z) (f : Features) : Features :=
  with_cloudNeighborPicked
    (mark_before [-1; -2; -3; -4; -5] i
       (mark_after [1; 2; 3; 4; 5] i (zset (cloudNeighborPicked f) i 1))) f.

(** [for (int k = ep; k >= sp; k--)], the corner pass; [ks] are the values
    of [k] still to visit and [largestPickedNum] the local counter. *)
Fixpoint corner_pass (ks : list Z) (largestPickedNum : Z) (f : Features) : Features :=
  match ks with
  | [] => f
  | k :: ks' =>
      let i := ind (zget (mkSmoothness 0 0) (cloudSmoothness f) k) in
      if (zget 0 (cloudNeighborPicked f) i =? 0)
         && PrimFloat.ltb edgeThreshold (zget 0%float (cloudCurvature f) i)
         && negb (zget false (segmentedCloudGroundFlag segInfo) i)
      then
        let largestPickedNum := largestPickedNum + 1 in
        if largestPickedNum <=? 2 then
          corner_pass ks' largestPickedNum
            (suppress i
               (with_cornerPointsLessSharp (cornerPointsLessSharp f ++ [point_at i])
                  (with_cornerPointsSharp (cornerPointsSharp f ++ [point_at i])
                     (with_cloudLabel (zset (cloudLabel f) i 2) f))))
        else if largestPickedNum <=? 20 then
          corner_pass ks' largestPickedNum
            (suppress i
               (with_cornerPointsLessSharp (cornerPointsLessSharp f ++ [point_at i])
                  (with_cloudLabel (zset (cloudLabel f) i 1) f)))
        else f
      else corner_pass ks' largestPickedNum f
  end.

(** [for (int k = sp; k <= ep; k++)], the surface pass. *)
Fixpoint surface_pass (ks : list Z) (smallestPickedNum : Z) (f : Features) : Features :=
  match ks with
  | [] => f
  | k :: ks' =>
      let i := ind (zget (mkSmoothness 0 0) (cloudSmoothness f) k) in
      if (zget 0 (cloudNeighborPicked f) i =? 0)
         && PrimFloat.ltb (zget 0%float (cloudCurvature f) i) surfThreshold
         && zget false (segmentedCloudGroundFlag segInfo) i
      then
        let f1 := with_surfPointsFlat (surfPointsFlat f ++ [point_at i])
                    (with_cloudLabel (zset (cloudLabel f) i (-1)) f) in
        let smallestPickedNum := smallestPickedNum + 1 in
        if smallestPickedNum >=? 4 then f1
        else surface_pass ks' smallestPickedNum (suppress i f1)
      else surface_pass ks' smallestPickedNum f
  end.

(** The last loop of a sector: the points not labeled as corners join the
    less-flat cloud of the ring. *)
Definition less_flat_pass (ks : list Z) (f : Features) : Features :=
  for_each ks
    (fun k f => if zget 0 (cloudLabel f) k <=? 0
                then with_surfPointsLessFlatScan
                       (surfPointsLessFlatScan f ++ [point_at k]) f
                else f) f.

(** [std::sort(cloudSmoothness.begin() + sp, cloudSmoothness.begin() + ep,
    by_value())]. *)
Definition sort_range (sp ep : Z) (l : list smoothness_t) : list smoothness_t :=
  take (Z.to_nat sp) l
  ++ sort_by_value (take (Z.to_nat (ep - sp)) (drop (Z.to_nat sp) l))
  ++ drop (Z.to_nat ep) l.

(** The bounds [sp] and [ep] of sector [j] of ring [i] ([int] division
    truncates). *)
Definition sector_sp (i j : Z) : Z :=
  (zget 0 (startRingIndex segInfo) i * (6 - j) + zget 0 (endRingIndex segInfo) i * j) ÷ 6.
Definition sector_ep (i j : Z) : Z :=
  (zget 0 (startRingIndex segInfo) i * (5 - j)
   + zget 0 (endRingIndex segInfo) i * (j + 1)) ÷ 6 - 1.

(** The three passes over a sector whose bounds satisfy [sp < ep]. *)
Definition sector_corners (sp ep : Z) (f : Features) : Features :=
  corner_pass (rev (zrange sp (ep + 1))) 0
    (with_cloudSmoothness (sort_range sp ep (cloudSmoothness f)) f).

Definition sector_surfaces (sp ep : Z) (f : Features) : Features :=
  surface_pass (zrange sp (ep + 1)) 0 f.

(** The body of [for (int j = 0; j < 6; j++)]. *)
Definition extract_sector (i j : Z) (f : Features) : Features :=
  let sp := sector_sp i j in
  let ep := sector_ep i j in
  if sp >=? ep then f
  else less_flat_pass (zrange sp (ep + 1))
         (sector_surfaces sp ep (sector_corners sp ep f)).

(** The body of [for (int i = 0; i < N_scan; i++)]. *)
Definition extract_ring (i : Z) (f : Features) : Features :=
  let f1 := for_each (upto 6) (extract_sector i)
              (with_surfPointsLessFlatScan [] f) in
  with_surfPointsLessFlat
    (surfPointsLessFlat f1 ++ downSizeFilter (surfPointsLessFlatScan f1)) f1.

Definition extractFeatures (f : Features) : Features :=
  for_each (upto N_scan) extract_ring
    (with_surfPointsLessFlat []
       (with_surfPointsFlat []
          (with_cornerPointsLessSharp [] (with_cornerPointsSharp [] f)))).

End Extraction.

(** *** Vocabulary of the properties of [extractFeatures] *)

Definition picked_at (f : Features) (k : Z) : Z := zget 0 (cloudNeighborPicked f) k.
Definition label_of (f : Features) (k : Z) : Z := zget 0 (cloudLabel f) k.

(** The arrays have one size, and every index stored in [cloudSmoothness]
    lies inside them. *)
Definition features_wf (f : Features) : Prop :=
  length (cloudNeighborPicked f) = length (cloudLabel f)
  /\ (0 < length (cloudLabel f))%nat
  /\ Forall (fun x => 0 <= ind x < Z.of_nat (length (cloudLabel f))) (cloudSmoothness f).

(** From [f] to [f'] a point that was picked stays picked and keeps its
    label. *)
Definition keeps (f f' : Features) : Prop :=
  forall k, picked_at f k <> 0 -> picked_at f' k <> 0 /\ label_of f' k = label_of f k.

(** *** Small dense matrices

    [Eigen::Matrix<float,3,1>] is a list of three floats and
    [Eigen::Matrix<float,3,3>] a list of three rows. *)

Definition Vec : Type := list float.
Definition Mat : Type := list (list float).

Definition vget (v : Vec) (k : nat) : float := nth_def 0%float v k.
Definition mget (m : Mat) (r c : nat) : float := vget (nth_def [] m r) c.

Definition dot (a b : Vec) : float :=
  foldr PrimFloat.add 0%float (zip_with PrimFloat.mul a b).

(** [m * v] and [a * b]. *)
Definition mat_vec (m : Mat) (v : Vec) : Vec := map (fun row => dot row v) m.
Definition transpose3 (m : Mat) : Mat :=
  map (fun c => map (fun row => vget row c) m) [0; 1; 2]%nat.
Definition mat_mul (a b : Mat) : Mat :=
  map (fun row => map (fun col => dot row col) (transpose3 b)) a.

(** [matAt * matA] and [matAt * matB] for the rows [rows] of [matA]. *)
Definition AtA (rows : list Vec) : Mat :=
  map (fun r => map (fun c => dot (map (fun a => vget a r) rows)
                                  (map (fun a => vget a c) rows)) [0; 1; 2]%nat)
    [0; 1; 2]%nat.
Definition AtB (rows : list Vec) (b : list float) : Vec :=
  map (fun r => dot (map (fun a => vget a r) rows) b) [0; 1; 2]%nat.

(** The operations of Eigen the solver calls: the column-pivoting QR solve,
    the self-adjoint eigen solver and the inverse. *)
Record EigenLib : Type := mkEigenLib {
  colPivHouseholderQr_solve : Mat -> Vec -> Vec;
  eigenvalues : Mat -> Vec;
  eigenvectors : Mat -> Mat;
  inverse : Mat -> Mat
}.

(** *** The solver *)

Definition RAD2DEG : float := (180 / M_PI)%float.

(** The members the two solves read and write. *)
Record Solve : Type := mkSolve {
  transformCur : list float;
  isDegenerate : bool;
  laserCloudOri : list PointType;
  coeffSel : list PointType
}.

(** [for (int i = 2; i >= 0; i--)]: the scan of the eigenvalues against the
    threshold; [idxs] are the indices still to visit, the pair is [matV2] and
    [isDegenerate]. *)
Fixpoint degeneracy_scan (idxs : list nat) (matE : Vec) (eignThre : Vec)
    (acc : Mat * bool) : Mat * bool :=
  match idxs with
  | [] => acc
  | i :: idxs' =>
      if PrimFloat.ltb (vget matE i) (vget eignThre i)
      then degeneracy_scan idxs' matE eignThre
             (<[i := [0; 0; 0]%float]> (fst acc), true)
      else acc
  end.

(** The block [if (iterCount == 0) { ... }]: the new values of
    [isDegenerate] and of the local [matP]. *)
Definition degeneracy_check (eg : EigenLib) (matAtA : Mat) : bool * Mat :=
  let matE := eigenvalues eg matAtA in
  let matV := eigenvectors eg matAtA in
  let '(matV2, degenerate) :=
    degeneracy_scan [2; 1; 0]%nat matE [10; 10; 10]%float (matV, false) in
  (degenerate, mat_mul (inverse eg matV) matV2).

Definition sanitize (t : list float) : list float :=
  map (fun x => if isnan x then 0%float else x) t.

Definition tget (t : list float) (k : nat) : float := nth_def 0%float t k.

Section Solver.

Context (lm : Libm) (eg : EigenLib).

Local Open Scope float_scope.

(** The row of [matA] and the entry of [matB] for one residual of the
    surface solve. *)
Definition surf_row (t : list float) (pointOri coeff : PointType) : Vec * float :=
  let srx := sin lm (tget t 0) in
  let crx := cos lm (tget t 0) in
  let sry := sin lm (tget t 1) in
  let cry := cos lm (tget t 1) in
  let srz := sin lm (tget t 2) in
  let crz := cos lm (tget t 2) in
  let tx := tget t 3 in
  let ty := tget t 4 in
  let tz := tget t 5 in
  let a1 := crx * sry * srz in
  let a2 := crx * crz * sry in
  let a3 := srx * sry in
  let a4 := tx * a1 - ty * a2 - tz * a3 in
  let a5 := srx * srz in
  let a6 := crz * srx in
  let a7 := ty * a6 - tz * crx - tx * a5 in
  let a8 := crx * cry * srz in
  let a9 := crx * cry * crz in
  let a10 := cry * srx in
  let a11 := tz * a10 + ty * a9 - tx * a8 in
  let b1 := - crz * sry - cry * srx * srz in
  let b2 := cry * crz * srx - sry * srz in
  let b5 := cry * crz - srx * sry * srz in
  let b6 := cry * srz + crz * srx * sry in
  let c1 := - b6 in
  let c2 := b5 in
  let c3 := tx * b6 - ty * b5 in
  let c4 := - crx * crz in
  let c5 := crx * srz in
  let c6 := ty * c5 + tx * - c4 in
  let c7 := b2 in
  let c8 := - b1 in
  let c9 := tx * - b2 - ty * - b1 in
  let arx :=
    (- a1 * px pointOri + a2 * py pointOri + a3 * pz pointOri + a4) * px coeff +
    (a5 * px pointOri - a6 * py pointOri + crx * pz pointOri + a7) * py coeff +
    (a8 * px pointOri - a9 * py pointOri - a10 * pz pointOri + a11) * pz coeff in
  let arz :=
    (c1 * px pointOri + c2 * py pointOri + c3) * px coeff +
    (c4 * px pointOri - c5 * py pointOri + c6) * py coeff +
    (c7 * px pointOri + c8 * py pointOri + c9) * pz coeff in
  let aty := - b6 * px coeff + c4 * py coeff + b2 * pz coeff in
  let d2 := intensity coeff in
  ([arx; arz; aty], - 0x1.999999999999ap-5 (* 0.05 *) * d2).

(** The same for the corner solve. *)
Definition corner_row (t : list float) (pointOri coeff : PointType) : Vec * float :=
  let srx := sin lm (tget t 0) in
  let crx := cos lm (tget t 0) in
  let sry := sin lm (tget t 1) in
  let cry := cos lm (tget t 1) in
  let srz := sin lm (tget t 2) in
  let crz := cos lm (tget t 2) in
  let tx := tget t 3 in
  let ty := tget t 4 in
  let tz := tget t 5 in
  let b1 := - crz * sry - cry * srx * srz in
  let b2 := cry * crz * srx - sry * srz in
  let b3 := crx * cry in
  let b4 := tx * - b1 + ty * - b2 + tz * b3 in
  let b5 := cry * crz - srx * sry * srz in
  let b6 := cry * srz + crz * srx * sry in
  let b7 := crx * sry in
  let b8 := tz * b7 - ty * b6 - tx * b5 in
  let c5 := crx * srz in
  let ary :=
    (b1 * px pointOri + b2 * py pointOri - b3 * pz pointOri + b4) * px coeff +
    (b5 * px pointOri + b6 * py pointOri - b7 * pz pointOri + b8) * pz coeff in
  let atx := - b5 * px coeff + c5 * py coeff + b1 * pz coeff in
  let atz := b7 * px coeff - srx * py coeff - b3 * pz coeff in
  let d2 := intensity coeff in
  ([ary; atx; atz], - 0x1.999999999999ap-5 (* 0.05 *) * d2).

(** What the two solves share after [matA] and [matB] are filled: the
    normal equations, the degeneracy check of iteration 0, the projection.
    [matP0] is the value the local [matP] holds when it is declared: the
    declaration has no initializer, so the value is indeterminate.  The
    result is [isDegenerate] and the update [matX] to apply. *)
Definition solve_update (iterCount : Z) (matP0 : Mat) (degenerate0 : bool)
    (rows : list (Vec * float)) : bool * Vec :=
  let matAtA := AtA (map fst rows) in
  let matAtB := AtB (map fst rows) (map snd rows) in
  let matX := colPivHouseholderQr_solve eg matAtA matAtB in
  let '(degenerate, matP) :=
    if (iterCount =? 0)%Z then degeneracy_check eg matAtA else (degenerate0, matP0) in
  (degenerate, if degenerate then mat_vec matP matX else matX).

Definition calculateTransformationSurf (iterCount : Z) (matP0 : Mat) (s : Solve)
  : Solve * bool :=
  let rows := zip_with (surf_row (transformCur s)) (laserCloudOri s) (coeffSel s) in
  let '(degenerate, matX) := solve_update iterCount matP0 (isDegenerate s) rows in
  let t := transformCur s in
  let t := <[0%nat := tget t 0 + vget matX 0]> t in
  let t := <[2%nat := tget t 2 + vget matX 1]> t in
  let t := <[4%nat := tget t 4 + vget matX 2]> t in
  let deltaR := PrimFloat.sqrt (RAD2DEG * vget matX 0 * (RAD2DEG * vget matX 0)
                                + RAD2DEG * vget matX 1 * (RAD2DEG * vget matX 1)) in
  let deltaT := PrimFloat.sqrt (vget matX 2 * 100 * (vget matX 2 * 100)) in
  (mkSolve (sanitize t) degenerate (laserCloudOri s) (coeffSel s),
   negb (PrimFloat.ltb deltaR 0x1.999999999999ap-4
         && PrimFloat.ltb deltaT 0x1.999999999999ap-4)).

Definition calculateTransformationCorner (iterCount : Z) (matP0 : Mat) (s : Solve)
  : Solve * bool :=
  let rows := zip_with (corner_row (transformCur s)) (laserCloudOri s) (coeffSel s) in
  let '(degenerate, matX) := solve_update iterCount matP0 (isDegenerate s) rows in
  let t := transformCur s in
  let t := <[1%nat := tget t 1 + vget matX 0]> t in
  let t := <[3%nat := tget t 3 + vget matX 1]> t in
  let t := <[5%nat := tget t 5 + vget matX 2]> t in
  let deltaR := PrimFloat.sqrt (RAD2DEG * vget matX 0 * (RAD2DEG * vget matX 0)) in
  let deltaT := PrimFloat.sqrt (vget matX 1 * 100 * (vget matX 1 * 100)
                                + vget matX 2 * 100 * (vget matX 2 * 100)) in
  (mkSolve (sanitize t) degenerate (laserCloudOri s) (coeffSel s),
   negb (PrimFloat.ltb deltaR 0x1.999999999999ap-4
         && PrimFloat.ltb deltaT 0x1.999999999999ap-4)).

End Solver.

(** *** The scan loop *)

Definition Vector3 : Type := (float * float * float)%type.
Definition vx (v : Vector3) : float := v.1.1.
Definition vy (v : Vector3) : float := v.1.2.
Definition vz (v : Vector3) : float := v.2.

(** The IMU values of the current scan that the association reads. *)
Record ImuScan : Type := mkImuScan {
  imuRollStart : float;
  imuPitchStart : float;
  imuYawStart : float;
  imuRollCur : float;
  imuPitchCur : float;
  imuYawCur : float;
  imuRollLast : float;
  imuPitchLast : float;
  imuYawLast : float;
  imuShiftFromStartCur : Vector3;
  imuVeloFromStartCur : Vector3;
  imuShiftFromStart : Vector3;
  imuVeloFromStart : Vector3;
  imuAngularFromStart : Vector3
}.

(** [nav_msgs::Odometry], pose part. *)
Record Odometry : Type := mkOdometry {
  orientation : float * float * float * float;
  position : float * float * float
}.

(** [AssociationOut], the bundle sent to the mapping stage. *)
Record AssociationOut : Type := mkAssociationOut {
  cloud_corner_last : list PointType;
  cloud_surf_last : list PointType;
  cloud_outlier_last : list PointType;
  laser_odometry : Odometry
}.

(** What the model records of the outputs of a scan: the odometry message
    on its topic and the bundle on the output channel.  The clouds published
    for display ([publishCloud], [checkSystemInitialization],
    [publishCloudsLast]) and the transform broadcast of [publishOdometry]
    are not recorded. *)
Inductive Output : Type :=
| PublishOdometry (o : Odometry)
| Send (o : AssociationOut).

Section ScanLoop.

(** [Hidden] stands for the members the model does not look into: the IMU
    ring buffer and its pointers, the cached sines and cosines, the KD-trees
    and the index arrays of the correspondence searches. *)
Context (lm : Libm) (eg : EigenLib) (Hidden : Type).

(** The clouds and arrays of the stage. *)
Record Work : Type := mkWork {
  segmentedCloud : list PointType;
  outlierCloud : list PointType;
  segInfo : cloud_info;
  feat : Features;
  laserCloudCornerLast : list PointType;
  laserCloudSurfLast : list PointType;
  hidden : Hidden
}.

(** The members of [FeatureAssociation]. *)
Record State : Type := mkState {
  solve : Solve;
  transformSum : list float;
  systemInitedLM : bool;
  laserCloudCornerLastNum : Z;
  laserCloudSurfLastNum : Z;
  frameCount : Z;
  cycle_count : Z;
  laserOdometry : Odometry;
  imu : ImuScan;
  work : Work
}.

(** Configuration constants and the functions the model does not unfold.
    Each takes the members its source reads and returns those it writes:
    - [adjustDistortion], [calculateSmoothness] and [markOccludedPoints]
      work on the IMU values, the segmented cloud and the feature arrays;
    - the two correspondence searches read [transformCur] and the clouds,
      keep their index arrays, and fill [laserCloudOri] and [coeffSel];
    - [TransformToEnd] maps a point, reading [transformCur] and IMU values;
    - [updateImuRollPitchYawStartSinCos] and the KD-tree rebuild write
      hidden members only;
    - [matP_garbage n] is the indeterminate content of the local [matP] at
      the [n]-th call of a solve. *)
Record Externals : Type := mkExternals {
  scanPeriod : float;
  skipFrameNum : Z;
  mappingFrequencyDivider : Z;
  N_scan_fa : nat;
  edgeThreshold : float;
  surfThreshold : float;
  sort_by_value : list smoothness_t -> list smoothness_t;
  downSizeFilter : list PointType -> list PointType;
  adjustDistortion : ImuScan -> Work -> ImuScan * Work;
  calculateSmoothness : Work -> Work;
  markOccludedPoints : Work -> Work;
  findCorrespondingSurfFeatures :
    Z -> list float -> Work -> Work * list PointType * list PointType;
  findCorrespondingCornerFeatures :
    Z -> list float -> Work -> Work * list PointType * list PointType;
  TransformToEnd : list float -> ImuScan -> Hidden -> PointType -> PointType;
  updateImuRollPitchYawStartSinCos : ImuScan -> Hidden -> Hidden;
  kdtree_setInputCloud : list PointType -> list PointType -> Hidden -> Hidden;
  createQuaternionMsgFromRollPitchYaw :
    float -> float -> float -> float * float * float * float;
  matP_garbage : Z -> Mat
}.

Context (ext : Externals).

Definition with_solve v (s : State) :=
  mkState v (transformSum s) (systemInitedLM s) (laserCloudCornerLastNum s)
    (laserCloudSurfLastNum s) (frameCount s) (cycle_count s) (laserOdometry s)
    (imu s) (work s).
Definition with_transformSum v (s : State) :=
  mkState (solve s) v (systemInitedLM s) (laserCloudCornerLastNum s)
    (laserCloudSurfLastNum s) (frameCount s) (cycle_count s) (laserOdometry s)
    (imu s) (work s).
Definition with_transformCur v (s : State) :=
  with_solve (mkSolve v (isDegenerate (solve s)) (laserCloudOri (solve s))
                (coeffSel (solve s))) s.
Definition with_imu v (s : State) :=
  mkState (solve s) (transformSum s) (systemInitedLM s) (laserCloudCornerLastNum s)
    (laserCloudSurfLastNum s) (frameCount s) (cycle_count s) (laserOdometry s)
    v (work s).
Definition with_work v (s : State) :=
  mkState (solve s) (transformSum s) (systemInitedLM s) (laserCloudCornerLastNum s)
    (laserCloudSurfLastNum s) (frameCount s) (cycle_count s) (laserOdometry s)
    (imu s) v.
Definition with_feat v (w : Work) :=
  mkWork (segmentedCloud w) (outlierCloud w) (segInfo w) v
    (laserCloudCornerLast w) (laserCloudSurfLast w) (hidden w).

Local Open Scope float_scope.

Definition AccumulateRotation (cx cy cz lx ly lz : float) : float * float * float :=
  let sin := sin lm in
  let cos := cos lm in
  let srx := cos lx * cos cx * sin ly * sin cz -
             cos cx * cos cz * sin lx - cos lx * cos ly * sin cx in
  let ox := - asin lm srx in
  let srycrx :=
    sin lx * (cos cy * sin cz - cos cz * sin cx * sin cy) +
    cos lx * sin ly * (cos cy * cos cz + sin cx * sin cy * sin cz) +
    cos lx * cos ly * cos cx * sin cy in
  let crycrx :=
    cos lx * cos ly * cos cx * cos cy -
    cos lx * sin ly * (cos cz * sin cy - cos cy * sin cx * sin cz) -
    sin lx * (sin cy * sin cz + cos cy * cos cz * sin cx) in
  let oy := atan2 lm (srycrx / cos ox) (crycrx / cos ox) in
  let srzcrx :=
    sin cx * (cos lz * sin ly - cos ly * sin lx * sin lz) +
    cos cx * sin cz * (cos ly * cos lz + sin lx * sin ly * sin lz) +
    cos lx * cos cx * cos cz * sin lz in
  let crzcrx :=
    cos lx * cos lz * cos cx * cos cz -
    cos cx * sin cz * (cos ly * sin lz - cos lz * sin lx * sin ly) -
    sin cx * (sin ly * sin lz + cos ly * cos lz * sin lx) in
  let oz := atan2 lm (srzcrx / cos ox) (crzcrx / cos ox) in
  (ox, oy, oz).

Definition PluginIMURotation (bcx bcy bcz blx bly blz alx aly alz : float)
  : float * float * float :=
  let sbcx := sin lm bcx in
  let cbcx := cos lm bcx in
  let sbcy := sin lm bcy in
  let cbcy := cos lm bcy in
  let sbcz := sin lm bcz in
  let cbcz := cos lm bcz in
  let sblx := sin lm blx in
  let cblx := cos lm blx in
  let sbly := sin lm bly in
  let cbly := cos lm bly in
  let sblz := sin lm blz in
  let cblz := cos lm blz in
  let salx := sin lm alx in
  let calx := cos lm alx in
  let saly := sin lm aly in
  let caly := cos lm aly in
  let salz := sin lm alz in
  let calz := cos lm alz in
  let srx := - sbcx * (salx * sblx + calx * caly * cblx * cbly +
                       calx * cblx * saly * sbly) -
             cbcx * cbcz *
               (calx * saly * (cbly * sblz - cblz * sblx * sbly) -
                calx * caly * (sbly * sblz + cbly * cblz * sblx) +
                cblx * cblz * salx) -
             cbcx * sbcz *
               (calx * caly * (cblz * sbly - cbly * sblx * sblz) -
                calx * saly * (cbly * cblz + sblx * sbly * sblz) +
                cblx * salx * sblz) in
  let acx := - asin lm srx in
  let srycrx :=
    (cbcy * sbcz - cbcz * sbcx * sbcy) *
      (calx * saly * (cbly * sblz - cblz * sblx * sbly) -
       calx * caly * (sbly * sblz + cbly * cblz * sblx) +
       cblx * cblz * salx) -
    (cbcy * cbcz + sbcx * sbcy * sbcz) *
      (calx * caly * (cblz * sbly - cbly * sblx * sblz) -
       calx * saly * (cbly * cblz + sblx * sbly * sblz) +
       cblx * salx * sblz) +
    cbcx * sbcy *
      (salx * sblx + calx * caly * cblx * cbly + calx * cblx * saly * sbly) in
  let crycrx :=
    (cbcz * sbcy - cbcy * sbcx * sbcz) *
      (calx * caly * (cblz * sbly - cbly * sblx * sblz) -
       calx * saly * (cbly * cblz + sblx * sbly * sblz) +
       cblx * salx * sblz) -
    (sbcy * sbcz + cbcy * cbcz * sbcx) *
      (calx * saly * (cbly * sblz - cblz * sblx * sbly) -
       calx * caly * (sbly * sblz + cbly * cblz * sblx) +
       cblx * cblz * salx) +
    cbcx * cbcy *
      (salx * sblx + calx * caly * cblx * cbly + calx * cblx * saly * sbly) in
  let acy := atan2 lm (srycrx / cos lm acx) (crycrx / cos lm acx) in
  let srzcrx :=
    sbcx * (cblx * cbly * (calz * saly - caly * salx * salz) -
            cblx * sbly * (caly * calz + salx * saly * salz) +
            calx * salz * sblx) -
    cbcx * cbcz *
      ((caly * calz + salx * saly * salz) * (cbly * sblz - cblz * sblx * sbly) +
       (calz * saly - caly * salx * salz) * (sbly * sblz + cbly * cblz * sblx) -
       calx * cblx * cblz * salz) +
    cbcx * sbcz *
      ((caly * calz + salx * saly * salz) * (cbly * cblz + sblx * sbly * sblz) +
       (calz * saly - caly * salx * salz) * (cblz * sbly - cbly * sblx * sblz) +
       calx * cblx * salz * sblz) in
  let crzcrx :=
    sbcx * (cblx * sbly * (caly * salz - calz * salx * saly) -
            cblx * cbly * (saly * salz + caly * calz * salx) +
            calx * calz * sblx) +
    cbcx * cbcz *
      ((saly * salz + caly * calz * salx) * (sbly * sblz + cbly * cblz * sblx) +
       (caly * salz - calz * salx * saly) * (cbly * sblz - cblz * sblx * sbly) +
       calx * calz * cblx * cblz) -
    cbcx * sbcz *
      ((saly * salz + caly * calz * salx) * (cblz * sbly - cbly * sblx * sblz) +
       (caly * salz - calz * salx * saly) * (cbly * cblz + sblx * sbly * sblz) -
       calx * calz * cblx * sblz) in
  let acz := atan2 lm (srzcrx / cos lm acx) (crzcrx / cos lm acx) in
  (acx, acy, acz).

Local Close Scope float_scope.

Definition with_clouds (cornerLess surfLess cornerLast surfLast : list PointType)
    (h : Hidden) (w : Work) : Work :=
  mkWork (segmentedCloud w) (outlierCloud w) (segInfo w)
    (with_surfPointsLessFlat surfLess
       (with_cornerPointsLessSharp cornerLess (feat w)))
    cornerLast surfLast h.

Definition checkSystemInitialization (s : State) : State :=
  let w := work s in
  (* the two swaps with the [Last] clouds, then the KD-trees *)
  let w1 := with_clouds (laserCloudCornerLast w) (laserCloudSurfLast w)
              (cornerPointsLessSharp (feat w)) (surfPointsLessFlat (feat w))
              (kdtree_setInputCloud ext (cornerPointsLessSharp (feat w))
                 (surfPointsLessFlat (feat w)) (hidden w)) w in
  let ts := transformSum s in
  let ts := <[0%nat := (tget ts 0 + imuPitchStart (imu s))%float]> ts in
  let ts := <[2%nat := (tget ts 2 + imuRollStart (imu s))%float]> ts in
  mkState (solve s) ts true
    (Z.of_nat (length (laserCloudCornerLast w1)))
    (Z.of_nat (length (laserCloudSurfLast w1)))
    (frameCount s) (cycle_count s) (laserOdometry s) (imu s) w1.

Definition nonzero (v : Vector3) : bool :=
  negb (PrimFloat.eqb (vx v) 0) || negb (PrimFloat.eqb (vy v) 0)
  || negb (PrimFloat.eqb (vz v) 0).

Definition updateInitialGuess (s : State) : State :=
  let m := imu s in
  let m1 := mkImuScan (imuRollStart m) (imuPitchStart m) (imuYawStart m)
              (imuRollCur m) (imuPitchCur m) (imuYawCur m)
              (imuRollCur m) (imuPitchCur m) (imuYawCur m)
              (imuShiftFromStartCur m) (imuVeloFromStartCur m)
              (imuShiftFromStartCur m) (imuVeloFromStartCur m)
              (imuAngularFromStart m) in
  let t := transformCur (solve s) in
  let t :=
    if nonzero (imuAngularFromStart m1)
    then <[2%nat := (- vx (imuAngularFromStart m1))%float]>
           (<[1%nat := (- vz (imuAngularFromStart m1))%float]>
              (<[0%nat := (- vy (imuAngularFromStart m1))%float]> t))
    else t in
  let t :=
    if nonzero (imuVeloFromStart m1)
    then <[5%nat := (tget t 5 - vz (imuVeloFromStart m1) * scanPeriod ext)%float]>
           (<[4%nat := (tget t 4 - vy (imuVeloFromStart m1) * scanPeriod ext)%float]>
              (<[3%nat := (tget t 3 - vx (imuVeloFromStart m1) * scanPeriod ext)%float]> t))
    else t in
  with_transformCur t (with_imu m1 s).

(** The first loop of [updateTransformation]; [iters] are the values of
    [iterCount1] still to run. *)
Fixpoint surf_iterations (iters : list Z) (w : Work) (sv : Solve) : Work * Solve :=
  match iters with
  | [] => (w, sv)
  | iterCount1 :: rest =>
      let '(w1, ori, coeff) :=
        findCorrespondingSurfFeatures ext iterCount1 (transformCur sv) w in
      let sv1 := mkSolve (transformCur sv) (isDegenerate sv) ori coeff in
      if (length ori <? 10)%nat then surf_iterations rest w1 sv1
      else
        let '(sv2, again) :=
          calculateTransformationSurf lm eg iterCount1
            (matP_garbage ext iterCount1) sv1 in
        if again then surf_iterations rest w1 sv2 else (w1, sv2)
  end.

(** The second loop. *)
Fixpoint corner_iterations (iters : list Z) (w : Work) (sv : Solve) : Work * Solve :=
  match iters with
  | [] => (w, sv)
  | iterCount2 :: rest =>
      let '(w1, ori, coeff) :=
        findCorrespondingCornerFeatures ext iterCount2 (transformCur sv) w in
      let sv1 := mkSolve (transformCur sv) (isDegenerate sv) ori coeff in
      if (length ori <? 10)%nat then corner_iterations rest w1 sv1
      else
        let '(sv2, again) :=
          calculateTransformationCorner lm eg iterCount2
            (matP_garbage ext (25 + iterCount2)) sv1 in
        if again then corner_iterations rest w1 sv2 else (w1, sv2)
  end.

Definition updateTransformation (s : State) : State :=
  if (laserCloudCornerLastNum s <? 10) || (laserCloudSurfLastNum s <? 100) then s
  else
    let '(w1, sv1) := surf_iterations (upto 25) (work s) (solve s) in
    let '(w2, sv2) := corner_iterations (upto 25) w1 sv1 in
    with_work w2 (with_solve sv2 s).

Definition integrateTransformation (s : State) : State :=
  let ts := transformSum s in
  let tc := transformCur (solve s) in
  let m := imu s in
  let '(rx, ry, rz) :=
    AccumulateRotation (tget ts 0) (tget ts 1) (tget ts 2)
      (- tget tc 0)%float (- tget tc 1)%float (- tget tc 2)%float in
  let x1 := (cos lm rz * (tget tc 3 - vx (imuShiftFromStart m)) -
             sin lm rz * (tget tc 4 - vy (imuShiftFromStart m)))%float in
  let y1 := (sin lm rz * (tget tc 3 - vx (imuShiftFromStart m)) +
             cos lm rz * (tget tc 4 - vy (imuShiftFromStart m)))%float in
  let z1 := (tget tc 5 - vz (imuShiftFromStart m))%float in
  let x2 := x1 in
  let y2 := (cos lm rx * y1 - sin lm rx * z1)%float in
  let z2 := (sin lm rx * y1 + cos lm rx * z1)%float in
  let tx := (tget ts 3 - (cos lm ry * x2 + sin lm ry * z2))%float in
  let ty := (tget ts 4 - y2)%float in
  let tz := (tget ts 5 - (- sin lm ry * x2 + cos lm ry * z2))%float in
  let '(rx, ry, rz) :=
    PluginIMURotation rx ry rz (imuPitchStart m) (imuYawStart m) (imuRollStart m)
      (imuPitchLast m) (imuYawLast m) (imuRollLast m) in
  with_transformSum
    (<[5%nat := tz]> (<[4%nat := ty]> (<[3%nat := tx]>
       (<[2%nat := rz]> (<[1%nat := ry]> (<[0%nat := rx]> ts)))))) s.

(** [publishOdometry]: the message built from [transformSum]. *)
Definition publishOdometry (s : State) : State * Output :=
  let ts := transformSum s in
  let '(qx, qy, qz, qw) :=
    createQuaternionMsgFromRollPitchYaw ext (tget ts 2)
      (- tget ts 0)%float (- tget ts 1)%float in
  let o := mkOdometry ((- qy)%float, (- qz)%float, qx, qw)
             (tget ts 3, tget ts 4, tget ts 5) in
  (mkState (solve s) (transformSum s) (systemInitedLM s) (laserCloudCornerLastNum s)
     (laserCloudSurfLastNum s) (frameCount s) (cycle_count s) o (imu s) (work s),
   PublishOdometry o).

Definition adjustOutlierCloud (cloud : list PointType) : list PointType :=
  map (fun p => mkPoint (py p) (pz p) (px p) (intensity p)) cloud.

Definition publishCloudsLast (s : State) : State :=
  let w := work s in
  let h := updateImuRollPitchYawStartSinCos ext (imu s) (hidden w) in
  let toEnd := TransformToEnd ext (transformCur (solve s)) (imu s) h in
  let cornerLess := map toEnd (cornerPointsLessSharp (feat w)) in
  let surfLess := map toEnd (surfPointsLessFlat (feat w)) in
  let cornerNum := Z.of_nat (length cornerLess) in
  let surfNum := Z.of_nat (length surfLess) in
  let h1 := if (cornerNum >? 10) && (surfNum >? 100)
            then kdtree_setInputCloud ext cornerLess surfLess h else h in
  let w1 := with_clouds (laserCloudCornerLast w) (laserCloudSurfLast w)
              cornerLess surfLess h1 w in
  let w2 := mkWork (segmentedCloud w1) (adjustOutlierCloud (outlierCloud w1))
              (segInfo w1) (feat w1) (laserCloudCornerLast w1)
              (laserCloudSurfLast w1) (hidden w1) in
  let fc := frameCount s + 1 in
  mkState (solve s) (transformSum s) (systemInitedLM s) cornerNum surfNum
    (if fc >=? skipFrameNum ext + 1 then 0 else fc)
    (cycle_count s) (laserOdometry s) (imu s) w2.

(** The feature-extraction half of a scan: deskewing, smoothness,
    occlusion mask, [extractFeatures]. *)
Definition feature_extraction (projection : ProjectionOut) (s : State) : State :=
  let w := work s in
  let w0 := mkWork (out_segmented_cloud projection) (out_outlier_cloud projection)
              (out_seg_msg projection) (feat w) (laserCloudCornerLast w)
              (laserCloudSurfLast w) (hidden w) in
  let '(m1, w1) := adjustDistortion ext (imu s) w0 in
  let w2 := markOccludedPoints ext (calculateSmoothness ext w1) in
  let w3 := with_feat
              (extractFeatures (N_scan_fa ext) (edgeThreshold ext) (surfThreshold ext)
                 (sort_by_value ext) (downSizeFilter ext) (segInfo w2)
                 (segmentedCloud w2) (feat w2)) w2 in
  with_work w3 (with_imu m1 s).

(** The association half of a scan, run once the stage is initialized: the
    new state and what is sent out, in order. *)
Definition associate (s : State) : State * list Output :=
  let s := updateInitialGuess s in
  let s := updateTransformation s in
  let s := integrateTransformation s in
  let '(s, odometry) := publishOdometry s in
  let s := publishCloudsLast s in
  let cc := cycle_count s + 1 in
  if cc =? mappingFrequencyDivider ext then
    (mkState (solve s) (transformSum s) (systemInitedLM s)
       (laserCloudCornerLastNum s) (laserCloudSurfLastNum s) (frameCount s) 0
       (laserOdometry s) (imu s) (work s),
     [odometry;
      Send (mkAssociationOut (laserCloudCornerLast (work s))
              (laserCloudSurfLast (work s)) (outlierCloud (work s))
              (laserOdometry s))])
  else
    (mkState (solve s) (transformSum s) (systemInitedLM s)
       (laserCloudCornerLastNum s) (laserCloudSurfLastNum s) (frameCount s) cc
       (laserOdometry s) (imu s) (work s),
     [odometry]).

(** One turn of the loop of [runFeatureAssociation], for the bundle
    [projection] received from the projection stage. *)
Definition scan (projection : ProjectionOut) (s : State) : State * list Output :=
  let s := feature_extraction projection s in
  if negb (systemInitedLM s) then (checkSystemInitialization s, [])
  else associate s.

End ScanLoop.

Arguments mkWork {Hidden}.
Arguments segmentedCloud {Hidden}.
Arguments outlierCloud {Hidden}.
Arguments segInfo {Hidden}.
Arguments feat {Hidden}.
Arguments laserCloudCornerLast {Hidden}.
Arguments laserCloudSurfLast {Hidden}.
Arguments hidden {Hidden}.
Arguments mkState {Hidden}.
Arguments solve {Hidden}.
Arguments transformSum {Hidden}.
Arguments systemInitedLM {Hidden}.
Arguments laserCloudCornerLastNum {Hidden}.
Arguments laserCloudSurfLastNum {Hidden}.
Arguments frameCount {Hidden}.
Arguments cycle_count {Hidden}.
Arguments laserOdometry {Hidden}.
Arguments imu {Hidden}.
Arguments work {Hidden}.
Arguments mkExternals {Hidden}.
Arguments with_solve {Hidden}.
Arguments with_transformSum {Hidden}.
Arguments with_transformCur {Hidden}.
Arguments with_imu {Hidden}.
Arguments with_work {Hidden}.
Arguments checkSystemInitialization {Hidden}.
Arguments updateInitialGuess {Hidden}.
Arguments updateTransformation lm eg {Hidden}.
Arguments surf_iterations lm eg {Hidden}.
Arguments corner_iterations lm eg {Hidden}.
Arguments integrateTransformation lm {Hidden}.
Arguments publishOdometry {Hidden}.
Arguments publishCloudsLast {Hidden}.
Arguments feature_extraction {Hidden}.
Arguments associate lm eg {Hidden}.
Arguments scan lm eg {Hidden}.

End FeatureAssociation.

(** ** A reference libm and concrete scans

    The properties below hold for every [Libm].  To run the model on a
    concrete scan a libm is needed: this one uses short series, accurate to
    four digits or better on the arguments that occur, and follows the IEEE
    rules for NaN arguments. *)

Module Reference.

Local Open Scope float_scope.

(** Truncation toward zero; outside the range of [int], and for NaN, the
    value the x86 conversion instruction yields. *)
Definition trunc (x : float) : Z :=
  match Prim2SF x with
  | S754_finite sgn m e =>
      let v := (if (0 <=? e)%Z then Z.pos m * 2 ^ e else Z.pos m / 2 ^ (- e))%Z in
      let v := (if sgn then - v else v)%Z in
      if ((- 2 ^ 31 <=? v) && (v <? 2 ^ 31))%Z then v else (- 2 ^ 31)%Z
  | S754_zero _ => 0%Z
  | _ => (- 2 ^ 31)%Z
  end.

Definition round (x : float) : float :=
  if PrimFloat.ltb x 0 then - float_of_Z (trunc (0.5 - x))
  else if PrimFloat.leb 0 x then float_of_Z (trunc (x + 0.5))
  else x.

Definition sin (x : float) : float :=
  let x2 := x * x in
  x * (1 - x2 / 6 * (1 - x2 / 20 * (1 - x2 / 42 * (1 - x2 / 72 * (1 - x2 / 110))))).

Definition cos (x : float) : float :=
  let x2 := x * x in
  1 - x2 / 2 * (1 - x2 / 12 * (1 - x2 / 30 * (1 - x2 / 56 * (1 - x2 / 90)))).

Definition tan (x : float) : float := sin x / cos x.

(** Arc tangent on [-1, 1]. *)
Definition atan_unit (z : float) : float :=
  let z2 := z * z in
  z * (9998660 / 10000000
       + z2 * (- (3302995 / 10000000)
               + z2 * (1801410 / 10000000
                       + z2 * (- (851330 / 10000000) + z2 * (208351 / 10000000))))).

Definition atan2 (y x : float) : float :=
  if PrimFloat.leb (abs y) (abs x) then
    if PrimFloat.eqb x 0 then y
    else if PrimFloat.ltb 0 x then atan_unit (y / x)
    else if PrimFloat.ltb y 0 then atan_unit (y / x) - M_PI
    else atan_unit (y / x) + M_PI
  else if PrimFloat.ltb (abs x) (abs y) then
    if PrimFloat.ltb 0 y then M_PI_2 - atan_unit (x / y)
    else - M_PI_2 - atan_unit (x / y)
  else x + y.

Definition asin (x : float) : float := atan2 x (PrimFloat.sqrt (1 - x * x)).

Definition libm : Libm := mkLibm sin cos tan asin atan2 round trunc.

End Reference.

Module Examples.

Import ImageProjection.

Local Open Scope float_scope.

(** A scanner with two rings of eight columns; rows are 0.25 rad apart from
    -0.5 rad, the usual segmentation constants. *)
Definition cfg2x8 : Config :=
  mkConfig 2 8 (M_PI / 4) 0.25 0.5 1 0 (M_PI / 3) (M_PI / 4) 0.25 5 3.

(** Two returns from a flat floor ahead (column 6) and two from a wall to
    the side (column 4), one per ring. *)
Definition scan2x8 : list PointType :=
  [mkPoint 0 2.5 (-1) 0; mkPoint 0 6 (-1) 0;
   mkPoint 3 0 (-1.25) 0; mkPoint 3 0 (-0.375) 0].

(** A scanner with three rings of fourteen columns. *)
Definition cfg3x14 : Config :=
  mkConfig 3 14 (M_PI / 7) 0.25 0.5 1 0 (M_PI / 3) (M_PI / 7) 0.25 5 3.

(** The return at range 5 from the middle of the cell [(i, j)] of that
    scanner. *)
Definition return_at (i j : Z) : PointType :=
  let v := 0.25 * (float_of_Z i + 0.5) - 0.5 in
  let h := M_PI_2 - (float_of_Z j - 7) * (M_PI / 7) in
  let h := if PrimFloat.ltb M_PI h then h - 2 * M_PI else h in
  mkPoint (5 * Reference.cos v * Reference.sin h)
          (5 * Reference.cos v * Reference.cos h)
          (5 * Reference.sin v) 0.

(** A wall of 29 returns: one in cell (0, 0), fourteen on ring 1 and
    fourteen on ring 2.  The cluster spans three rings. *)
Definition wall29 : list PointType :=
  return_at 0 0 :: map (return_at 1) (upto 14) ++ map (return_at 2) (upto 14).

(** An eigen solver that is exact on diagonal matrices whose diagonal is
    increasing, the order in which [SelfAdjointEigenSolver] returns the
    eigenvalues: they are the diagonal, the eigenvectors are the identity,
    solving and inverting divide by the diagonal. *)
Definition diagonal_eigen : FeatureAssociation.EigenLib :=
  FeatureAssociation.mkEigenLib
    (fun m b => [FeatureAssociation.vget b 0 / FeatureAssociation.mget m 0 0;
                 FeatureAssociation.vget b 1 / FeatureAssociation.mget m 1 1;
                 FeatureAssociation.vget b 2 / FeatureAssociation.mget m 2 2])
    (fun m => [FeatureAssociation.mget m 0 0; FeatureAssociation.mget m 1 1;
               FeatureAssociation.mget m 2 2])
    (fun _ => [[1; 0; 0]; [0; 1; 0]; [0; 0; 1]])
    (fun m => [[1 / FeatureAssociation.mget m 0 0; 0; 0];
               [0; 1 / FeatureAssociation.mget m 1 1; 0];
               [0; 0; 1 / FeatureAssociation.mget m 2 2]]).

(** Residuals of a surface solve at [transformCur = 0] whose rows of [matA]
    are [1 0 0], [0 1 0] and [0 0 1]: the first constrains the rotation
    about x, the second the rotation about z, the third the translation
    along y. *)
Definition residual_rx : PointType * PointType := (mkPoint 0 (-1) 0 0, mkPoint 0 0 1 (-20)).
Definition residual_rz : PointType * PointType := (mkPoint 0 1 0 0, mkPoint 1 0 0 (-20)).
Definition residual_ty : PointType * PointType := (mkPoint 0 0 0 0, mkPoint 0 (-1) 0 (-20)).


(** Thirty-one residuals, twenty-eight of them on the translation:
    [matAtA] is the diagonal matrix of 1, 2 and 28. *)
Definition flat_residuals : list (PointType * PointType) :=
  residual_rx :: replicate 2 residual_rz ++ replicate 28 residual_ty.

Definition solve_of (residuals : list (PointType * PointType)) (degenerate : bool)
  : FeatureAssociation.Solve :=
  FeatureAssociation.mkSolve [0; 0; 0; 0; 0; 0] degenerate
    (map fst residuals) (map snd residuals).

Definition zero3 : FeatureAssociation.Mat := [[0; 0; 0]; [0; 0; 0]; [0; 0; 0]].

(** The quaternion of a roll, pitch and yaw, as [tf] builds it. *)
Definition quaternion_of_rpy (roll pitch yaw : float) : float * float * float * float :=
  let sr := Reference.sin (roll / 2) in
  let cr := Reference.cos (roll / 2) in
  let sp := Reference.sin (pitch / 2) in
  let cp := Reference.cos (pitch / 2) in
  let sy := Reference.sin (yaw / 2) in
  let cy := Reference.cos (yaw / 2) in
  (sr * cp * cy - cr * sp * sy, cr * sp * cy + sr * cp * sy,
   cr * cp * sy - sr * sp * cy, cr * cp * cy + sr * sp * sy).

(** Externals for a stage without IMU and without features: the deskewing
    and the masks change nothing, the searches find no correspondence. *)
Definition quiet : FeatureAssociation.Externals unit :=
  FeatureAssociation.mkExternals
    0.125 1 5 2 0.125 0.125
    (fun l => l) (fun l => l)
    (fun m w => (m, w)) (fun w => w) (fun w => w)
    (fun _ _ w => (w, [], [])) (fun _ _ w => (w, [], []))
    (fun _ _ _ p => p) (fun _ h => h) (fun _ _ h => h)
    quaternion_of_rpy (fun _ => zero3).

Definition no_features : FeatureAssociation.Features :=
  FeatureAssociation.mkFeatures [] [] [] [] [] [] [] [] [].

Definition empty_work : FeatureAssociation.Work unit :=
  FeatureAssociation.mkWork [] [] (mkCloudInfo 0 0 0 [] [] [] [] [])
    no_features [] [] tt.

Definition empty_projection : ProjectionOut :=
  mkProjectionOut [] [] (mkCloudInfo 0 0 0 [] [] [] [] []).

Definition imu_at (pitch : float) : FeatureAssociation.ImuScan :=
  FeatureAssociation.mkImuScan 0 pitch 0 0 0 0 0 0 0
    (0, 0, 0) (0, 0, 0) (0, 0, 0) (0, 0, 0) (0, 0, 0).

(** The stage on its first scan, the IMU reporting a pitch of 0.5 rad. *)
Definition first_scan_state : FeatureAssociation.State unit :=
  FeatureAssociation.mkState
    (FeatureAssociation.mkSolve [0; 0; 0; 0; 0; 0] false [] [])
    [0; 0; 0; 0; 0; 0] false 0 0 1 0
    (FeatureAssociation.mkOdometry (0, 0, 0, 1) (0, 0, 0)) (imu_at 0.5) empty_work.

(** The stage after a scan that estimated a step of one metre along x, with
    no point in the target clouds. *)
Definition moving_state : FeatureAssociation.State unit :=
  FeatureAssociation.mkState
    (FeatureAssociation.mkSolve [0; 0; 0; 1; 0; 0] false [] [])
    [0; 0; 0; 0; 0; 0] true 0 0 1 0
    (FeatureAssociation.mkOdometry (0, 0, 0, 1) (0, 0, 0)) (imu_at 0) empty_work.

(** A ring of 30 segmented points that lie 20 columns apart: the points
    below index 15 are smooth ground points, the others lie on edges.  The
    smoothness array is already in increasing order of curvature. *)
Definition ring30_info : cloud_info :=
  mkCloudInfo 0 0 0 [10%Z] [70%Z]
    (map (fun k : Z => (k <? 15)%Z) (FeatureAssociation.zrange 0 30))
    (map (fun k : Z => (20 * k)%Z) (FeatureAssociation.zrange 0 30))
    (replicate 30 1%float).

Definition ring30_cloud : list PointType :=
  map (fun k : Z => mkPoint (float_of_Z k) 0 0 0) (FeatureAssociation.zrange 0 30).

Definition ring30_curvature (k : Z) : float :=
  if (k <? 15)%Z then 0%float else 1%float.

Definition ring30_features : FeatureAssociation.Features :=
  FeatureAssociation.mkFeatures
    (map (fun k : Z => FeatureAssociation.mkSmoothness (ring30_curvature k) k)
       (FeatureAssociation.zrange 0 30))
    (map ring30_curvature (FeatureAssociation.zrange 0 30))
    (replicate 30 0%Z) (replicate 30 0%Z) [] [] [] [] [].

End Examples.

(** ** Further vocabulary of the projection stage *)

Module ImageProjectionVocabulary.

Import ImageProjection.

Section Cells.

Context (cfg : Config).

(** What [lineCountFlag[r]] holds when the search of [labelComponents] is
    over: row [r] has a cell of the cluster that was pushed as a neighbour,
    that is, a cell other than the seed. *)
Definition row_flagged (seed : Coord2D) (cluster : list Coord2D) (r : Z) : bool :=
  existsb (fun c => negb (bool_decide (c = seed)) && (c.1 =? r)) cluster.

(** The value of the local [lineCount]. *)
Definition rows_flagged (seed : Coord2D) (cluster : list Coord2D) : Z :=
  Z.of_nat (length (filter (fun r => Is_true (row_flagged seed cluster r))
                      (upto (N_scan cfg)))).

(** The test [feasibleSegment] on the cells of [all_pushed]. *)
Definition accepted (seed : Coord2D) (cluster : list Coord2D) : bool :=
  if (30 <=? length cluster)%nat then true
  else if (segmentValidPointNum cfg <=? length cluster)%nat
       then rows_flagged seed cluster >=? segmentValidLineNum cfg
       else false.

(** The members a scan fills before the ground is looked for. *)
Definition same_images (s s' : State) : Prop :=
  laser_cloud_in s' = laser_cloud_in s /\ full_cloud s' = full_cloud s
  /\ full_info_cloud s' = full_info_cloud s /\ range_mat s' = range_mat s.

(** The range image and the two full clouds agree on the cell [c]: either no
    return was stored in it, or the two clouds hold the coordinates of one
    point [p0] of the incoming cloud, and the intensity of the point in
    [_full_info_cloud] is the very value stored in [_range_mat], which passed
    the test [range < 0.1].  The predicate speaks of what is stored where,
    not of the value a range or a tag is rounded to. *)
Definition cell_consistent (s : State) (c : Coord2D) : Prop :=
  let k := cellZ cfg c.1 c.2 in
  let r := nth_def 0%float (range_mat s) k in
  let p := nth_def PointXYZI_default (full_cloud s) k in
  let q := nth_def PointXYZI_default (full_info_cloud s) k in
  (r = FLT_MAX /\ p = nanPoint /\ q = nanPoint)
  \/ exists p0,
       p0 ∈ laser_cloud_in s
       /\ (px p, py p, pz p) = (px p0, py p0, pz p0)
       /\ q = mkPoint (px p0) (py p0) (pz p0) r
       /\ PrimFloat.ltb r 0x1.999999999999ap-4 = false.

(** The sizes of the three images. *)
Definition image_sizes (s : State) : Prop :=
  length (range_mat s) = cloud_size cfg /\ length (full_cloud s) = cloud_size cfg
  /\ length (full_info_cloud s) = cloud_size cfg.

(** What the ground removal and the labeling read and do not write. *)
Definition same_inputs (s s' : State) : Prop :=
  laser_cloud_in s' = laser_cloud_in s /\ full_cloud s' = full_cloud s
  /\ full_info_cloud s' = full_info_cloud s /\ range_mat s' = range_mat s
  /\ seg_msg s' = seg_msg s /\ segmented_cloud s' = segmented_cloud s
  /\ outlier_cloud s' = outlier_cloud s.

Definition same_ground (s s' : State) : Prop := ground_mat s' = ground_mat s.

(** A ground matrix has its size, holds the three values of the ground
    test, and marks no cell of a row above [groundScanInd]. *)
Definition ground_ok (m : list Z) : Prop :=
  length m = cloud_size cfg
  /\ forall c, in_image cfg c ->
       let g := mat_get cfg 0 m c.1 c.2 in
       (g = 0 \/ g = 1 \/ g = -1) /\ (g <> 0 -> c.1 <= Z.of_nat (groundScanInd cfg)).

(** The cells the extraction loop of [cloudSegmentation] pushes to the
    segmented cloud, in the order of the loop: ring by ring, by increasing
    column. *)
Definition row_cells (s : State) (i : Z) : list Coord2D :=
  map (pair i) (filter (fun j => Is_true (emits cfg s i j)) (upto (horizon_scan cfg))).

Definition emitted_cells (s : State) : list Coord2D :=
  flat_map (row_cells s) (upto (N_scan cfg)).

(** The cells the same loop pushes to the outlier cloud: cells of a
    rejected cluster, above the ground rings, every fifth column. *)
Definition outlier_cell (s : State) (i j : Z) : bool :=
  (mat_get cfg 0 (label_mat s) i j =? 999999)
  && ((i >? Z.of_nat (groundScanInd cfg)) && (j mod 5 =? 0)).

Definition outlier_row (s : State) (i : Z) : list Coord2D :=
  map (pair i) (filter (fun j => Is_true (outlier_cell s i j)) (upto (horizon_scan cfg))).

Definition outlier_cells (s : State) : list Coord2D :=
  flat_map (outlier_row s) (upto (N_scan cfg)).

(** The content of a cell in the full cloud. *)
Definition cell_point (s : State) (c : Coord2D) : PointType :=
  nth_def PointXYZI_default (full_cloud s) (cellZ cfg c.1 c.2).

(** The state of the extraction loop after the cells [cells] were pushed,
    out of at most [n] cells visited. *)
Definition seg_ok (s : State) (n : Z) (e : Emit) (cells : list Coord2D) : Prop :=
  sizeOfSegCloud e = Z.of_nat (length cells)
  /\ Z.of_nat (length cells) <= n
  /\ length (segmentedCloudColInd (e_msg e)) = cloud_size cfg
  /\ length (segmentedCloudRange (e_msg e)) = cloud_size cfg
  /\ length (segmentedCloudGroundFlag (e_msg e)) = cloud_size cfg
  /\ e_segmented e = map (cell_point s) cells
  /\ take (length cells) (segmentedCloudColInd (e_msg e)) = map snd cells
  /\ take (length cells) (segmentedCloudRange (e_msg e))
     = map (fun c => mat_get cfg 0%float (range_mat s) c.1 c.2) cells
  /\ take (length cells) (segmentedCloudGroundFlag (e_msg e))
     = map (fun c => mat_get cfg 0 (ground_mat s) c.1 c.2 =? 1) cells.

End Cells.

End ImageProjectionVocabulary.

(** ** featureAssociation.cpp: the stages before [extractFeatures]

    [calculateSmoothness], [markOccludedPoints], [imuHandler] and
    [adjustDistortion], which the scan loop above takes as parameters, here
    as the source has them. *)

Module FeatureAssociationStages.

Import ImageProjection FeatureAssociation.

(** *** calculateSmoothness and markOccludedPoints *)

Section Arrays.

(** The message of the scan and [segmentedCloud->points.size()], an [int]. *)
Context (segInfo : cloud_info) (cloudSize : Z).

Definition range_at (k : Z) : float := zget 0%float (segmentedCloudRange segInfo) k.
Definition column_at (k : Z) : Z := zget 0 (segmentedCloudColInd segInfo) k.

(** [diffRange] for the point [i]. *)
Definition diffRange (i : Z) : float :=
  (range_at (i - 5) + range_at (i - 4) + range_at (i - 3) + range_at (i - 2)
   + range_at (i - 1) - range_at i * 10 + range_at (i + 1) + range_at (i + 2)
   + range_at (i + 3) + range_at (i + 4) + range_at (i + 5))%float.

(** The body of the loop of [calculateSmoothness]; [cloudSmoothness[i].value]
    is read back from [cloudCurvature[i]]. *)
Definition smooth_point (i : Z) (f : Features) : Features :=
  let curvature := zset (cloudCurvature f) i (diffRange i * diffRange i)%float in
  mkFeatures
    (zset (cloudSmoothness f) i (mkSmoothness (zget 0%float curvature i) i))
    curvature
    (zset (cloudNeighborPicked f) i 0)
    (zset (cloudLabel f) i 0)
    (cornerPointsSharp f) (cornerPointsLessSharp f) (surfPointsFlat f)
    (surfPointsLessFlat f) (surfPointsLessFlatScan f).

Definition calculateSmoothness (f : Features) : Features :=
  for_each (zrange 5 (cloudSize - 5)) smooth_point f.

(** [cloudNeighborPicked[k] = 1] for each [k] of [ks]. *)
Definition set_picked (ks : list Z) (picked : list Z) : list Z :=
  for_each ks (fun k p => zset p k 1) picked.

(** The body of the loop of [markOccludedPoints]. *)
Definition occlusion_at (i : Z) (picked : list Z) : list Z :=
  let depth1 := range_at i in
  let depth2 := range_at (i + 1) in
  let picked :=
    if columnDiff (column_at (i + 1)) (column_at i) <? 10 then
      if PrimFloat.ltb 0x1.3333333333333p-2 (* 0.3 *) (depth1 - depth2) then
        set_picked [i - 5; i - 4; i - 3; i - 2; i - 1; i] picked
      else if PrimFloat.ltb 0x1.3333333333333p-2 (depth2 - depth1) then
        set_picked [i + 1; i + 2; i + 3; i + 4; i + 5; i + 6] picked
      else picked
    else picked in
  let diff1 := PrimFloat.abs (range_at (i - 1) - range_at i) in
  let diff2 := PrimFloat.abs (range_at (i + 1) - range_at i) in
  if PrimFloat.ltb (0x1.47ae147ae147bp-6 (* 0.02 *) * range_at i) diff1
     && PrimFloat.ltb (0x1.47ae147ae147bp-6 * range_at i) diff2
  then zset picked i 1
  else picked.

Definition markOccludedPoints (f : Features) : Features :=
  with_cloudNeighborPicked
    (for_each (zrange 5 (cloudSize - 6)) occlusion_at (cloudNeighborPicked f)) f.

End Arrays.

(** The feature arrays as [initializationValue] sizes them: [resize] fills
    them with zeros. *)
Definition initial_features (cloud_size : nat) : Features :=
  mkFeatures (replicate cloud_size (mkSmoothness 0 0)) (replicate cloud_size 0%float)
    (replicate cloud_size 0) (replicate cloud_size 0) [] [] [] [] [].

(** *** The IMU queue *)

(** [Eigen::Vector3f] arithmetic. *)
Definition vadd (a b : Vector3) : Vector3 :=
  (vx a + vx b, vy a + vy b, vz a + vz b)%float.
Definition vsub (a b : Vector3) : Vector3 :=
  (vx a - vx b, vy a - vy b, vz a - vz b)%float.
Definition vscale (a : Vector3) (k : float) : Vector3 :=
  (vx a * k, vy a * k, vz a * k)%float.
Definition vdiv (a : Vector3) (k : float) : Vector3 :=
  (vx a / k, vy a / k, vz a / k)%float.
Definition vzero : Vector3 := (0, 0, 0)%float.

(** The ring buffer that [imuHandler] fills. *)
Record ImuQueue : Type := mkImuQueue {
  imuPointerLast : Z;
  imuTime : list float;
  imuRoll : list float;
  imuPitch : list float;
  imuYaw : list float;
  imuAcc : list Vector3;
  imuVelo : list Vector3;
  imuShift : list Vector3;
  imuAngularVelo : list Vector3;
  imuAngularRotation : list Vector3
}.

(** [sensor_msgs::Imu]. *)
Record ImuMsg : Type := mkImuMsg {
  stamp : float;
  msg_orientation : float * float * float * float;
  linear_acceleration : Vector3;
  angular_velocity : Vector3
}.

Section Queue.

(** The length of the buffer and the period of a scan, constants of the
    repository's headers; [tf::Matrix3x3::getRPY]. *)
Context (lm : Libm) (imuQueLength : Z) (scanPeriod : float)
        (getRPY : float * float * float * float -> float * float * float).

Definition initial_queue : ImuQueue :=
  let n := Z.to_nat imuQueLength in
  mkImuQueue (-1) (replicate n 0%float) (replicate n 0%float) (replicate n 0%float)
    (replicate n 0%float) (replicate n vzero) (replicate n vzero) (replicate n vzero)
    (replicate n vzero) (replicate n vzero).

Definition AccumulateIMUShiftAndRotation (q : ImuQueue) : ImuQueue :=
  let last := imuPointerLast q in
  let roll := zget 0%float (imuRoll q) last in
  let pitch := zget 0%float (imuPitch q) last in
  let yaw := zget 0%float (imuYaw q) last in
  let acc := zget vzero (imuAcc q) last in
  let x1 := (cos lm roll * vx acc - sin lm roll * vy acc)%float in
  let y1 := (sin lm roll * vx acc + cos lm roll * vy acc)%float in
  let z1 := vz acc in
  let x2 := x1 in
  let y2 := (cos lm pitch * y1 - sin lm pitch * z1)%float in
  let z2 := (sin lm pitch * y1 + cos lm pitch * z1)%float in
  let acc : Vector3 :=
    ((cos lm yaw * x2 + sin lm yaw * z2)%float, y2,
     (- sin lm yaw * x2 + cos lm yaw * z2)%float) in
  let imuPointerBack := Z.rem (last + imuQueLength - 1) imuQueLength in
  let timeDiff :=
    (zget 0%float (imuTime q) last - zget 0%float (imuTime q) imuPointerBack)%float in
  if PrimFloat.ltb timeDiff scanPeriod then
    mkImuQueue last (imuTime q) (imuRoll q) (imuPitch q) (imuYaw q) (imuAcc q)
      (zset (imuVelo q) last
         (vadd (zget vzero (imuVelo q) imuPointerBack) (vscale acc timeDiff)))
      (zset (imuShift q) last
         (vadd (vadd (zget vzero (imuShift q) imuPointerBack)
                  (vscale (zget vzero (imuVelo q) imuPointerBack) timeDiff))
            (vdiv (vscale (vscale acc timeDiff) timeDiff) 2)))
      (imuAngularVelo q)
      (zset (imuAngularRotation q) last
         (vadd (zget vzero (imuAngularRotation q) imuPointerBack)
            (vscale (zget vzero (imuAngularVelo q) imuPointerBack) timeDiff)))
  else q.

Definition imuHandler (imuIn : ImuMsg) (q : ImuQueue) : ImuQueue :=
  let '(roll, pitch, yaw) := getRPY (msg_orientation imuIn) in
  let accX := (vy (linear_acceleration imuIn)
               - sin lm roll * cos lm pitch * 0x1.39eb851eb851fp+3 (* 9.81 *))%float in
  let accY := (vz (linear_acceleration imuIn)
               - cos lm roll * cos lm pitch * 0x1.39eb851eb851fp+3)%float in
  let accZ := (vx (linear_acceleration imuIn)
               + sin lm pitch * 0x1.39eb851eb851fp+3)%float in
  let last := Z.rem (imuPointerLast q + 1) imuQueLength in
  AccumulateIMUShiftAndRotation
    (mkImuQueue last
       (zset (imuTime q) last (stamp imuIn))
       (zset (imuRoll q) last roll)
       (zset (imuPitch q) last pitch)
       (zset (imuYaw q) last yaw)
       (zset (imuAcc q) last (accX, accY, accZ))
       (imuVelo q) (imuShift q)
       (zset (imuAngularVelo q) last (angular_velocity imuIn))
       (imuAngularRotation q)).

End Queue.

(** *** adjustDistortion *)

(** The cached sines and cosines of the start attitude. *)
Record ImuSinCos : Type := mkImuSinCos {
  cosImuRollStart : float;
  cosImuPitchStart : float;
  cosImuYawStart : float;
  sinImuRollStart : float;
  sinImuPitchStart : float;
  sinImuYawStart : float
}.

(** The other members [adjustDistortion] writes besides those of
    [ImuScan]. *)
Record ImuTrack : Type := mkImuTrack {
  imuPointerFront : Z;
  imuPointerLastIteration : Z;
  imuVeloStart : Vector3;
  imuShiftStart : Vector3;
  imuVeloCur : Vector3;
  imuShiftCur : Vector3;
  imuAngularRotationCur : Vector3;
  imuAngularRotationLast : Vector3
}.

(** The state the loop of [adjustDistortion] threads: the local
    [halfPassed] and the members. *)
Record Deskew : Type := mkDeskew {
  halfPassed : bool;
  track : ImuTrack;
  sincos : ImuSinCos;
  scan_imu : ImuScan
}.

Section Distortion.

Context (lm : Libm) (imuQueLength : Z) (scanPeriod : float).

(** The IMU queue (the handler is locked out while a scan is processed),
    the message of the scan and [timeScanCur]. *)
Context (q : ImuQueue) (segInfo : cloud_info) (timeScanCur : float).

Definition updateImuRollPitchYawStartSinCos (m : ImuScan) : ImuSinCos :=
  mkImuSinCos (cos lm (imuRollStart m)) (cos lm (imuPitchStart m))
    (cos lm (imuYawStart m)) (sin lm (imuRollStart m)) (sin lm (imuPitchStart m))
    (sin lm (imuYawStart m)).

(** The rotation of a shift or of a velocity into the start frame, shared
    by [ShiftToStartIMU] and [VeloToStartIMU]. *)
Definition to_start (sc : ImuSinCos) (v : Vector3) : Vector3 :=
  let x1 := (cosImuYawStart sc * vx v - sinImuYawStart sc * vz v)%float in
  let y1 := vy v in
  let z1 := (sinImuYawStart sc * vx v + cosImuYawStart sc * vz v)%float in
  let x2 := x1 in
  let y2 := (cosImuPitchStart sc * y1 + sinImuPitchStart sc * z1)%float in
  let z2 := (- sinImuPitchStart sc * y1 + cosImuPitchStart sc * z1)%float in
  ((cosImuRollStart sc * x2 + sinImuRollStart sc * y2)%float,
   (- sinImuRollStart sc * x2 + cosImuRollStart sc * y2)%float,
   z2).

(** [ShiftToStartIMU]: the new value of [imuShiftFromStartCur].  No function
    of the file calls it. *)
Definition ShiftToStartIMU (pointTime : float) (t : ImuTrack) (sc : ImuSinCos) : Vector3 :=
  to_start sc
    (vsub (vsub (imuShiftCur t) (imuShiftStart t)) (vscale (imuVeloStart t) pointTime)).

(** [VeloToStartIMU]: the new value of [imuVeloFromStartCur]. *)
Definition VeloToStartIMU (t : ImuTrack) (sc : ImuSinCos) : Vector3 :=
  to_start sc (vsub (imuVeloCur t) (imuVeloStart t)).

Definition TransformToStartIMU (sc : ImuSinCos) (m : ImuScan) (p : PointType) : PointType :=
  let x1 := (cos lm (imuRollCur m) * px p - sin lm (imuRollCur m) * py p)%float in
  let y1 := (sin lm (imuRollCur m) * px p + cos lm (imuRollCur m) * py p)%float in
  let z1 := pz p in
  let x2 := x1 in
  let y2 := (cos lm (imuPitchCur m) * y1 - sin lm (imuPitchCur m) * z1)%float in
  let z2 := (sin lm (imuPitchCur m) * y1 + cos lm (imuPitchCur m) * z1)%float in
  let x3 := (cos lm (imuYawCur m) * x2 + sin lm (imuYawCur m) * z2)%float in
  let y3 := y2 in
  let z3 := (- sin lm (imuYawCur m) * x2 + cos lm (imuYawCur m) * z2)%float in
  let x4 := (cosImuYawStart sc * x3 - sinImuYawStart sc * z3)%float in
  let y4 := y3 in
  let z4 := (sinImuYawStart sc * x3 + cosImuYawStart sc * z3)%float in
  let x5 := x4 in
  let y5 := (cosImuPitchStart sc * y4 + sinImuPitchStart sc * z4)%float in
  let z5 := (- sinImuPitchStart sc * y4 + cosImuPitchStart sc * z4)%float in
  mkPoint
    (cosImuRollStart sc * x5 + sinImuRollStart sc * y5 + vx (imuShiftFromStartCur m))%float
    (- sinImuRollStart sc * x5 + cosImuRollStart sc * y5 + vy (imuShiftFromStartCur m))%float
    (z5 + vz (imuShiftFromStartCur m))%float
    (intensity p).

(** [while (imuPointerFront != imuPointerLast)]: the search for the first
    IMU sample not older than the point, bounded by [fuel] turns. *)
Fixpoint find_front (fuel : nat) (t : float) (front : Z) : option Z :=
  if front =? imuPointerLast q then Some front
  else if PrimFloat.ltb t (zget 0%float (imuTime q) front) then Some front
  else match fuel with
       | O => None
       | S fuel' => find_front fuel' t (Z.rem (front + 1) imuQueLength)
       end.

Definition time_at (k : Z) : float := zget 0%float (imuTime q) k.

(** [ratioFront] and [ratioBack] for the point time [pointTime]. *)
Definition ratioFront (pointTime : float) (front back : Z) : float :=
  ((timeScanCur + pointTime - time_at back) / (time_at front - time_at back))%float.
Definition ratioBack (pointTime : float) (front back : Z) : float :=
  ((time_at front - timeScanCur - pointTime) / (time_at front - time_at back))%float.

(** The orientation of a point with coordinates [x] and [z] (after the
    change of axes) and the new value of [halfPassed]. *)
Definition point_orientation (x z : float) (half : bool) : float * bool :=
  let ori := (- atan2 lm x z)%float in
  if negb half then
    let ori :=
      if PrimFloat.ltb ori (startOrientation segInfo - M_PI / 2) then (ori + 2 * M_PI)%float
      else if PrimFloat.ltb (startOrientation segInfo + M_PI * 3 / 2) ori
           then (ori - 2 * M_PI)%float
           else ori in
    (ori, PrimFloat.ltb M_PI (ori - startOrientation segInfo))
  else
    let ori := (ori + 2 * M_PI)%float in
    let ori :=
      if PrimFloat.ltb ori (endOrientation segInfo - M_PI * 3 / 2) then (ori + 2 * M_PI)%float
      else if PrimFloat.ltb (endOrientation segInfo + M_PI / 2) ori
           then (ori - 2 * M_PI)%float
           else ori in
    (ori, true).

(** The values of the IMU at the time of a point, given the sample [front]
    the search stopped at: roll, pitch, yaw, velocity, shift. *)
Definition imu_at_time (pointTime : float) (front : Z)
  : float * float * float * Vector3 * Vector3 :=
  if PrimFloat.ltb (time_at front) (timeScanCur + pointTime) then
    (zget 0%float (imuRoll q) front, zget 0%float (imuPitch q) front,
     zget 0%float (imuYaw q) front, zget vzero (imuVelo q) front,
     zget vzero (imuShift q) front)
  else
    let back := Z.rem (front + imuQueLength - 1) imuQueLength in
    let rf := ratioFront pointTime front back in
    let rb := ratioBack pointTime front back in
    let yf := zget 0%float (imuYaw q) front in
    let yb := zget 0%float (imuYaw q) back in
    ((zget 0%float (imuRoll q) front * rf + zget 0%float (imuRoll q) back * rb)%float,
     (zget 0%float (imuPitch q) front * rf + zget 0%float (imuPitch q) back * rb)%float,
     (if PrimFloat.ltb M_PI (yf - yb) then yf * rf + (yb + 2 * M_PI) * rb
      else if PrimFloat.ltb (yf - yb) (- M_PI) then yf * rf + (yb - 2 * M_PI) * rb
      else yf * rf + yb * rb)%float,
     vadd (vscale (zget vzero (imuVelo q) front) rf)
          (vscale (zget vzero (imuVelo q) back) rb),
     vadd (vscale (zget vzero (imuShift q) front) rf)
          (vscale (zget vzero (imuShift q) back) rb)).

(** The same for [imuAngularRotation], read for the first point only. *)
Definition angular_at_time (pointTime : float) (front : Z) : Vector3 :=
  if PrimFloat.ltb (time_at front) (timeScanCur + pointTime) then
    zget vzero (imuAngularRotation q) front
  else
    let back := Z.rem (front + imuQueLength - 1) imuQueLength in
    vadd (vscale (zget vzero (imuAngularRotation q) front)
            (ratioFront pointTime front back))
         (vscale (zget vzero (imuAngularRotation q) back)
            (ratioBack pointTime front back)).

(** The body of the loop of [adjustDistortion] for the point of index [i]:
    the new state and the new point, if the search returns. *)
Definition adjust_point (i : Z) (p : PointType) (st : Deskew)
  : option (Deskew * PointType) :=
  let '(ori, half) := point_orientation (py p) (px p) (halfPassed st) in
  let relTime := ((ori - startOrientation segInfo) / orientationDiff segInfo)%float in
  let point :=
    mkPoint (py p) (pz p) (px p)
      (float_of_Z (to_int lm (intensity p)) + scanPeriod * relTime)%float in
  if imuPointerLast q >=? 0 then
    let pointTime := (relTime * scanPeriod)%float in
    match find_front (Z.to_nat imuQueLength) (timeScanCur + pointTime)%float
            (imuPointerLastIteration (track st)) with
    | None => None
    | Some front =>
        let '(roll, pitch, yaw, velo, shift) := imu_at_time pointTime front in
        let m := scan_imu st in
        let tr := track st in
        if i =? 0 then
          let cur := angular_at_time pointTime front in
          let m :=
            mkImuScan roll pitch yaw roll pitch yaw
              (imuRollLast m) (imuPitchLast m) (imuYawLast m) (imuShiftFromStartCur m)
              (imuVeloFromStartCur m) (imuShiftFromStart m) (imuVeloFromStart m)
              (vsub cur (imuAngularRotationLast tr)) in
          Some (mkDeskew half
                  (mkImuTrack front (imuPointerLastIteration tr) velo shift velo shift
                     cur cur)
                  (updateImuRollPitchYawStartSinCos m) m,
                point)
        else
          let tr := mkImuTrack front (imuPointerLastIteration tr) (imuVeloStart tr)
                      (imuShiftStart tr) velo shift (imuAngularRotationCur tr)
                      (imuAngularRotationLast tr) in
          let m :=
            mkImuScan (imuRollStart m) (imuPitchStart m) (imuYawStart m)
              roll pitch yaw
              (imuRollLast m) (imuPitchLast m) (imuYawLast m) (imuShiftFromStartCur m)
              (VeloToStartIMU tr (sincos st)) (imuShiftFromStart m)
              (imuVeloFromStart m) (imuAngularFromStart m) in
          Some (mkDeskew half tr (sincos st) m, TransformToStartIMU (sincos st) m point)
    end
  else Some (mkDeskew half (track st) (sincos st) (scan_imu st), point).

(** [for (int i = 0; i < cloudSize; i++)] from the index [i] on. *)
Fixpoint adjust_points (i : Z) (cloud : list PointType) (st : Deskew)
  : option (Deskew * list PointType) :=
  match cloud with
  | [] => Some (st, [])
  | p :: rest =>
      match adjust_point i p st with
      | None => None
      | Some (st1, point) =>
          match adjust_points (i + 1) rest st1 with
          | None => None
          | Some (st2, points) => Some (st2, point :: points)
          end
      end
  end.

(** [adjustDistortion]: members and cloud after the call. *)
Definition adjustDistortion (tr : ImuTrack) (sc : ImuSinCos) (m : ImuScan)
    (segmentedCloud : list PointType)
  : option (ImuTrack * ImuSinCos * ImuScan * list PointType) :=
  match adjust_points 0 segmentedCloud (mkDeskew false tr sc m) with
  | None => None
  | Some (st, cloud) =>
      let t := track st in
      Some (mkImuTrack (imuPointerFront t) (imuPointerLast q) (imuVeloStart t)
              (imuShiftStart t) (imuVeloCur t) (imuShiftCur t)
              (imuAngularRotationCur t) (imuAngularRotationLast t),
            sincos st, scan_imu st, cloud)
  end.

End Distortion.

End FeatureAssociationStages.

(** ** Further vocabulary of the association stage *)

Module FeatureAssociationVocabulary.

Import ImageProjection FeatureAssociation.

(** What a number [m] of sectors can have put into the feature clouds. *)
Definition within (m : Z) (f : Features) : Prop :=
  features_wf f
  /\ sublist (cornerPointsSharp f) (cornerPointsLessSharp f)
  /\ Z.of_nat (length (cornerPointsSharp f)) <= 2 * m
  /\ Z.of_nat (length (cornerPointsLessSharp f)) <= 20 * m
  /\ Z.of_nat (length (surfPointsFlat f)) <= 4 * m.

(** The flag, the counter of the mapping bundles and the last odometry
    message of the stage. *)
Definition same_bookkeeping {Hidden : Type} (s s' : State Hidden) : Prop :=
  systemInitedLM s' = systemInitedLM s /\ cycle_count s' = cycle_count s
  /\ laserOdometry s' = laserOdometry s.

(** The feature arrays are well formed and have [n] entries. *)
Definition arrays_ok (n : nat) (f : Features) : Prop :=
  features_wf f /\ length (cloudLabel f) = n /\ length (cloudCurvature f) = n
  /\ length (cloudSmoothness f) = n.

(** What the arrays hold for the point [k]. *)
Definition entry (f : Features) (k : Z) : smoothness_t * float * Z * Z :=
  (zget (mkSmoothness 0 0) (cloudSmoothness f) k, zget 0%float (cloudCurvature f) k,
   picked_at f k, label_of f k).

(** The feature clouds. *)
Definition clouds (f : Features)
  : list PointType * list PointType * list PointType * list PointType * list PointType :=
  (cornerPointsSharp f, cornerPointsLessSharp f, surfPointsFlat f,
   surfPointsLessFlat f, surfPointsLessFlatScan f).

Import FeatureAssociationStages.

(** Every array of the IMU queue has [n] slots. *)
Definition queue_sized (n : Z) (q : ImuQueue) : Prop :=
  Z.of_nat (length (imuTime q)) = n /\ Z.of_nat (length (imuRoll q)) = n
  /\ Z.of_nat (length (imuPitch q)) = n /\ Z.of_nat (length (imuYaw q)) = n
  /\ Z.of_nat (length (imuAcc q)) = n /\ Z.of_nat (length (imuVelo q)) = n
  /\ Z.of_nat (length (imuShift q)) = n /\ Z.of_nat (length (imuAngularVelo q)) = n
  /\ Z.of_nat (length (imuAngularRotation q)) = n.

(** The slot [k] of the queue. *)
Definition slot (q : ImuQueue) (k : Z)
  : float * float * float * float * Vector3 * Vector3 * Vector3 * Vector3 * Vector3 :=
  (zget 0%float (imuTime q) k, zget 0%float (imuRoll q) k, zget 0%float (imuPitch q) k,
   zget 0%float (imuYaw q) k, zget vzero (imuAcc q) k, zget vzero (imuVelo q) k,
   zget vzero (imuShift q) k, zget vzero (imuAngularVelo q) k,
   zget vzero (imuAngularRotation q) k).

(** The members of [ImuScan] that [adjustDistortion] has no assignment
    to. *)
Definition deskew_keeps (m m' : ImuScan) : Prop :=
  imuShiftFromStartCur m' = imuShiftFromStartCur m
  /\ imuShiftFromStart m' = imuShiftFromStart m
  /\ imuVeloFromStart m' = imuVeloFromStart m
  /\ imuRollLast m' = imuRollLast m /\ imuPitchLast m' = imuPitchLast m
  /\ imuYawLast m' = imuYawLast m.

(** The change of axes at the head of the loop of [adjustDistortion]. *)
Definition axes_renamed (p p' : PointType) : Prop :=
  px p' = py p /\ py p' = pz p /\ pz p' = px p.

(** What a list of outputs holds for the odometry topic, and what it holds
    for the channel to the mapping stage. *)
Definition odometry_messages (l : list Output) : list Odometry :=
  omap (fun o => match o with PublishOdometry m => Some m | Send _ => None end) l.
Definition bundles (l : list Output) : list AssociationOut :=
  omap (fun o => match o with Send b => Some b | PublishOdometry _ => None end) l.

(** The distance from [front] to [last] going forward around a ring of [n]
    slots. *)
Definition ring_distance (n front last : Z) : Z :=
  if front <=? last then last - front else last - front + n.

End FeatureAssociationVocabulary.

(** ** The calls of the solver in a run of [updateTransformation]

    The two loops of [updateTransformation] again, with a record of every
    call of [calculateTransformationSurf] and [calculateTransformationCorner]
    they make. *)

Module SolveCalls.

Import ImageProjection FeatureAssociation.

(** [matX] as the QR solve returns it, before the test [if (isDegenerate)]. *)
Definition least_squares (eg : EigenLib) (rows : list (Vec * float)) : Vec :=
  colPivHouseholderQr_solve eg (AtA (map fst rows)) (AtB (map fst rows) (map snd rows)).

(** One call of a solve: [iterCount]; the member [isDegenerate] and the
    local [matP] as the test [if (isDegenerate)] finds them; [matX] before
    that test and [matX] as it is added to [transformCur]. *)
Record SolveCall : Type := mkSolveCall {
  call_iter : Z;
  call_degenerate : bool;
  call_matP : Mat;
  call_x : Vec;
  call_update : Vec
}.

Definition solve_call (eg : EigenLib) (iterCount : Z) (matP0 : Mat) (degenerate0 : bool)
    (rows : list (Vec * float)) : SolveCall :=
  let '(degenerate, matP) :=
    if iterCount =? 0 then degeneracy_check eg (AtA (map fst rows))
    else (degenerate0, matP0) in
  mkSolveCall iterCount degenerate matP (least_squares eg rows)
    (snd (solve_update eg iterCount matP0 degenerate0 rows)).

Section Loops.

Context (lm : Libm) (eg : EigenLib) {Hidden : Type} (ext : Externals Hidden).

(** [surf_iterations], with the calls it makes. *)
Fixpoint surf_iterations_log (iters : list Z) (w : Work Hidden) (sv : Solve)
  : Work Hidden * Solve * list SolveCall :=
  match iters with
  | [] => (w, sv, [])
  | iterCount1 :: rest =>
      let '(w1, ori, coeff) :=
        findCorrespondingSurfFeatures _ ext iterCount1 (transformCur sv) w in
      let sv1 := mkSolve (transformCur sv) (isDegenerate sv) ori coeff in
      if (length ori <? 10)%nat then surf_iterations_log rest w1 sv1
      else
        let c := solve_call eg iterCount1 (matP_garbage _ ext iterCount1)
                   (isDegenerate sv1)
                   (zip_with (surf_row lm (transformCur sv1)) ori coeff) in
        let '(sv2, again) :=
          calculateTransformationSurf lm eg iterCount1
            (matP_garbage _ ext iterCount1) sv1 in
        if again
        then let '(w3, sv3, cs) := surf_iterations_log rest w1 sv2 in (w3, sv3, c :: cs)
        else (w1, sv2, [c])
  end.

(** [corner_iterations], with the calls it makes. *)
Fixpoint corner_iterations_log (iters : list Z) (w : Work Hidden) (sv : Solve)
  : Work Hidden * Solve * list SolveCall :=
  match iters with
  | [] => (w, sv, [])
  | iterCount2 :: rest =>
      let '(w1, ori, coeff) :=
        findCorrespondingCornerFeatures _ ext iterCount2 (transformCur sv) w in
      let sv1 := mkSolve (transformCur sv) (isDegenerate sv) ori coeff in
      if (length ori <? 10)%nat then corner_iterations_log rest w1 sv1
      else
        let c := solve_call eg iterCount2 (matP_garbage _ ext (25 + iterCount2))
                   (isDegenerate sv1)
                   (zip_with (corner_row lm (transformCur sv1)) ori coeff) in
        let '(sv2, again) :=
          calculateTransformationCorner lm eg iterCount2
            (matP_garbage _ ext (25 + iterCount2)) sv1 in
        if again
        then let '(w3, sv3, cs) := corner_iterations_log rest w1 sv2 in (w3, sv3, c :: cs)
        else (w1, sv2, [c])
  end.

End Loops.





End SolveCalls.

(** ** Further concrete inputs *)

Module Scenarios.

Import ImageProjection Examples.

(** The state in which [cloudSegmentation] finds the wall [wall29]: after
    the projection and the ground removal. *)
Definition wall29_projected : State :=
  groundRemoval cfg3x14 Reference.libm
    (projectPointCloud cfg3x14 Reference.libm
       (default (initial_state cfg3x14)
          (findStartEndAngle Reference.libm
             (with_laser_cloud_in (removeNaNFromPointCloud wall29)
                (resetParameters cfg3x14 (initial_state cfg3x14)))))).



End Scenarios.

(** * Properties of the projection stage *)

Module ImageProjectionFacts.
Import ImageProjection.

Lemma for_each_app {A S} (l1 l2 : list A) (body : A -> S -> S) (s : S) :
  for_each (l1 ++ l2) body s = for_each l2 body (for_each l1 body s).
Proof. unfold for_each. apply fold_left_app. Qed.

Lemma for_each_one {A S} (a : A) (body : A -> S -> S) (s : S) :
  for_each [a] body s = body a s.
Proof. reflexivity. Qed.

Lemma for_each_cons {A S} (a : A) (l : list A) (body : A -> S -> S) (s : S) :
  for_each (a :: l) body s = for_each l body (body a s).
Proof. reflexivity. Qed.

Lemma for_each_inv {A S} (P : S -> Prop) (body : A -> S -> S) (l : list A) (s : S) :
  P s -> (forall a s0, a ∈ l -> P s0 -> P (body a s0)) -> P (for_each l body s).
Proof.
  revert s. induction l as [|a l IH]; intros s Hs Hstep; simpl; [exact Hs|].
  apply IH.
  - apply Hstep; [left | exact Hs].
  - intros b s0 Hb. apply Hstep. right. exact Hb.
Qed.

Lemma for_each_opt_inv {A S} (P : S -> Prop) (body : A -> S -> option S)
    (l : list A) (s s' : S) :
  P s -> (forall a s0 s1, a ∈ l -> P s0 -> body a s0 = Some s1 -> P s1) ->
  for_each_opt l body s = Some s' -> P s'.
Proof.
  revert s. induction l as [|a l IH]; intros s Hs Hstep; simpl.
  - intros [= <-]. exact Hs.
  - destruct (body a s) as [s1|] eqn:E; [|discriminate].
    apply IH.
    + eapply Hstep; [left | exact Hs | exact E].
    + intros b s0 s2 Hb. apply Hstep. right. exact Hb.
Qed.

Lemma for_each_opt_total {A S} (P : S -> Prop) (body : A -> S -> option S)
    (l : list A) (s : S) :
  P s -> (forall a s0, a ∈ l -> P s0 -> exists s1, body a s0 = Some s1 /\ P s1) ->
  exists s', for_each_opt l body s = Some s' /\ P s'.
Proof.
  revert s. induction l as [|a l IH]; intros s Hs Hstep; simpl.
  - eauto.
  - destruct (Hstep a s) as (s1 & E & H1); [left | exact Hs |].
    rewrite E. apply IH; [exact H1|].
    intros b s0 Hb. apply Hstep. right. exact Hb.
Qed.

Lemma for_each_opt_rel {A S} (R : S -> S -> Prop) (W : S -> Prop)
    (Q : A -> S -> Prop) (body : A -> S -> option S) (l : list A) (s : S) :
  (forall s0, W s0 -> R s0 s0) ->
  (forall s1 s2 s3, R s1 s2 -> R s2 s3 -> R s1 s3) ->
  (forall a s0, a ∈ l -> W s0 ->
     exists s1, body a s0 = Some s1 /\ R s0 s1 /\ W s1 /\ Q a s1) ->
  (forall a s0 s1, a ∈ l -> R s0 s1 -> Q a s0 -> Q a s1) ->
  W s ->
  exists s', for_each_opt l body s = Some s' /\ R s s' /\ W s'
             /\ forall a, a ∈ l -> Q a s'.
Proof.
  intros Hrefl Htrans Hbody Hstable. revert s.
  induction l as [|a l IH]; intros s Hs; simpl.
  - exists s. repeat split; auto. intros a Ha. apply elem_of_nil in Ha as [].
  - destruct (Hbody a s) as (s1 & E & HR & HW & HQ); [left | exact Hs |].
    rewrite E.
    destruct IH with (s := s1) as (s' & E' & HR' & HW' & HQ'); [| |exact HW|].
    { intros b s0 Hb. apply Hbody. right. exact Hb. }
    { intros b s0 s2 Hb. apply Hstable. right. exact Hb. }
    exists s'. repeat split; eauto.
    intros b Hb. apply elem_of_cons in Hb as [->|Hb]; [|eauto].
    eapply Hstable; [left | exact HR' | exact HQ].
Qed.

Lemma for_each_opt_pure {A S} (body : A -> S -> S) (l : list A) (s : S) :
  for_each_opt l (fun a s => Some (body a s)) s = Some (for_each l body s).
Proof. revert s. induction l as [|a l IH]; intros s; simpl; [reflexivity | apply IH]. Qed.

Lemma for_each_rel {A S} (R : S -> S -> Prop) (W : S -> Prop)
    (Q : A -> S -> Prop) (body : A -> S -> S) (l : list A) (s : S) :
  (forall s0, W s0 -> R s0 s0) ->
  (forall s1 s2 s3, R s1 s2 -> R s2 s3 -> R s1 s3) ->
  (forall a s0, a ∈ l -> W s0 ->
     R s0 (body a s0) /\ W (body a s0) /\ Q a (body a s0)) ->
  (forall a s0 s1, a ∈ l -> R s0 s1 -> Q a s0 -> Q a s1) ->
  W s ->
  R s (for_each l body s) /\ W (for_each l body s)
  /\ forall a, a ∈ l -> Q a (for_each l body s).
Proof.
  intros Hrefl Htrans Hbody Hstable Hs.
  destruct (for_each_opt_rel R W Q (fun a s => Some (body a s)) l s)
    as (s' & E & H1 & H2 & H3); auto.
  - intros a s0 Ha Hw. exists (body a s0). split; [reflexivity | auto].
  - rewrite for_each_opt_pure in E. injection E as <-. auto.
Qed.

Lemma upto_S (n : nat) : upto (S n) = upto n ++ [Z.of_nat n].
Proof. unfold upto. rewrite seq_S, map_app. reflexivity. Qed.

Lemma elem_of_upto (n : nat) (z : Z) : z ∈ upto n <-> 0 <= z < Z.of_nat n.
Proof.
  unfold upto. rewrite list_elem_of_fmap. split.
  - intros (k & -> & Hk). apply elem_of_seq in Hk. lia.
  - intros Hz. exists (Z.to_nat z). split; [lia|]. apply elem_of_seq. lia.
Qed.

(** ** Cells of the range image *)

Section Grid.

Context (cfg : Config).

Lemma cellZ_lt (i j : Z) :
  in_image cfg (i, j) -> (cellZ cfg i j < cloud_size cfg)%nat.
Proof.
  unfold in_image, cellZ, cloud_size, N, H. simpl. intros [Hi Hj]. nia.
Qed.

Lemma cellZ_inj (i j i' j' : Z) :
  in_image cfg (i, j) -> in_image cfg (i', j') ->
  cellZ cfg i j = cellZ cfg i' j' -> i = i' /\ j = j'.
Proof.
  unfold in_image, cellZ, N, H. simpl. intros [Hi Hj] [Hi' Hj'] E.
  assert (j + i * Z.of_nat (horizon_scan cfg) = j' + i' * Z.of_nat (horizon_scan cfg))
    by nia.
  assert (i = i') by nia. subst. split; [reflexivity | lia].
Qed.

Lemma length_mat_set {A} (m : list A) i j v :
  length (mat_set cfg m i j v) = length m.
Proof. unfold mat_set. apply length_insert. Qed.

Lemma mat_get_set_eq {A} (d : A) (m : list A) i j v :
  length m = cloud_size cfg -> in_image cfg (i, j) ->
  mat_get cfg d (mat_set cfg m i j v) i j = v.
Proof.
  intros Hl Hc. unfold mat_get, mat_set, nth_def.
  rewrite list_lookup_insert_eq; [reflexivity|].
  rewrite Hl. apply cellZ_lt, Hc.
Qed.

Lemma mat_get_set_ne {A} (d : A) (m : list A) i j i' j' v :
  in_image cfg (i, j) -> in_image cfg (i', j') -> (i, j) <> (i', j') ->
  mat_get cfg d (mat_set cfg m i j v) i' j' = mat_get cfg d m i' j'.
Proof.
  intros Hc Hc' Hne. unfold mat_get, mat_set, nth_def.
  rewrite list_lookup_insert_ne; [reflexivity|].
  intros E. apply cellZ_inj in E as [-> ->]; [|assumption..]. congruence.
Qed.

(** Reading after a write, both cells inside the image. *)
Lemma mat_get_set {A} (d : A) (m : list A) i j i' j' v :
  length m = cloud_size cfg -> in_image cfg (i, j) -> in_image cfg (i', j') ->
  mat_get cfg d (mat_set cfg m i j v) i' j' =
  if decide ((i, j) = (i', j')) then v else mat_get cfg d m i' j'.
Proof.
  intros Hl Hc Hc'. destruct (decide ((i, j) = (i', j'))) as [[= <- <-]|Hne].
  - apply mat_get_set_eq; assumption.
  - apply mat_get_set_ne; assumption.
Qed.

End Grid.

Lemma zeros_le_length (l : list Z) : (zeros l <= length l)%nat.
Proof. apply length_filter. Qed.

Lemma zeros_insert_le (l : list Z) (k : nat) (v : Z) :
  v <> 0 -> (zeros (<[k := v]> l) <= zeros l)%nat.
Proof.
  intros Hv. unfold zeros. revert k.
  induction l as [|x l IH]; intros [|k]; simpl; try lia.
  - rewrite !filter_cons. rewrite decide_False by exact Hv.
    destruct (decide (x = 0)); simpl; lia.
  - rewrite !filter_cons. specialize (IH k).
    destruct (decide (x = 0)); simpl; lia.
Qed.

Lemma zeros_insert_lt (l : list Z) (k : nat) (v : Z) :
  v <> 0 -> l !! k = Some 0 -> (S (zeros (<[k := v]> l)) = zeros l)%nat.
Proof.
  intros Hv. unfold zeros. revert k.
  induction l as [|x l IH]; intros [|k]; simpl; try discriminate.
  - intros [= ->]. rewrite !filter_cons.
    rewrite decide_False by exact Hv. rewrite decide_True by reflexivity.
    reflexivity.
  - intros Hk. rewrite !filter_cons. specialize (IH k Hk).
    destruct (decide (x = 0)); simpl; lia.
Qed.

(** ** The breadth-first search of labelComponents *)

Section Search.

Context (cfg : Config) (lm : Libm).

Implicit Types (b : Bfs) (c x : Coord2D).

(** At most [cloud_size] distinct cells lie inside the image. *)
Lemma distinct_cells_bound (l : list Coord2D) :
  NoDup l -> (forall c, c ∈ l -> in_image cfg c) -> (length l <= cloud_size cfg)%nat.
Proof.
  intros Hnd Him.
  replace (cloud_size cfg) with (length (seq 0 (cloud_size cfg)))
    by apply length_seq.
  rewrite <- (length_fmap (fun c : Coord2D => cellZ cfg c.1 c.2) l).
  apply submseteq_length, NoDup_submseteq.
  - apply NoDup_fmap_2_strong; [|exact Hnd].
    intros [i j] [i' j'] Hx Hy E. simpl in E.
    apply cellZ_inj in E as [-> ->]; [reflexivity | apply Him; assumption..].
  - intros k Hk. apply list_elem_of_fmap in Hk as ([i j] & -> & Hc).
    apply elem_of_seq. pose proof (cellZ_lt cfg i j (Him _ Hc)). simpl. lia.
Qed.

(** The control flow of one neighbour visit: nothing happens, or a cell of
    the image that was unlabeled is labeled and pushed. *)
Lemma visit_neighbor_cases rm lc fromInd iter b :
  in_image cfg fromInd ->
  visit_neighbor cfg lm rm lc fromInd iter b = b
  \/ exists x, in_image cfg x /\ label_at cfg (b_label b) x = 0
       /\ x.1 = fromInd.1 + iter.1
       /\ visit_neighbor cfg lm rm lc fromInd iter b =
          mkBfs (mat_set cfg (b_label b) x.1 x.2 lc)
            (cb_push_back (cloud_size cfg) (b_queue b) x)
            (cb_push_back (cloud_size cfg) (b_all_pushed b) x)
            (<[Z.to_nat x.1 := true]> (b_lineCountFlag b)).
Proof.
  intros [Hi Hj]. unfold visit_neighbor.
  destruct ((fromInd.1 + iter.1 <? 0) || (fromInd.1 + iter.1 >=? N cfg)) eqn:EX;
    [left; reflexivity|].
  apply orb_false_iff in EX as [EX1 EX2].
  set (y := if (if fromInd.2 + iter.2 <? 0 then H cfg - 1 else fromInd.2 + iter.2)
               >=? H cfg then 0
            else if fromInd.2 + iter.2 <? 0 then H cfg - 1 else fromInd.2 + iter.2).
  assert (Hy : 0 <= y < H cfg).
  { subst y. destruct (fromInd.2 + iter.2 <? 0) eqn:E1;
      [destruct (H cfg - 1 >=? H cfg) eqn:E2 | destruct (fromInd.2 + iter.2 >=? H cfg) eqn:E2];
      lia. }
  destruct (mat_get cfg 0 (b_label b) (fromInd.1 + iter.1) y =? 0) eqn:EL;
    [|left; reflexivity].
  simpl negb. cbv iota.
  match goal with |- context [PrimFloat.ltb ?a ?t] => destruct (PrimFloat.ltb a t) end;
    [|left; reflexivity].
  right. exists (fromInd.1 + iter.1, y). unfold in_image, label_at. simpl.
  repeat split; lia.
Qed.

Lemma cb_push_back_room {A} (cap : nat) (l : list A) (x : A) :
  (length l < cap)%nat -> cb_push_back cap l x = l ++ [x].
Proof.
  intros Hl. unfold cb_push_back.
  destruct (length l <? cap)%nat eqn:E; [reflexivity|].
  apply Nat.ltb_ge in E. lia.
Qed.

Lemma cb_push_back_length {A} (cap : nat) (l : list A) (x : A) :
  (length (cb_push_back cap l x) <= S (length l))%nat.
Proof.
  unfold cb_push_back. destruct (length l <? cap)%nat.
  - rewrite length_app. simpl. lia.
  - destruct l; simpl; [lia|]. rewrite length_app. simpl. lia.
Qed.

(** An in-range cell whose label reads [v] holds [v]. *)
Lemma label_at_lookup (m : list Z) x v :
  length m = cloud_size cfg -> in_image cfg x ->
  label_at cfg m x = v -> m !! cellZ cfg x.1 x.2 = Some v.
Proof.
  intros Hl Hx. destruct x as [i j]. unfold label_at, mat_get, nth_def. simpl.
  destruct (lookup_lt_is_Some_2 m (cellZ cfg i j)) as [w Hw].
  { rewrite Hl. apply cellZ_lt, Hx. }
  rewrite Hw. simpl. congruence.
Qed.

Lemma label_at_set (m : list Z) x c v :
  length m = cloud_size cfg -> in_image cfg x -> in_image cfg c ->
  label_at cfg (mat_set cfg m x.1 x.2 v) c = if decide (x = c) then v else label_at cfg m c.
Proof.
  intros Hl Hx Hc. destruct x as [i j], c as [i' j']. unfold label_at. simpl.
  apply mat_get_set; assumption.
Qed.

(** Pushing an unlabeled cell of the image keeps the invariant, never
    overwrites an element of either buffer, and keeps the measure. *)
Lemma push_inv orig lc seed b x :
  lc <> 0 -> bfs_inv cfg orig lc seed b ->
  in_image cfg x -> label_at cfg (b_label b) x = 0 ->
  let b' := mkBfs (mat_set cfg (b_label b) x.1 x.2 lc)
              (cb_push_back (cloud_size cfg) (b_queue b) x)
              (cb_push_back (cloud_size cfg) (b_all_pushed b) x)
              (<[Z.to_nat x.1 := true]> (b_lineCountFlag b)) in
  bfs_inv cfg orig lc seed b'
  /\ bfs_measure b' = bfs_measure b
  /\ b_all_pushed b' = b_all_pushed b ++ [x].
Proof.
  intros Hlc [Hlen Hfl Hq Hql Him Hor Hnd Hmk Hch Hsd Hfg] Hx Hx0.
  assert (Hnotin : x ∉ b_all_pushed b).
  { intros Hin. apply Hmk in Hin. congruence. }
  assert (Hroom : (length (b_all_pushed b) < cloud_size cfg)%nat).
  { assert (length (x :: b_all_pushed b) <= cloud_size cfg)%nat as Hb; [|simpl in Hb; lia].
    apply distinct_cells_bound.
    - apply NoDup_cons. split; assumption.
    - intros c Hc. apply elem_of_cons in Hc as [->|Hc]; [exact Hx | apply Him, Hc]. }
  assert (Hseed_in : seed ∈ b_all_pushed b).
  { destruct (b_all_pushed b) as [|h t]; [discriminate|].
    simpl in Hsd. injection Hsd as ->. left. }
  cbv zeta.
  rewrite (cb_push_back_room _ (b_all_pushed b)) by exact Hroom.
  rewrite (cb_push_back_room _ (b_queue b)) by lia.
  split; [|split; [|reflexivity]].
  - constructor; simpl.
    + rewrite length_mat_set. exact Hlen.
    + rewrite length_insert. exact Hfl.
    + intros c Hc. apply elem_of_app in Hc as [Hc|Hc]; apply elem_of_app; auto.
    + rewrite !length_app. simpl. lia.
    + intros c Hc. apply elem_of_app in Hc as [Hc|Hc]; [apply Him, Hc|].
      apply list_elem_of_singleton in Hc as ->. exact Hx.
    + intros c Hc. apply elem_of_app in Hc as [Hc|Hc]; [apply Hor, Hc|].
      apply list_elem_of_singleton in Hc as ->.
      destruct (decide (label_at cfg (b_label b) x = label_at cfg orig x)) as [E|E];
        [congruence|].
      exfalso. apply Hnotin, Hch; assumption.
    + apply NoDup_app. split; [exact Hnd|]. split; [|apply NoDup_singleton].
      intros c Hc Hc'. apply list_elem_of_singleton in Hc' as ->. contradiction.
    + intros c Hc. apply elem_of_app in Hc as [Hc|Hc].
      * rewrite label_at_set by auto.
        destruct (decide (x = c)); [reflexivity | apply Hmk, Hc].
      * apply list_elem_of_singleton in Hc as ->.
        rewrite label_at_set by auto. rewrite decide_True; reflexivity.
    + intros c Hc Hne. apply elem_of_app.
      rewrite label_at_set in Hne by auto.
      destruct (decide (x = c)) as [->|Hxc].
      * right. apply list_elem_of_singleton. reflexivity.
      * left. apply Hch; assumption.
    + destruct (b_all_pushed b); [discriminate | exact Hsd].
    + intros r. split.
      * intros Hr. destruct (decide (Z.to_nat x.1 = r)) as [E|E].
        -- exists x. split; [apply elem_of_app; right; apply list_elem_of_singleton; reflexivity|].
           split; [congruence | exact E].
        -- rewrite list_lookup_insert_ne in Hr by exact E.
           apply Hfg in Hr as (c & Hc & Hcs & Hcr).
           exists c. split; [apply elem_of_app; left; exact Hc | auto].
      * intros (c & Hc & Hcs & Hcr).
        destruct (decide (Z.to_nat x.1 = r)) as [E|E].
        -- rewrite <- E. apply list_lookup_insert_eq.
           rewrite Hfl. destruct Hx as [Hx1 _]. unfold N in Hx1. lia.
        -- rewrite list_lookup_insert_ne by exact E.
           apply Hfg. exists c. split; [|auto].
           apply elem_of_app in Hc as [Hc|Hc]; [exact Hc|].
           apply list_elem_of_singleton in Hc as ->. congruence.
  - unfold bfs_measure. simpl. rewrite length_app. simpl.
    pose proof (zeros_insert_lt (b_label b) (cellZ cfg x.1 x.2) lc Hlc
                  (label_at_lookup _ _ _ Hlen Hx Hx0)) as Hz.
    unfold mat_set. lia.
Qed.

Lemma visit_neighbor_inv orig lc seed rm fromInd iter b :
  lc <> 0 -> in_image cfg fromInd -> bfs_inv cfg orig lc seed b ->
  bfs_inv cfg orig lc seed (visit_neighbor cfg lm rm lc fromInd iter b)
  /\ bfs_measure (visit_neighbor cfg lm rm lc fromInd iter b) = bfs_measure b.
Proof.
  intros Hlc Hf Hb.
  destruct (visit_neighbor_cases rm lc fromInd iter b Hf) as [->|(x & Hx & Hx0 & _ & ->)].
  - split; [exact Hb | reflexivity].
  - destruct (push_inv orig lc seed b x Hlc Hb Hx Hx0) as (Hi & Hm & _).
    split; assumption.
Qed.

Lemma visits_inv orig lc seed rm fromInd (iters : list Coord2D) b :
  lc <> 0 -> in_image cfg fromInd -> bfs_inv cfg orig lc seed b ->
  bfs_inv cfg orig lc seed (for_each iters (visit_neighbor cfg lm rm lc fromInd) b)
  /\ bfs_measure (for_each iters (visit_neighbor cfg lm rm lc fromInd) b) = bfs_measure b.
Proof.
  intros Hlc Hf Hb.
  apply (for_each_inv (fun b' => bfs_inv cfg orig lc seed b'
                                 /\ bfs_measure b' = bfs_measure b)).
  - split; [exact Hb | reflexivity].
  - intros iter b0 _ [Hi Hm].
    destruct (visit_neighbor_inv orig lc seed rm fromInd iter b0 Hlc Hf Hi) as [Hi' Hm'].
    split; [exact Hi' | congruence].
Qed.

(** One turn of the loop: the invariant is kept and the measure drops by one. *)
Lemma bfs_step_inv orig lc seed rm fromInd rest b :
  lc <> 0 -> bfs_inv cfg orig lc seed b -> b_queue b = fromInd :: rest ->
  bfs_inv cfg orig lc seed (bfs_step cfg lm rm lc fromInd rest b)
  /\ S (bfs_measure (bfs_step cfg lm rm lc fromInd rest b)) = bfs_measure b.
Proof.
  intros Hlc Hb Hq. pose proof Hb as [Hlen Hfl Hqs Hql Him Hor Hnd Hmk Hch Hsd Hfg].
  assert (Hin : fromInd ∈ b_all_pushed b) by (apply Hqs; rewrite Hq; left).
  assert (Hid : mat_set cfg (b_label b) fromInd.1 fromInd.2 lc = b_label b).
  { unfold mat_set. apply list_insert_id, label_at_lookup; auto. }
  unfold bfs_step. rewrite Hid.
  set (b1 := mkBfs (b_label b) rest (b_all_pushed b) (b_lineCountFlag b)).
  assert (Hb1 : bfs_inv cfg orig lc seed b1).
  { constructor; simpl; auto.
    - intros c Hc. apply Hqs. rewrite Hq. right. exact Hc.
    - rewrite Hq in Hql. simpl in Hql. lia. }
  destruct (visits_inv orig lc seed rm fromInd neighborIterator b1 Hlc (Him _ Hin) Hb1)
    as [Hi Hm].
  split; [exact Hi|]. rewrite Hm. unfold bfs_measure, b1. simpl. rewrite Hq. simpl. lia.
Qed.

(** The loop returns within [bfs_measure] turns, with an empty queue. *)
Lemma bfs_loop_terminates orig lc seed rm fuel b :
  lc <> 0 -> bfs_inv cfg orig lc seed b -> (bfs_measure b <= fuel)%nat ->
  exists b', bfs_loop cfg lm fuel rm lc b = Some b'
             /\ bfs_inv cfg orig lc seed b' /\ b_queue b' = [].
Proof.
  intros Hlc. revert b. induction fuel as [|fuel IH]; intros b Hb Hm.
  - destruct (b_queue b) as [|fromInd rest] eqn:Hq.
    + exists b. simpl. rewrite Hq. auto.
    + unfold bfs_measure in Hm. rewrite Hq in Hm. simpl in Hm. lia.
  - destruct (b_queue b) as [|fromInd rest] eqn:Hq.
    + exists b. simpl. rewrite Hq. auto.
    + simpl. rewrite Hq.
      destruct (bfs_step_inv orig lc seed rm fromInd rest b Hlc Hb Hq) as [Hi Hs].
      apply IH; [exact Hi | lia].
Qed.

(** Relabeling the cells of a rejected segment. *)
Lemma relabel_spec (cells : list Coord2D) (m : list Z) c :
  length m = cloud_size cfg -> (forall x, x ∈ cells -> in_image cfg x) ->
  in_image cfg c ->
  let m' := for_each cells (fun x m => mat_set cfg m x.1 x.2 999999) m in
  length m' = cloud_size cfg
  /\ label_at cfg m' c = if decide (c ∈ cells) then 999999 else label_at cfg m c.
Proof.
  intros Hl Hcells Hc. revert m Hl.
  induction cells as [|x cells IH]; intros m Hl; cbv zeta.
  - split; [exact Hl|]. rewrite decide_False; [reflexivity | apply not_elem_of_nil].
  - rewrite for_each_cons.
    destruct (IH (fun y Hy => Hcells y (list_elem_of_further _ _ _ Hy))
                 (mat_set cfg m x.1 x.2 999999)) as [Hl' Hv].
    { rewrite length_mat_set. exact Hl. }
    cbv zeta in *. split; [exact Hl'|]. rewrite Hv.
    assert (Hx : in_image cfg x) by (apply Hcells; left).
    destruct (decide (c ∈ cells)) as [Hin|Hnin].
    + rewrite decide_True; [reflexivity | right; exact Hin].
    + rewrite label_at_set by auto.
      destruct (decide (x = c)) as [->|Hne].
      * rewrite decide_True; [reflexivity | left].
      * rewrite decide_False; [reflexivity|].
        intros Hin. apply elem_of_cons in Hin as [->|Hin]; contradiction.
Qed.

Lemma same_but_labels_refl s : same_but_labels s s.
Proof. repeat split. Qed.

Lemma same_but_labels_trans s1 s2 s3 :
  same_but_labels s1 s2 -> same_but_labels s2 s3 -> same_but_labels s1 s3.
Proof. unfold same_but_labels. intuition congruence. Qed.

Lemma seg_step_refl s : labels_wf cfg s -> seg_step cfg s s.
Proof.
  intros Hw. constructor; auto using same_but_labels_refl. lia.
Qed.

Lemma seg_step_trans s1 s2 s3 :
  seg_step cfg s1 s2 -> seg_step cfg s2 s3 -> seg_step cfg s1 s3.
Proof.
  intros [F1 W1 W1' C1 L1] [F2 W2 W2' C2 L2].
  constructor; eauto using same_but_labels_trans; [lia|].
  intros c Hc. destruct W1 as [_ Hpos].
  destruct (L1 c Hc) as [E1|(Z1 & [E1|E1])], (L2 c Hc) as [E2|(Z2 & [E2|E2])];
    try (left; congruence); right; split; try congruence; try lia.
Qed.

(** A labeled cell keeps its label. *)
Lemma seg_step_stable s s' c :
  seg_step cfg s s' -> in_image cfg c ->
  label_at cfg (label_mat s) c <> 0 ->
  label_at cfg (label_mat s') c = label_at cfg (label_mat s) c.
Proof.
  intros [_ _ _ _ L] Hc Hne. destruct (L c Hc) as [E|[Z0 _]]; [exact E | contradiction].
Qed.

(** The search started from an unlabeled cell returns, with the invariant. *)
Lemma labelComponents_search s row col :
  labels_wf cfg s -> in_image cfg (row, col) ->
  label_at cfg (label_mat s) (row, col) = 0 ->
  exists b,
    bfs_loop cfg lm (S (cloud_size cfg)) (range_mat s) (label_count s)
      (mkBfs (label_mat s)
         (cb_push_back (cloud_size cfg) [] (row, col))
         (cb_push_back (cloud_size cfg) [] (row, col))
         (replicate (N_scan cfg) false)) = Some b
    /\ bfs_inv cfg (label_mat s) (label_count s) (row, col) b
    /\ b_queue b = [].
Proof.
  intros [Hlen Hpos] Hc H0.
  assert (Hcs : (0 < cloud_size cfg)%nat) by (pose proof (cellZ_lt cfg row col Hc); lia).
  rewrite !cb_push_back_room by (simpl; lia). simpl app.
  assert (Hlc : label_count s <> 0) by lia.
  set (lc := label_count s) in *. set (seed := (row, col)) in *.
  change (bfs_loop cfg lm (S (cloud_size cfg)) (range_mat s) lc
            (mkBfs (label_mat s) [seed] [seed] (replicate (N_scan cfg) false)))
    with (bfs_loop cfg lm (cloud_size cfg) (range_mat s) lc
            (for_each neighborIterator (visit_neighbor cfg lm (range_mat s) lc seed)
               (mkBfs (mat_set cfg (label_mat s) seed.1 seed.2 lc) [] [seed]
                  (replicate (N_scan cfg) false)))).
  set (b1 := mkBfs (mat_set cfg (label_mat s) seed.1 seed.2 lc) [] [seed]
               (replicate (N_scan cfg) false)).
  assert (Hb1 : bfs_inv cfg (label_mat s) lc seed b1).
  { constructor; cbn [b1 b_label b_queue b_all_pushed b_lineCountFlag].
    - rewrite length_mat_set. exact Hlen.
    - apply length_replicate.
    - intros c Hin. apply elem_of_nil in Hin as [].
    - simpl. lia.
    - intros c Hin. apply list_elem_of_singleton in Hin as ->. exact Hc.
    - intros c Hin. apply list_elem_of_singleton in Hin as ->. exact H0.
    - apply NoDup_singleton.
    - intros c Hin. apply list_elem_of_singleton in Hin as ->.
      rewrite label_at_set by auto. rewrite decide_True; reflexivity.
    - intros c Hin Hne. apply list_elem_of_singleton.
      rewrite label_at_set in Hne by auto.
      case_decide; [congruence | contradiction].
    - reflexivity.
    - intros r. split.
      + intros Hr. apply lookup_replicate in Hr as [? _]. discriminate.
      + intros (c & Hin & Hne & _). apply list_elem_of_singleton in Hin. contradiction. }
  destruct (visits_inv (label_mat s) lc seed (range_mat s) seed neighborIterator b1
              Hlc Hc Hb1) as [Hi Hm].
  apply (bfs_loop_terminates (label_mat s) lc seed); [exact Hlc | exact Hi |].
  rewrite Hm. unfold bfs_measure, b1. simpl.
  pose proof (zeros_insert_lt (label_mat s) (cellZ cfg seed.1 seed.2) lc Hlc
                (label_at_lookup _ _ _ Hlen Hc H0)) as Hz.
  change seed.1 with row in Hz. change seed.2 with col in Hz.
  pose proof (zeros_le_length (label_mat s)) as Hz'. rewrite Hlen in Hz'.
  unfold mat_set. lia.
Qed.

Lemma head_elem_of {A} (l : list A) (x : A) : head l = Some x -> x ∈ l.
Proof. destruct l; [discriminate|]. intros [= ->]. left. Qed.

(** One call of [labelComponents] on an unlabeled cell of the image returns
    and labels that cell. *)
Lemma labelComponents_step s row col :
  labels_wf cfg s -> in_image cfg (row, col) ->
  label_at cfg (label_mat s) (row, col) = 0 ->
  exists s', labelComponents cfg lm row col s = Some s'
             /\ seg_step cfg s s'
             /\ label_at cfg (label_mat s') (row, col) <> 0.
Proof.
  intros Hw Hc H0.
  destruct (labelComponents_search s row col Hw Hc H0) as (b & E & Hb & Hq).
  unfold labelComponents. rewrite E.
  destruct Hb as [Hlen Hfl Hqs Hql Him Hor Hnd Hmk Hch Hsd Hfg].
  pose proof (head_elem_of _ _ Hsd) as Hseed.
  destruct Hw as [Hwl Hpos].
  destruct (feasibleSegment cfg b).
  - eexists. split; [reflexivity|]. split.
    + constructor; unfold labels_wf; simpl.
      * repeat split.
      * split; assumption.
      * split; [exact Hlen | lia].
      * lia.
      * intros c Hcin.
        destruct (decide (label_at cfg (b_label b) c = label_at cfg (label_mat s) c))
          as [Ec|Ec]; [left; exact Ec|].
        right. pose proof (Hch c Hcin Ec) as Hin.
        split; [apply Hor, Hin|]. right. rewrite (Hmk c Hin). lia.
    + simpl. rewrite (Hmk _ Hseed). lia.
  - eexists. split; [reflexivity|]. split.
    + constructor; unfold labels_wf; simpl.
      * repeat split.
      * split; assumption.
      * split; [|lia].
        apply (relabel_spec (b_all_pushed b) (b_label b) (row, col) Hlen Him Hc).
      * lia.
      * intros c Hcin.
        destruct (relabel_spec (b_all_pushed b) (b_label b) c Hlen Him Hcin) as [_ Hv].
        cbv zeta in Hv. rewrite Hv.
        destruct (decide (c ∈ b_all_pushed b)) as [Hin|Hnin].
        -- right. split; [apply Hor, Hin | left; reflexivity].
        -- left.
           destruct (decide (label_at cfg (b_label b) c = label_at cfg (label_mat s) c))
             as [Ec|Ec]; [exact Ec|].
           exfalso. apply Hnin, Hch; assumption.
    + simpl.
      destruct (relabel_spec (b_all_pushed b) (b_label b) (row, col) Hlen Him Hc) as [_ Hv].
      cbv zeta in Hv. rewrite Hv. rewrite decide_True by exact Hseed. lia.
Qed.

(** The first loop of [cloudSegmentation] returns and leaves no cell of the
    image unlabeled. *)
Lemma label_all_spec s :
  labels_wf cfg s ->
  exists s', label_all cfg lm s = Some s' /\ seg_step cfg s s'
             /\ forall c, in_image cfg c -> label_at cfg (label_mat s') c <> 0.
Proof.
  intros Hw. unfold label_all.
  destruct (for_each_opt_rel (seg_step cfg) (labels_wf cfg)
              (fun i s' => forall j, j ∈ upto (horizon_scan cfg) ->
                                     label_at cfg (label_mat s') (i, j) <> 0)
              (fun i => for_each_opt (upto (horizon_scan cfg))
                 (fun j s => if mat_get cfg 0 (label_mat s) i j =? 0
                             then labelComponents cfg lm i j s else Some s))
              (upto (N_scan cfg)) s) as (s' & E & HR & HW & HQ).
  - apply seg_step_refl.
  - apply seg_step_trans.
  - intros i s0 Hi Hw0.
    apply (for_each_opt_rel (seg_step cfg) (labels_wf cfg)
             (fun j s' => label_at cfg (label_mat s') (i, j) <> 0)).
    + apply seg_step_refl.
    + apply seg_step_trans.
    + intros j s1 Hj Hw1.
      assert (Hc : in_image cfg (i, j)).
      { apply elem_of_upto in Hi, Hj. split; assumption. }
      destruct (mat_get cfg 0 (label_mat s1) i j =? 0) eqn:E0.
      * apply Z.eqb_eq in E0.
        destruct (labelComponents_step s1 i j Hw1 Hc E0) as (s2 & E2 & HS & HL).
        exists s2. split; [exact E2|]. split; [exact HS|].
        split; [apply HS | exact HL].
      * apply Z.eqb_neq in E0. exists s1. split; [reflexivity|].
        split; [apply seg_step_refl, Hw1|]. split; [exact Hw1 | exact E0].
    + intros j s1 s2 Hj HS Hne.
      assert (Hc : in_image cfg (i, j)).
      { apply elem_of_upto in Hi, Hj. split; assumption. }
      rewrite (seg_step_stable s1 s2 (i, j) HS Hc Hne). exact Hne.
    + exact Hw0.
  - intros i s0 s1 Hi HS HQ j Hj.
    assert (Hc : in_image cfg (i, j)).
    { apply elem_of_upto in Hi, Hj. split; assumption. }
    rewrite (seg_step_stable s0 s1 (i, j) HS Hc (HQ j Hj)). apply HQ, Hj.
  - exact Hw.
  - exists s'. split; [exact E|]. split; [exact HR|].
    intros [i j] [Hi Hj]. apply HQ; apply elem_of_upto; assumption.
Qed.

End Search.

(** ** Projection and ground removal *)

Section Ground.

Context (cfg : Config) (lm : Libm).

Implicit Types (s : State).

Lemma same_outputs_refl s : same_outputs s s.
Proof. repeat split. Qed.

Lemma same_outputs_trans s1 s2 s3 :
  same_outputs s1 s2 -> same_outputs s2 s3 -> same_outputs s1 s3.
Proof. unfold same_outputs. intuition congruence. Qed.

Ltac split_ifs :=
  repeat match goal with
         | |- context [if ?b then _ else _] => destruct b
         end.

Lemma project_point_frame p s :
  same_outputs s (project_point cfg lm p s)
  /\ ground_mat (project_point cfg lm p s) = ground_mat s
  /\ label_mat (project_point cfg lm p s) = label_mat s.
Proof.
  unfold project_point, same_outputs, mat_set. split_ifs; simpl;
    rewrite ?length_insert; repeat split.
Qed.

Lemma projectPointCloud_frame s :
  same_outputs s (projectPointCloud cfg lm s)
  /\ ground_mat (projectPointCloud cfg lm s) = ground_mat s
  /\ label_mat (projectPointCloud cfg lm s) = label_mat s.
Proof.
  unfold projectPointCloud.
  apply (for_each_inv (fun s' => same_outputs s s' /\ ground_mat s' = ground_mat s
                                 /\ label_mat s' = label_mat s)).
  - repeat split.
  - intros p s0 _ (H1 & H2 & H3).
    destruct (project_point_frame p s0) as (F1 & F2 & F3).
    split; [eapply same_outputs_trans; eassumption|]. split; congruence.
Qed.

Lemma ground_pair_frame j i s :
  same_outputs s (ground_pair cfg lm j i s)
  /\ full_cloud (ground_pair cfg lm j i s) = full_cloud s
  /\ range_mat (ground_pair cfg lm j i s) = range_mat s
  /\ label_mat (ground_pair cfg lm j i s) = label_mat s.
Proof.
  unfold ground_pair, same_outputs, mat_set. split_ifs; simpl;
    rewrite ?length_insert; repeat split.
Qed.

Lemma mark_label_frame i j s :
  same_outputs s (mark_label cfg i j s)
  /\ full_cloud (mark_label cfg i j s) = full_cloud s
  /\ range_mat (mark_label cfg i j s) = range_mat s
  /\ ground_mat (mark_label cfg i j s) = ground_mat s.
Proof.
  unfold mark_label, same_outputs, mat_set. split_ifs; simpl;
    rewrite ?length_insert; repeat split.
Qed.

Lemma push_ground_frame i j s :
  same_outputs s (push_ground cfg i j s)
  /\ full_cloud (push_ground cfg i j s) = full_cloud s
  /\ range_mat (push_ground cfg i j s) = range_mat s
  /\ ground_mat (push_ground cfg i j s) = ground_mat s
  /\ label_mat (push_ground cfg i j s) = label_mat s.
Proof.
  unfold push_ground, same_outputs. split_ifs; simpl; repeat split.
Qed.

Lemma not_to_label_ext s s' c :
  ground_mat s' = ground_mat s -> range_mat s' = range_mat s ->
  not_to_label cfg s' c = not_to_label cfg s c.
Proof. intros Hg Hr. unfold not_to_label. rewrite Hg, Hr. reflexivity. Qed.

Lemma marks_refl s : marks cfg s s.
Proof. unfold marks. repeat split; auto. Qed.

Lemma marks_trans s1 s2 s3 : marks cfg s1 s2 -> marks cfg s2 s3 -> marks cfg s1 s3.
Proof.
  intros (O1 & F1 & R1 & G1 & L1) (O2 & F2 & R2 & G2 & L2).
  split; [eapply same_outputs_trans; eassumption|].
  repeat split; try congruence.
  intros c Hc.
  destruct (L1 c Hc) as [E1|[N1 E1]], (L2 c Hc) as [E2|[N2 E2]];
    try rewrite (not_to_label_ext s1 s2 c G1 R1) in N2;
    try (left; congruence); right; split; congruence.
Qed.

Lemma marks_stable s0 s1 c :
  in_image cfg c -> marks cfg s0 s1 -> marked cfg c s0 -> marked cfg c s1.
Proof.
  intros Hc (_ & _ & R1 & G1 & L1) Hm Hn.
  rewrite (not_to_label_ext s0 s1 c G1 R1) in Hn.
  destruct (L1 c Hc) as [E|[_ E]]; [rewrite E; apply Hm, Hn | exact E].
Qed.

Lemma mark_label_spec i j s :
  length (label_mat s) = cloud_size cfg -> in_image cfg (i, j) ->
  marks cfg s (mark_label cfg i j s)
  /\ length (label_mat (mark_label cfg i j s)) = cloud_size cfg
  /\ marked cfg (i, j) (mark_label cfg i j s).
Proof.
  intros Hl Hc.
  destruct (mark_label_frame i j s) as (O & F & R & G).
  unfold marks, marked. rewrite F, R, G.
  rewrite (not_to_label_ext s (mark_label cfg i j s) (i, j) G R).
  change (mark_label cfg i j s)
    with (if not_to_label cfg s (i, j)
          then with_label_mat (mat_set cfg (label_mat s) i j (-1)) s else s) in *.
  destruct (not_to_label cfg s (i, j)) eqn:En; simpl.
  - rewrite length_mat_set. split; [|split; [exact Hl|]].
    + split; [exact O|]. do 3 (split; [reflexivity|]).
      intros c Hcin. rewrite (label_at_set cfg _ (i, j) c) by auto.
      case_decide; [subst c; right; auto | left; reflexivity].
    + intros _. rewrite (label_at_set cfg _ (i, j) (i, j)) by auto.
      rewrite decide_True; reflexivity.
  - split; [|split; [exact Hl | discriminate]].
    split; [exact O|]. do 3 (split; [reflexivity|]). intros c _. left. reflexivity.
Qed.

(** The labels [groundRemoval] leaves: -1 on the cells that are ground or
    empty, 0 elsewhere; the matrices it reads are those it was given. *)
Lemma groundRemoval_spec s :
  length (label_mat s) = cloud_size cfg ->
  (forall c, in_image cfg c -> label_at cfg (label_mat s) c = 0) ->
  let s' := groundRemoval cfg lm s in
  same_outputs s s' /\ full_cloud s' = full_cloud s /\ range_mat s' = range_mat s
  /\ forall c, in_image cfg c ->
       label_at cfg (label_mat s') c = if not_to_label cfg s' c then -1 else 0.
Proof.
  intros Hl H0. unfold groundRemoval.
  set (s1 := for_each (upto (horizon_scan cfg)) _ s).
  assert (H1 : same_outputs s s1 /\ full_cloud s1 = full_cloud s
               /\ range_mat s1 = range_mat s /\ label_mat s1 = label_mat s).
  { subst s1.
    apply (for_each_inv (fun s' => same_outputs s s' /\ full_cloud s' = full_cloud s
             /\ range_mat s' = range_mat s /\ label_mat s' = label_mat s));
      [repeat split|].
    intros j s0 _ Hs0.
    apply (for_each_inv (fun s' => same_outputs s s' /\ full_cloud s' = full_cloud s
             /\ range_mat s' = range_mat s /\ label_mat s' = label_mat s));
      [exact Hs0|].
    intros i s2 _ (A1 & A2 & A3 & A4).
    destruct (ground_pair_frame j i s2) as (B1 & B2 & B3 & B4).
    split; [eapply same_outputs_trans; eassumption|]. repeat split; congruence. }
  destruct H1 as (O1 & F1 & R1 & L1).
  set (s2 := for_each (upto (N_scan cfg)) _ s1).
  assert (H2 : marks cfg s1 s2 /\ length (label_mat s2) = cloud_size cfg
               /\ forall i, i ∈ upto (N_scan cfg) ->
                    forall j, j ∈ upto (horizon_scan cfg) -> marked cfg (i, j) s2).
  { subst s2.
    apply (for_each_rel (marks cfg) (fun s => length (label_mat s) = cloud_size cfg)
             (fun i s' => forall j, j ∈ upto (horizon_scan cfg) -> marked cfg (i, j) s')).
    - intros; apply marks_refl.
    - apply marks_trans.
    - intros i s0 Hi Hw.
      apply (for_each_rel (marks cfg) (fun s => length (label_mat s) = cloud_size cfg)
               (fun j s' => marked cfg (i, j) s')).
      + intros; apply marks_refl.
      + apply marks_trans.
      + intros j s3 Hj Hw3. apply mark_label_spec; [exact Hw3|].
        apply elem_of_upto in Hi, Hj. split; assumption.
      + intros j s3 s4 Hj HR. apply marks_stable; [|exact HR].
        apply elem_of_upto in Hi, Hj. split; assumption.
      + exact Hw.
    - intros i s0 s3 Hi HR HQ j Hj. eapply marks_stable; [|exact HR|apply HQ, Hj].
      apply elem_of_upto in Hi, Hj. split; assumption.
    - congruence. }
  destruct H2 as ((O2 & F2 & R2 & G2 & L2) & Hl2 & Q2).
  set (s3 := for_each (upto (S (groundScanInd cfg))) _ s2).
  assert (H3 : same_outputs s2 s3 /\ full_cloud s3 = full_cloud s2
               /\ range_mat s3 = range_mat s2 /\ ground_mat s3 = ground_mat s2
               /\ label_mat s3 = label_mat s2).
  { subst s3.
    apply (for_each_inv (fun s' => same_outputs s2 s' /\ full_cloud s' = full_cloud s2
             /\ range_mat s' = range_mat s2 /\ ground_mat s' = ground_mat s2
             /\ label_mat s' = label_mat s2)); [repeat split|].
    intros i s0 _ Hs0.
    apply (for_each_inv (fun s' => same_outputs s2 s' /\ full_cloud s' = full_cloud s2
             /\ range_mat s' = range_mat s2 /\ ground_mat s' = ground_mat s2
             /\ label_mat s' = label_mat s2)); [exact Hs0|].
    intros j s4 _ (A1 & A2 & A3 & A4 & A5).
    destruct (push_ground_frame i j s4) as (B1 & B2 & B3 & B4 & B5).
    split; [eapply same_outputs_trans; eassumption|]. repeat split; congruence. }
  destruct H3 as (O3 & F3 & R3 & G3 & L3).
  cbv zeta. split; [eauto using same_outputs_trans|].
  split; [congruence|]. split; [congruence|].
  intros c Hc. rewrite L3.
  rewrite (not_to_label_ext s2 s3 c G3 R3), (not_to_label_ext s1 s2 c G2 R2).
  destruct c as [i j]. pose proof Hc as [Hi Hj]. simpl in Hi, Hj.
  assert (Hm : marked cfg (i, j) s2) by (apply Q2; apply elem_of_upto; assumption).
  unfold marked in Hm. rewrite (not_to_label_ext s1 s2 (i, j) G2 R2) in Hm.
  destruct (not_to_label cfg s1 (i, j)) eqn:En; [apply Hm; reflexivity|].
  destruct (L2 (i, j) Hc) as [E|[N' _]]; [|congruence].
  rewrite E, L1. apply H0, Hc.
Qed.

End Ground.

(** ** Extraction of the segmented cloud *)

Section Extraction.

Context (cfg : Config).

Implicit Types (s : State) (e : Emit).

Lemma emit_cell_spec s i j e :
  let e' := emit_cell cfg s i j e in
  sizeOfSegCloud e' = sizeOfSegCloud e + (if emits cfg s i j then 1 else 0)
  /\ length (e_segmented e') =
     (length (e_segmented e) + (if emits cfg s i j then 1 else 0))%nat
  /\ startRingIndex (e_msg e') = startRingIndex (e_msg e)
  /\ endRingIndex (e_msg e') = endRingIndex (e_msg e).
Proof.
  unfold emit_cell, emits.
  destruct (mat_get cfg 0 (label_mat s) i j >? 0) eqn:E1;
  destruct (mat_get cfg 0 (ground_mat s) i j =? 1) eqn:E2;
  destruct (mat_get cfg 0 (label_mat s) i j =? 999999) eqn:E3;
  destruct (i >? Z.of_nat (groundScanInd cfg));
  destruct (j mod 5 =? 0); destruct (j >? 5);
  destruct (j <? (H cfg - 5) mod 2 ^ 64);
  simpl; rewrite ?length_app; simpl; repeat split; lia.
Qed.

Lemma emit_row_spec s i (js : list Z) e :
  let e' := for_each js (emit_cell cfg s i) e in
  sizeOfSegCloud e' =
    sizeOfSegCloud e + Z.of_nat (length (filter (fun j => Is_true (emits cfg s i j)) js))
  /\ Z.of_nat (length (e_segmented e')) - sizeOfSegCloud e' =
     Z.of_nat (length (e_segmented e)) - sizeOfSegCloud e
  /\ startRingIndex (e_msg e') = startRingIndex (e_msg e)
  /\ endRingIndex (e_msg e') = endRingIndex (e_msg e).
Proof.
  revert e. induction js as [|j js IH]; intros e; simpl.
  - repeat split; lia.
  - destruct (emit_cell_spec s i j e) as (Hs & Hl & Ha & Hb).
    destruct (IH (emit_cell cfg s i j e)) as (Hs' & Hl' & Ha' & Hb').
    unfold for_each in *. simpl.
    rewrite filter_cons.
    destruct (emits cfg s i j) eqn:E.
    + rewrite decide_True by exact I. simpl length.
      split; [lia | split; [lia | split; congruence]].
    + rewrite decide_False by (intros []).
      split; [lia | split; [lia | split; congruence]].
Qed.

Lemma ring_points_nonneg s i : 0 <= ring_points cfg s i.
Proof. unfold ring_points. lia. Qed.

Lemma ring_offset_nonneg s k : 0 <= ring_offset cfg s k.
Proof. induction k; simpl; [lia|]. pose proof (ring_points_nonneg s (Z.of_nat k)). lia. Qed.

Lemma ring_offset_mono s k : ring_offset cfg s k <= ring_offset cfg s (S k).
Proof. simpl. pose proof (ring_points_nonneg s (Z.of_nat k)). lia. Qed.

Lemma emit_ring_spec s i e :
  let e' := emit_ring cfg s i e in
  sizeOfSegCloud e' = sizeOfSegCloud e + ring_points cfg s i
  /\ Z.of_nat (length (e_segmented e')) - sizeOfSegCloud e' =
     Z.of_nat (length (e_segmented e)) - sizeOfSegCloud e
  /\ startRingIndex (e_msg e') =
     <[Z.to_nat i := sizeOfSegCloud e - 1 + 5]> (startRingIndex (e_msg e))
  /\ endRingIndex (e_msg e') =
     <[Z.to_nat i := sizeOfSegCloud e' - 1 - 5]> (endRingIndex (e_msg e)).
Proof.
  unfold emit_ring. simpl.
  set (e1 := mkEmit _ _ _ _).
  destruct (emit_row_spec s i (upto (horizon_scan cfg)) e1) as (Hs & Hl & Ha & Hb).
  rewrite Ha, Hb. subst e1. simpl in *. unfold ring_points. repeat split; try lia.
Qed.

(** The arrays after the first [k] rings, in closed form. *)
Lemma emit_rings_spec s k e0 :
  sizeOfSegCloud e0 = 0 ->
  (k <= length (startRingIndex (e_msg e0)))%nat ->
  (k <= length (endRingIndex (e_msg e0)))%nat ->
  let e' := for_each (upto k) (emit_ring cfg s) e0 in
  sizeOfSegCloud e' = ring_offset cfg s k
  /\ Z.of_nat (length (e_segmented e')) =
     Z.of_nat (length (e_segmented e0)) + ring_offset cfg s k
  /\ startRingIndex (e_msg e') =
     map (fun i => ring_offset cfg s i + 4) (seq 0 k)
       ++ drop k (startRingIndex (e_msg e0))
  /\ endRingIndex (e_msg e') =
     map (fun i => ring_offset cfg s (S i) - 6) (seq 0 k)
       ++ drop k (endRingIndex (e_msg e0)).
Proof.
  intros H0. induction k as [|k IH]; intros Hk1 Hk2.
  - simpl. rewrite !drop_0. repeat split; lia.
  - destruct IH as (Hs & Hl & Ha & Hb); [lia | lia |].
    cbv zeta. rewrite upto_S, for_each_app, for_each_one.
    set (ek := for_each (upto k) (emit_ring cfg s) e0) in *.
    destruct (emit_ring_spec s (Z.of_nat k) ek) as (Hs' & Hl' & Ha' & Hb').
    rewrite Ha', Hb', Hs', Ha, Hb, Hs, Nat2Z.id.
    assert (Hlen : forall (f : nat -> Z), length (map f (seq 0 k)) = k)
      by (intros f; rewrite length_map, length_seq; reflexivity).
    split; [|split; [|split]].
    + reflexivity.
    + simpl ring_offset. lia.
    + destruct (lookup_lt_is_Some_2 (startRingIndex (e_msg e0)) k) as [x Hx]; [lia|].
      rewrite (drop_S _ _ _ Hx), seq_S, map_app, <- app_assoc.
      rewrite insert_app_r_alt by (rewrite Hlen; lia).
      rewrite Hlen, Nat.sub_diag. simpl. f_equal. f_equal. lia.
    + destruct (lookup_lt_is_Some_2 (endRingIndex (e_msg e0)) k) as [x Hx]; [lia|].
      rewrite (drop_S _ _ _ Hx), seq_S, map_app, <- app_assoc.
      rewrite insert_app_r_alt by (rewrite Hlen; lia).
      rewrite Hlen, Nat.sub_diag. simpl. f_equal. f_equal. lia.
Qed.

Lemma sum_snoc (l : list Z) (x : Z) : foldr Z.add 0 (l ++ [x]) = foldr Z.add 0 l + x.
Proof. induction l as [|y l IH]; simpl; lia. Qed.

(** The sum of the windows telescopes: with margin 10 it is the number of
    points emitted, with any other margin it is off by a multiple of the
    number of rings. *)
Lemma window_sum_closed (c : nat -> Z) (margin : Z) (n : nat) :
  window_sum margin (map (fun i => c i + 4) (seq 0 n))
                    (map (fun i => c (S i) - 6) (seq 0 n))
  = c n - c O + Z.of_nat n * (margin - 10).
Proof.
  unfold window_sum. induction n as [|n IH]; [simpl; lia|].
  rewrite seq_S, !map_app, zip_with_app by (rewrite !length_map; reflexivity).
  simpl. rewrite sum_snoc, IH. lia.
Qed.

Lemma nondecreasing_map (c : nat -> Z) (n : nat) :
  (forall i, c i <= c (S i)) -> nondecreasing (map c (seq 0 n)).
Proof.
  intros Hc i a b Ha Hb.
  rewrite list_lookup_fmap in Ha, Hb.
  destruct (seq 0 n !! i) as [x|] eqn:Ex; [|discriminate].
  destruct (seq 0 n !! S i) as [y|] eqn:Ey; [|discriminate].
  apply lookup_seq in Ex as [-> _]. apply lookup_seq in Ey as [-> _].
  simpl in *. injection Ha as <-. injection Hb as <-. apply Hc.
Qed.

(** [emits] reads the label and ground matrices only. *)
Lemma ring_offset_ext s s' k :
  label_mat s = label_mat s' -> ground_mat s = ground_mat s' ->
  ring_offset cfg s k = ring_offset cfg s' k.
Proof.
  intros Hl Hg. induction k as [|k IH]; simpl; [reflexivity|].
  rewrite IH. f_equal. unfold ring_points, emits. rewrite Hl, Hg. reflexivity.
Qed.

(** What the extraction loop leaves in the message and in the cloud. *)
Lemma extract_segmented_spec s :
  length (startRingIndex (seg_msg s)) = N_scan cfg ->
  length (endRingIndex (seg_msg s)) = N_scan cfg ->
  let e := extract_segmented cfg s in
  Z.of_nat (length (e_segmented e)) =
    Z.of_nat (length (segmented_cloud s)) + ring_offset cfg s (N_scan cfg)
  /\ startRingIndex (e_msg e) =
     map (fun i => ring_offset cfg s i + 4) (seq 0 (N_scan cfg))
  /\ endRingIndex (e_msg e) =
     map (fun i => ring_offset cfg s (S i) - 6) (seq 0 (N_scan cfg)).
Proof.
  intros Ha Hb. unfold extract_segmented.
  set (e0 := mkEmit _ _ _ _).
  destruct (emit_rings_spec s (N_scan cfg) e0) as (_ & Hl & Hs & He);
    [reflexivity | simpl; lia | simpl; lia |].
  simpl in *. rewrite Hs, He, Hl.
  rewrite !drop_ge by lia. rewrite !app_nil_r. auto.
Qed.

End Extraction.

(** ** The scan as a whole *)

Section Scan.

Context (cfg : Config) (lm : Libm).

Implicit Types (s : State) (msg : list PointType).

Lemma nth_def_replicate {A} (d : A) (n k : nat) : nth_def d (replicate n d) k = d.
Proof.
  unfold nth_def. destruct (replicate n d !! k) eqn:E; [|reflexivity].
  apply lookup_replicate in E as [-> _]. reflexivity.
Qed.

Lemma findStartEndAngle_some s :
  laser_cloud_in s <> [] ->
  exists s', findStartEndAngle lm s = Some s'
    /\ same_outputs (with_seg_msg (seg_msg s') s) s'
    /\ startRingIndex (seg_msg s') = startRingIndex (seg_msg s)
    /\ endRingIndex (seg_msg s') = endRingIndex (seg_msg s)
    /\ ground_mat s' = ground_mat s /\ label_mat s' = label_mat s.
Proof.
  intros Hne. unfold findStartEndAngle.
  destruct (laser_cloud_in s) as [|p l] eqn:E; [contradiction|].
  simpl head. destruct (last (p :: l)) as [q|] eqn:El.
  - eexists. split; [reflexivity|]. simpl. repeat split; rewrite ?E; reflexivity.
  - apply last_None in El. discriminate.
Qed.

Lemma findStartEndAngle_none s :
  laser_cloud_in s = [] -> findStartEndAngle lm s = None.
Proof. intros E. unfold findStartEndAngle. rewrite E. reflexivity. Qed.

(** The state on which [cloudSegmentation] runs, for a cloud that is not
    empty once its NaN points are removed. *)
Lemma before_segmentation msg s :
  removeNaNFromPointCloud msg <> [] ->
  exists s1,
    findStartEndAngle lm
      (with_laser_cloud_in (removeNaNFromPointCloud msg) (resetParameters cfg s))
    = Some s1
    /\ let s2 := groundRemoval cfg lm (projectPointCloud cfg lm s1) in
       labels_wf cfg s2 /\ label_count s2 = 1 /\ segmented_cloud s2 = []
       /\ length (startRingIndex (seg_msg s2)) = N_scan cfg
       /\ length (endRingIndex (seg_msg s2)) = N_scan cfg
       /\ forall c, in_image cfg c ->
            label_at cfg (label_mat s2) c = if not_to_label cfg s2 c then -1 else 0.
Proof.
  intros Hne.
  destruct (findStartEndAngle_some
              (with_laser_cloud_in (removeNaNFromPointCloud msg) (resetParameters cfg s)))
    as (s1 & E & O1 & Sa & Sb & G1 & L1); [exact Hne|].
  exists s1. split; [exact E|].
  destruct (projectPointCloud_frame cfg lm s1) as (O2 & G2 & L2).
  set (sp := projectPointCloud cfg lm s1) in *.
  assert (Llen : length (label_mat sp) = cloud_size cfg).
  { rewrite L2, L1. simpl. apply length_replicate. }
  assert (L0 : forall c, in_image cfg c -> label_at cfg (label_mat sp) c = 0).
  { intros c _. rewrite L2, L1. simpl. unfold label_at, mat_get.
    apply nth_def_replicate. }
  destruct (groundRemoval_spec cfg lm sp Llen L0) as (O3 & F3 & R3 & L3).
  cbv zeta in *. set (s2 := groundRemoval cfg lm sp) in *.
  destruct O1 as (_ & a2 & _ & _ & a5 & _).
  destruct O2 as (_ & b2 & _ & _ & b5 & b6 & _).
  destruct O3 as (_ & c2 & _ & _ & c5 & c6 & _ & _ & _ & c10).
  simpl in a2, a5.
  assert (Hcount : label_count s2 = 1) by congruence.
  split; [split; [congruence | lia]|].
  split; [exact Hcount|]. split; [congruence|].
  rewrite c6, b6, Sa, Sb. simpl. rewrite !length_replicate.
  repeat split. exact L3.
Qed.

(** The members the loop filling [_segmented_cloud_pure] leaves alone. *)
Lemma pure_cells_frame s :
  let s' := for_each (upto (N_scan cfg))
              (fun i => for_each (upto (horizon_scan cfg)) (pure_cell cfg i)) s in
  label_mat s' = label_mat s /\ label_count s' = label_count s
  /\ ground_mat s' = ground_mat s /\ range_mat s' = range_mat s
  /\ segmented_cloud s' = segmented_cloud s /\ seg_msg s' = seg_msg s
  /\ outlier_cloud s' = outlier_cloud s.
Proof.
  cbv zeta.
  set (P := fun s' : State =>
    label_mat s' = label_mat s /\ label_count s' = label_count s
    /\ ground_mat s' = ground_mat s /\ range_mat s' = range_mat s
    /\ segmented_cloud s' = segmented_cloud s /\ seg_msg s' = seg_msg s
    /\ outlier_cloud s' = outlier_cloud s).
  apply (for_each_inv P); [repeat split|].
  intros i s0 _ Hs0. apply (for_each_inv P); [exact Hs0|].
  intros j s1 _ Hs1. unfold P in *. unfold pure_cell.
  destruct (_ && _); simpl; exact Hs1.
Qed.

(** [cloudSegmentation] returns on every state whose label matrix is
    well formed; its result in terms of the two first loops. *)
Lemma cloudSegmentation_spec s :
  labels_wf cfg s ->
  exists s1 s',
    label_all cfg lm s = Some s1 /\ seg_step cfg s s1
    /\ (forall c, in_image cfg c -> label_at cfg (label_mat s1) c <> 0)
    /\ cloudSegmentation cfg lm s = Some s'
    /\ label_mat s' = label_mat s1 /\ label_count s' = label_count s1
    /\ ground_mat s' = ground_mat s /\ range_mat s' = range_mat s
    /\ segmented_cloud s' = e_segmented (extract_segmented cfg s1)
    /\ seg_msg s' = e_msg (extract_segmented cfg s1).
Proof.
  intros Hw.
  destruct (label_all_spec cfg lm s Hw) as (s1 & E & HS & HL).
  exists s1. eexists. split; [exact E|]. split; [exact HS|]. split; [exact HL|].
  unfold cloudSegmentation. rewrite E. split; [reflexivity|].
  match goal with |- context [for_each _ _ ?s2] =>
    destruct (pure_cells_frame s2) as (A1 & A2 & A3 & A4 & A5 & A6 & A7) end.
  cbv zeta in *. rewrite A1, A2, A3, A4, A5, A6. simpl.
  destruct HS as [(_ & _ & _ & _ & _ & _ & _ & Fr & Fg & _) _ _ _ _].
  repeat split; assumption.
Qed.

(** What a completed call of [cloudHandler] went through. *)
Lemma cloudHandler_inv msg s s' out :
  cloudHandler cfg lm msg s = Some (s', out) ->
  removeNaNFromPointCloud msg <> []
  /\ exists s2 s3,
       labels_wf cfg s2 /\ label_count s2 = 1
       /\ (forall c, in_image cfg c ->
             label_at cfg (label_mat s2) c = if not_to_label cfg s2 c then -1 else 0)
       /\ seg_step cfg s2 s3
       /\ (forall c, in_image cfg c -> label_at cfg (label_mat s3) c <> 0)
       /\ label_mat s' = label_mat s3 /\ label_count s' = label_count s3
       /\ ground_mat s' = ground_mat s2 /\ range_mat s' = range_mat s2
       /\ segmented_cloud s3 = []
       /\ length (startRingIndex (seg_msg s3)) = N_scan cfg
       /\ length (endRingIndex (seg_msg s3)) = N_scan cfg
       /\ out_segmented_cloud out = e_segmented (extract_segmented cfg s3)
       /\ out_seg_msg out = e_msg (extract_segmented cfg s3).
Proof.
  intros Hrun.
  destruct (decide (removeNaNFromPointCloud msg = [])) as [Hnil|Hne].
  { unfold cloudHandler in Hrun. rewrite findStartEndAngle_none in Hrun by exact Hnil.
    discriminate. }
  split; [exact Hne|].
  destruct (before_segmentation msg s Hne) as (s1 & E1 & Hw & Hc1 & Hsc & Hsa & Hsb & Hl2).
  cbv zeta in *. set (s2 := groundRemoval cfg lm (projectPointCloud cfg lm s1)) in *.
  destruct (cloudSegmentation_spec s2 Hw)
    as (s3 & sf & E3 & HS & HL & Esf & A1 & A2 & A3 & A4 & A5 & A6).
  unfold cloudHandler in Hrun. rewrite E1 in Hrun. fold s2 in Hrun.
  rewrite Esf in Hrun. injection Hrun as <- <-.
  exists s2, s3. simpl.
  pose proof (step_frame cfg s2 s3 HS) as (_ & _ & _ & _ & Fseg & _ & _ & _ & _ & Fmsg).
  rewrite Fseg, Fmsg.
  repeat (split; [assumption|]). assumption.
Qed.

Lemma cloudHandler_total msg s :
  removeNaNFromPointCloud msg <> [] -> is_Some (cloudHandler cfg lm msg s).
Proof.
  intros Hne.
  destruct (before_segmentation msg s Hne) as (s1 & E1 & Hw & _).
  cbv zeta in Hw.
  destruct (cloudSegmentation_spec _ Hw) as (s3 & sf & _ & _ & _ & Esf & _).
  unfold cloudHandler. rewrite E1, Esf. eauto.
Qed.

(** The first loop of [groundRemoval] never writes -1 when no point of the
    full cloud carries the intensity -1. *)
Lemma ground_pairs_no_invalid s :
  Forall (fun p => PrimFloat.eqb (intensity p) (-1) = false) (full_cloud s) ->
  Forall (fun g => g <> -1) (ground_mat s) ->
  Forall (fun g => g <> -1) (ground_mat (groundRemoval cfg lm s)).
Proof.
  intros Hfc Hgm. unfold groundRemoval.
  set (P := fun s' : State => full_cloud s' = full_cloud s
                              /\ Forall (fun g => g <> -1) (ground_mat s')).
  set (s1 := for_each (upto (horizon_scan cfg)) _ s).
  assert (H1 : P s1).
  { subst s1. apply (for_each_inv P); [split; [reflexivity | exact Hgm]|].
    intros j s0 _ Hs0. apply (for_each_inv P); [exact Hs0|].
    intros i s2 _ [Hf Hg]. unfold P.
    destruct (ground_pair_frame cfg lm j i s2) as (_ & Ff & _).
    split; [congruence|].
    assert (Hint : forall k, PrimFloat.eqb
                     (intensity (nth_def PointXYZI_default (full_cloud s2) k)) (-1)
                   = false).
    { intros k. unfold nth_def. destruct (full_cloud s2 !! k) as [q|] eqn:Eq.
      - simpl. rewrite Hf in Eq. rewrite Forall_forall in Hfc.
        apply Hfc. eapply list_elem_of_lookup_2, Eq.
      - reflexivity. }
    unfold ground_pair. rewrite !Hint. simpl orb. cbv iota.
    destruct (PrimFloat.leb _ _); [|exact Hg].
    simpl. unfold mat_set. apply Forall_insert; [apply Forall_insert|]; auto; lia. }
  destruct H1 as [_ Hg1].
  set (Q := fun s' : State => ground_mat s' = ground_mat s1).
  assert (H2 : Q (for_each (upto (N_scan cfg))
                    (fun i => for_each (upto (horizon_scan cfg)) (mark_label cfg i)) s1)).
  { apply (for_each_inv Q); [reflexivity|].
    intros i s0 _ Hs0. apply (for_each_inv Q); [exact Hs0|].
    intros j s2 _ Hs2. unfold Q in *.
    destruct (mark_label_frame cfg i j s2) as (_ & _ & _ & Fg). congruence. }
  match goal with |- Forall _ (ground_mat (for_each _ _ ?s2)) =>
    assert (H3 : Q (for_each (upto (S (groundScanInd cfg)))
                      (fun i => for_each (upto (horizon_scan cfg)) (push_ground cfg i)) s2))
  end.
  { apply (for_each_inv Q); [exact H2|].
    intros i s0 _ Hs0. apply (for_each_inv Q); [exact Hs0|].
    intros j s3 _ Hs3. unfold Q in *.
    destruct (push_ground_frame cfg i j s3) as (_ & _ & _ & Fg & _). congruence. }
  unfold Q in H3. rewrite H3. exact Hg1.
Qed.

End Scan.

(** ** The properties of the specification *)

Import Examples.

(** C3, as amended (margin 10 in place of 11).  For every scan that
    [cloudHandler] processes, the number of points of the segmented cloud is
    the sum over the rings of [endRingIndex[i] - startRingIndex[i] + 10];
    [startRingIndex[i]] is the size of the cloud before ring [i] minus 1 plus
    5, [endRingIndex[i]] the size after the ring minus 1 minus 5; both arrays
    are non-decreasing from one ring to the next. *)
Theorem cloudHandler_ring_windows (cfg : Config) (lm : Libm) (msg : list PointType)
    (s s' : State) (out : ProjectionOut) :
  cloudHandler cfg lm msg s = Some (s', out) ->
  let starts := startRingIndex (out_seg_msg out) in
  let ends := endRingIndex (out_seg_msg out) in
  Z.of_nat (length (out_segmented_cloud out)) = window_sum 10 starts ends
  /\ starts = map (fun i => ring_offset cfg s' i - 1 + 5) (seq 0 (N_scan cfg))
  /\ ends = map (fun i => ring_offset cfg s' (S i) - 1 - 5) (seq 0 (N_scan cfg))
  /\ nondecreasing starts /\ nondecreasing ends.
Proof.
  intros Hrun.
  destruct (cloudHandler_inv cfg lm msg s s' out Hrun)
    as (_ & s2 & s3 & _ & _ & _ & HS & _ & L & _ & G & _ & Eseg & La & Lb & Os & Om).
  destruct (extract_segmented_spec cfg s3 La Lb) as (Hlen & Hst & Hen).
  pose proof (step_frame cfg s2 s3 HS) as (_ & _ & _ & _ & _ & _ & _ & _ & Fg & _).
  assert (Hoff : forall k, ring_offset cfg s3 k = ring_offset cfg s' k).
  { intros k. apply ring_offset_ext; congruence. }
  cbv zeta. rewrite Os, Om, Hst, Hen, Hlen, Eseg.
  split; [|split; [|split; [|split]]].
  - rewrite (window_sum_closed (ring_offset cfg s3) 10 (N_scan cfg)). simpl. lia.
  - apply map_ext. intros i. rewrite Hoff. lia.
  - apply map_ext. intros i. rewrite Hoff. lia.
  - apply (nondecreasing_map (fun i => ring_offset cfg s3 i + 4)).
    intros i. pose proof (ring_offset_mono cfg s3 i). lia.
  - apply (nondecreasing_map (fun i => ring_offset cfg s3 (S i) - 6)).
    intros i. pose proof (ring_offset_mono cfg s3 (S i)). lia.
Qed.

(** C3, witness: the two-ring scan [scan2x8]. *)
Lemma cloudHandler_ring_windows_witness :
  exists s' out,
    cloudHandler cfg2x8 Reference.libm scan2x8 (initial_state cfg2x8) = Some (s', out)
    /\ Z.of_nat (length (out_segmented_cloud out))
       = window_sum 10 (startRingIndex (out_seg_msg out)) (endRingIndex (out_seg_msg out)).
Proof.
  eexists _, _. split; [vm_compute; reflexivity|].
  eapply (cloudHandler_ring_windows cfg2x8 Reference.libm scan2x8 (initial_state cfg2x8)).
  vm_compute. reflexivity.
Defined.

(** C3 as stated fails: on [scan2x8] the segmented cloud has 2 points, the
    rings' windows are [4, -5] and [5, -4], and the sum with margin 11
    is 4. *)
Lemma ring_windows_margin_11_fails :
  exists s' out,
    cloudHandler cfg2x8 Reference.libm scan2x8 (initial_state cfg2x8) = Some (s', out)
    /\ Z.of_nat (length (out_segmented_cloud out))
       <> window_sum 11 (startRingIndex (out_seg_msg out)) (endRingIndex (out_seg_msg out)).
Proof.
  eexists _, _. split; [vm_compute; reflexivity|].
  vm_compute. discriminate.
Qed.

(** C5.  After [cloudSegmentation], in every scan [cloudHandler] processes,
    no cell of the image has label 0; a cell that is ground or has no return
    (range [FLT_MAX]) carries -1; every other cell carries the rejection
    mark 999999 or the identifier of an accepted cluster, between 1 and
    [_label_count - 1]. *)
Theorem cloudHandler_labels_partition (cfg : Config) (lm : Libm)
    (msg : list PointType) (s s' : State) (out : ProjectionOut) (c : Coord2D) :
  cloudHandler cfg lm msg s = Some (s', out) ->
  in_image cfg c ->
  label_at cfg (label_mat s') c <> 0
  /\ if not_to_label cfg s' c
     then label_at cfg (label_mat s') c = -1
     else label_at cfg (label_mat s') c = 999999
          \/ 1 <= label_at cfg (label_mat s') c < label_count s'.
Proof.
  intros Hrun Hc.
  destruct (cloudHandler_inv cfg lm msg s s' out Hrun)
    as (_ & s2 & s3 & _ & Hc1 & Hl2 & HS & HL & L & C & G & R & _).
  pose proof (step_frame cfg s2 s3 HS) as (_ & _ & _ & _ & _ & _ & _ & Fr & Fg & _).
  rewrite L, C. split; [apply HL, Hc|].
  rewrite (not_to_label_ext cfg s2 s' c) by congruence.
  specialize (Hl2 c Hc).
  destruct (step_labels cfg s2 s3 HS c Hc) as [E|[Z0 [E|E]]].
  - destruct (not_to_label cfg s2 c).
    + congruence.
    + exfalso. apply (HL c Hc). congruence.
  - destruct (not_to_label cfg s2 c); [congruence | left; exact E].
  - destruct (not_to_label cfg s2 c); [congruence | right; lia].
Qed.

(** C5, witness: the cell (0, 4) of [scan2x8], a wall return whose cluster
    of two cells is rejected. *)
Lemma cloudHandler_labels_partition_witness :
  exists s' out,
    cloudHandler cfg2x8 Reference.libm scan2x8 (initial_state cfg2x8) = Some (s', out)
    /\ in_image cfg2x8 (0, 4)
    /\ label_at cfg2x8 (label_mat s') (0, 4) <> 0.
Proof.
  eexists _, _. split; [vm_compute; reflexivity|].
  split; [vm_compute; intuition discriminate|].
  eapply (cloudHandler_labels_partition cfg2x8 Reference.libm scan2x8
            (initial_state cfg2x8)).
  - vm_compute. reflexivity.
  - vm_compute. intuition discriminate.
Defined.

(** C10.  [findStartEndAngle] reads the first and the last point of the
    cloud without a guard: it returns exactly when the cloud is not empty,
    and [cloudHandler], which calls it unconditionally, returns exactly when
    the incoming cloud keeps a point after the removal of NaN points. *)
Theorem findStartEndAngle_needs_points (cfg : Config) (lm : Libm)
    (msg : list PointType) (s : State) :
  (findStartEndAngle lm s = None <-> laser_cloud_in s = [])
  /\ (cloudHandler cfg lm msg s = None <-> removeNaNFromPointCloud msg = []).
Proof.
  split; split.
  - intros Hn. destruct (decide (laser_cloud_in s = [])) as [E|E]; [exact E|].
    destruct (findStartEndAngle_some lm s E) as (s1 & E1 & _). congruence.
  - apply findStartEndAngle_none.
  - intros Hn. destruct (decide (removeNaNFromPointCloud msg = [])) as [E|E]; [exact E|].
    destruct (cloudHandler_total cfg lm msg s E) as [r Hr]. congruence.
  - intros E. unfold cloudHandler. rewrite findStartEndAngle_none by exact E.
    reflexivity.
Qed.

(** C4 fails on the code.  [resetParameters] fills the full cloud with a
    point whose intensity is that of the default constructor, 0, and
    [groundRemoval] recognizes an absent point by the intensity -1: when no
    point of the full cloud carries -1, no cell of [_ground_mat] is ever
    set to -1. *)
Theorem groundRemoval_never_marks_invalid (cfg : Config) (lm : Libm) (s : State) :
  Forall (fun p => PrimFloat.eqb (intensity p) (-1) = false) (full_cloud s) ->
  Forall (fun g => g <> -1) (ground_mat s) ->
  Forall (fun g => g <> -1) (ground_mat (groundRemoval cfg lm s)).
Proof. apply ground_pairs_no_invalid. Qed.

(** C4, witness: the image of [scan2x8] after projection.  Twelve of its
    sixteen cells are absent, and none is marked. *)
Lemma groundRemoval_never_marks_invalid_witness :
  let s := projectPointCloud cfg2x8 Reference.libm
             (with_laser_cloud_in scan2x8
                (resetParameters cfg2x8 (initial_state cfg2x8))) in
  nth_def PointXYZI_default (full_cloud s) (cellZ cfg2x8 0 0) = nanPoint
  /\ mat_get cfg2x8 0 (ground_mat (groundRemoval cfg2x8 Reference.libm s)) 0 0 = 0
  /\ Forall (fun g => g <> -1) (ground_mat (groundRemoval cfg2x8 Reference.libm s)).
Proof.
  cbv zeta. split; [vm_compute; reflexivity|]. split; [vm_compute; reflexivity|].
  apply groundRemoval_never_marks_invalid.
  - vm_compute. repeat constructor.
  - vm_compute. repeat (constructor; [discriminate|]). constructor.
Defined.

(** C6 fails on the code.  [lineCountFlag] is set for the row of a cell
    when the cell is pushed as a neighbour, never for the row of the seed:
    the wall of 29 returns [wall29] spans the three rings, its only cell on
    ring 0 is the seed, so the count of rows is 2 and the cluster is
    rejected: its 29 cells carry 999999 and no identifier is issued. *)
Theorem labelComponents_misses_seed_row :
  exists s' out,
    cloudHandler cfg3x14 Reference.libm wall29 (initial_state cfg3x14) = Some (s', out)
    /\ label_mat s' = 999999 :: replicate 13 (-1) ++ replicate 28 999999
    /\ label_count s' = 1.
Proof.
  eexists _, _. split; [vm_compute; reflexivity|].
  split; vm_compute; reflexivity.
Qed.

End ImageProjectionFacts.

(** * Properties of the association stage *)

Module FeatureAssociationFacts.
Import ImageProjection FeatureAssociation Examples.

(** ** The degeneracy check *)

(** The scan of the eigenvalues stops at the first one, of index 2, that is
    not below its threshold. *)
Lemma degeneracy_scan_first (matE eignThre : Vec) (matV : Mat) :
  snd (degeneracy_scan [2; 1; 0]%nat matE eignThre (matV, false))
  = PrimFloat.ltb (vget matE 2) (vget eignThre 2).
Proof.
  simpl. destruct (PrimFloat.ltb (vget matE 2) (vget eignThre 2)); [|reflexivity].
  destruct (PrimFloat.ltb (vget matE 1) (vget eignThre 1)); [|reflexivity].
  destruct (PrimFloat.ltb (vget matE 0) (vget eignThre 0)); reflexivity.
Qed.

(** C1 fails on the code.  The check of iteration 0 leaves
    [isDegenerate = false] exactly when the eigenvalue of index 2 is not
    below 10, whatever the two others are; [SelfAdjointEigenSolver] returns
    the eigenvalues in increasing order, so that one is the largest.  On the
    residuals [flat_residuals], whose [matAtA] has the eigenvalues 1, 2 and
    28, the surface solve reports "not degenerate". *)
Theorem degeneracy_check_reads_largest_eigenvalue :
  (forall (eg : EigenLib) (matAtA : Mat),
     fst (degeneracy_check eg matAtA)
     = PrimFloat.ltb (vget (eigenvalues eg matAtA) 2) 10)
  /\ (let rows := zip_with (surf_row Reference.libm [0; 0; 0; 0; 0; 0]%float)
                    (map fst flat_residuals) (map snd flat_residuals) in
      eigenvalues diagonal_eigen (AtA (map fst rows)) = [1; 2; 28]%float
      /\ isDegenerate
           (fst (calculateTransformationSurf Reference.libm diagonal_eigen 0 zero3
                   (solve_of flat_residuals false))) = false).
Proof.
  split.
  - intros eg matAtA. unfold degeneracy_check.
    pose proof (degeneracy_scan_first (eigenvalues eg matAtA) [10; 10; 10]%float
                  (eigenvectors eg matAtA)) as H.
    destruct (degeneracy_scan _ _ _ _) as [matV2 d]. simpl in *. exact H.
  - cbv zeta. split; vm_compute; reflexivity.
Qed.

(** ** The projection of the solves *)

Import SolveCalls Scenarios.

(** *** Zeros and finite values *)














(** *** One call of a solve *)













Section Calls.

Context (lm : Libm) (eg : EigenLib).





End Calls.

(** *** The loops *)

Section Loops.

Context (lm : Libm) (eg : EigenLib) (Hidden : Type) (ext : Externals Hidden).

Implicit Types (w : Work Hidden) (sv : Solve).

(** The loops with their calls end in the state of the loops. *)
Lemma surf_iterations_log_state iters w sv :
  fst (surf_iterations_log lm eg ext iters w sv) = surf_iterations lm eg ext iters w sv.
Proof.
  revert w sv. induction iters as [|k rest IH]; intros w sv; [reflexivity|].
  cbn [surf_iterations_log surf_iterations].
  destruct (findCorrespondingSurfFeatures _ ext k (transformCur sv) w) as [[w1 ori] coeff].
  destruct (length ori <? 10)%nat; [apply IH|].
  destruct (calculateTransformationSurf lm eg k _ _) as [sv2 again].
  destruct again; [|reflexivity].
  rewrite <- IH. destruct (surf_iterations_log lm eg ext rest w1 sv2) as [[w3 sv3] cs].
  reflexivity.
Qed.

Lemma corner_iterations_log_state iters w sv :
  fst (corner_iterations_log lm eg ext iters w sv)
  = corner_iterations lm eg ext iters w sv.
Proof.
  revert w sv. induction iters as [|k rest IH]; intros w sv; [reflexivity|].
  cbn [corner_iterations_log corner_iterations].
  destruct (findCorrespondingCornerFeatures _ ext k (transformCur sv) w)
    as [[w1 ori] coeff].
  destruct (length ori <? 10)%nat; [apply IH|].
  destruct (calculateTransformationCorner lm eg k _ _) as [sv2 again].
  destruct again; [|reflexivity].
  rewrite <- IH. destruct (corner_iterations_log lm eg ext rest w1 sv2) as [[w3 sv3] cs].
  reflexivity.
Qed.







End Loops.



(** ** Feature extraction *)

Section Features.

Context (edgeThreshold surfThreshold : float)
        (sort_by_value : list smoothness_t -> list smoothness_t)
        (segInfo : cloud_info) (segmentedCloud : list PointType).

Implicit Types (f : Features) (picked : list Z) (i k n : Z).

Lemma length_zset {A} (l : list A) k (v : A) : length (zset l k v) = length l.
Proof. unfold zset. destruct (k <? 0); [reflexivity | apply length_insert]. Qed.

Lemma zget_zset_eq {A} (d : A) (l : list A) k (v : A) :
  0 <= k < Z.of_nat (length l) -> zget d (zset l k v) k = v.
Proof.
  intros Hk. unfold zget, zset, nth_def.
  destruct (k <? 0) eqn:E; [lia|].
  rewrite list_lookup_insert_eq by lia. reflexivity.
Qed.

Lemma zget_zset_ne {A} (d : A) (l : list A) k k' (v : A) :
  k <> k' -> zget d (zset l k v) k' = zget d l k'.
Proof.
  intros Hne. unfold zget, zset, nth_def.
  destruct (k' <? 0) eqn:E'; [reflexivity|].
  destruct (k <? 0) eqn:E; [reflexivity|].
  rewrite list_lookup_insert_ne by lia. reflexivity.
Qed.

(** A write of 1 leaves an entry as it was or makes it 1. *)
Lemma zget_zset_one picked k k' :
  zget 0 (zset picked k 1) k' = zget 0 picked k' \/ zget 0 (zset picked k 1) k' = 1.
Proof.
  destruct (decide (k = k')) as [<-|Hne]; [|left; apply zget_zset_ne, Hne].
  unfold zget, zset, nth_def. destruct (k <? 0); [left; reflexivity|].
  destruct (decide (Z.to_nat k < length picked)%nat) as [Hl|Hl].
  - right. rewrite list_lookup_insert_eq by exact Hl. reflexivity.
  - left. rewrite list_insert_ge by lia. reflexivity.
Qed.

Lemma mark_after_spec ls i picked :
  length (mark_after segInfo ls i picked) = length picked
  /\ forall k, zget 0 (mark_after segInfo ls i picked) k = zget 0 picked k
               \/ zget 0 (mark_after segInfo ls i picked) k = 1.
Proof.
  revert picked. induction ls as [|l ls IH]; intros picked; simpl.
  - split; [reflexivity | auto].
  - destruct (_ >=? _); [apply IH|].
    destruct (_ >? _); [split; [reflexivity | auto]|].
    destruct (IH (zset picked (i + l) 1)) as [Hl Hk].
    split; [rewrite Hl; apply length_zset|].
    intros k. destruct (Hk k) as [E|E]; [|right; exact E].
    rewrite E. apply zget_zset_one.
Qed.

Lemma mark_before_spec ls i picked :
  length (mark_before segInfo ls i picked) = length picked
  /\ forall k, zget 0 (mark_before segInfo ls i picked) k = zget 0 picked k
               \/ zget 0 (mark_before segInfo ls i picked) k = 1.
Proof.
  revert picked. induction ls as [|l ls IH]; intros picked; simpl.
  - split; [reflexivity | auto].
  - destruct (_ <? _); [apply IH|].
    destruct (_ >? _); [split; [reflexivity | auto]|].
    destruct (IH (zset picked (i + l) 1)) as [Hl Hk].
    split; [rewrite Hl; apply length_zset|].
    intros k. destruct (Hk k) as [E|E]; [|right; exact E].
    rewrite E. apply zget_zset_one.
Qed.

(** What [suppress] does to the array of picked points. *)
Lemma suppress_spec i f :
  0 <= i < Z.of_nat (length (cloudNeighborPicked f)) ->
  length (cloudNeighborPicked (suppress segInfo i f)) = length (cloudNeighborPicked f)
  /\ picked_at (suppress segInfo i f) i <> 0
  /\ forall k, picked_at f k <> 0 -> picked_at (suppress segInfo i f) k <> 0.
Proof.
  intros Hi. unfold suppress, picked_at, with_cloudNeighborPicked.
  cbn [cloudNeighborPicked].
  set (p0 := zset (cloudNeighborPicked f) i 1).
  destruct (mark_after_spec [1; 2; 3; 4; 5] i p0) as [L1 K1].
  set (p1 := mark_after segInfo [1; 2; 3; 4; 5] i p0) in *.
  destruct (mark_before_spec [-1; -2; -3; -4; -5] i p1) as [L2 K2].
  set (p2 := mark_before segInfo [-1; -2; -3; -4; -5] i p1) in *.
  assert (H0 : zget 0 p0 i = 1) by (apply zget_zset_eq; exact Hi).
  assert (Hstep : forall k, zget 0 p0 k <> 0 -> zget 0 p2 k <> 0).
  { intros k Hk. destruct (K2 k) as [E2|E2]; [|lia].
    destruct (K1 k) as [E1|E1]; lia. }
  split; [subst p0; rewrite L2, L1; apply length_zset|].
  split; [apply Hstep; lia|].
  intros k Hk. apply Hstep. subst p0.
  destruct (zget_zset_one (cloudNeighborPicked f) i k); lia.
Qed.

Lemma keeps_refl f : keeps f f.
Proof. intros k Hk. auto. Qed.

Lemma keeps_trans f1 f2 f3 : keeps f1 f2 -> keeps f2 f3 -> keeps f1 f3.
Proof.
  intros H12 H23 k Hk. destruct (H12 k Hk) as [P2 L2].
  destruct (H23 k P2) as [P3 L3]. split; [exact P3 | congruence].
Qed.

(** Every index the passes read from [cloudSmoothness] lies in the arrays. *)
Lemma ind_in_range f k :
  features_wf f ->
  0 <= ind (zget (mkSmoothness 0 0) (cloudSmoothness f) k)
    < Z.of_nat (length (cloudLabel f)).
Proof.
  intros (_ & Hpos & Hall). unfold zget, nth_def.
  destruct (k <? 0); [simpl; lia|].
  destruct (cloudSmoothness f !! Z.to_nat k) as [x|] eqn:E; [|simpl; lia].
  simpl. rewrite Forall_forall in Hall. apply Hall.
  eapply list_elem_of_lookup_2, E.
Qed.

(** The effect of accepting the point [i]: [g] is [f] with the label of [i]
    set to [v] and possibly with clouds extended. *)
Lemma pick_spec i v f g :
  features_wf f -> 0 <= i < Z.of_nat (length (cloudLabel f)) ->
  picked_at f i = 0 ->
  cloudNeighborPicked g = cloudNeighborPicked f ->
  cloudLabel g = zset (cloudLabel f) i v ->
  cloudSmoothness g = cloudSmoothness f ->
  (features_wf g /\ keeps f g /\ label_of g i = v)
  /\ (features_wf (suppress segInfo i g) /\ keeps f (suppress segInfo i g)
      /\ picked_at (suppress segInfo i g) i <> 0
      /\ label_of (suppress segInfo i g) i = v).
Proof.
  intros (Hlen & Hpos & Hall) Hi Hp0 Ep El Es.
  assert (Hwg : features_wf g).
  { unfold features_wf. rewrite Ep, El, Es, length_zset. auto. }
  assert (Hkg : keeps f g).
  { intros k Hk. unfold picked_at, label_of in *. rewrite Ep, El.
    split; [exact Hk|]. apply zget_zset_ne. intros ->. contradiction. }
  assert (Hlg : label_of g i = v).
  { unfold label_of. rewrite El. apply zget_zset_eq. exact Hi. }
  split; [auto|].
  destruct (suppress_spec i g) as (L & P & K).
  { rewrite Ep, Hlen. exact Hi. }
  assert (Hlab : cloudLabel (suppress segInfo i g) = cloudLabel g) by reflexivity.
  assert (Hsm : cloudSmoothness (suppress segInfo i g) = cloudSmoothness g) by reflexivity.
  split; [|split; [|split]].
  - destruct Hwg as (G1 & G2 & G3). unfold features_wf.
    rewrite L, Hlab, Hsm. auto.
  - intros k Hk. destruct (Hkg k Hk) as [Pk Lk].
    split; [apply K, Pk|]. unfold label_of in *. rewrite Hlab. exact Lk.
  - exact P.
  - unfold label_of in *. rewrite Hlab. exact Hlg.
Qed.

(** The corner pass: [sharp] and [rest] are the indices of the points it
    accepts, in order, while the counter goes from [n] to 2 and then on
    to 20. *)
Lemma corner_pass_spec ks n f :
  0 <= n -> features_wf f ->
  exists sharp rest : list Z,
    let f' := corner_pass edgeThreshold segInfo segmentedCloud ks n f in
    cornerPointsSharp f' = cornerPointsSharp f ++ map (point_at segmentedCloud) sharp
    /\ cornerPointsLessSharp f'
       = cornerPointsLessSharp f ++ map (point_at segmentedCloud) (sharp ++ rest)
    /\ surfPointsFlat f' = surfPointsFlat f
    /\ Z.of_nat (length sharp) <= Z.max 0 (2 - n)
    /\ Z.of_nat (length sharp + length rest) <= Z.max 0 (20 - n)
    /\ (rest <> [] -> Z.of_nat (length sharp) = Z.max 0 (2 - n))
    /\ features_wf f' /\ keeps f f'
    /\ (forall k, k ∈ sharp -> picked_at f' k <> 0 /\ label_of f' k = 2)
    /\ (forall k, k ∈ rest -> picked_at f' k <> 0 /\ label_of f' k = 1).
Proof.
  revert n f. induction ks as [|k ks IH]; intros n f Hn Hw.
  { exists [], []. simpl. rewrite !app_nil_r.
    split_and!; auto using keeps_refl; try lia; try congruence;
      intros k Hk; apply elem_of_nil in Hk as []. }
  cbn [corner_pass].
  set (i := ind (zget (mkSmoothness 0 0) (cloudSmoothness f) k)).
  pose proof (ind_in_range f k Hw) as Hi. fold i in Hi.
  destruct (_ && _) eqn:Econd; [|apply IH; assumption].
  apply andb_true_iff in Econd as [Econd _].
  apply andb_true_iff in Econd as [Epk _]. apply Z.eqb_eq in Epk.
  destruct (n + 1 <=? 2) eqn:E2; [|destruct (n + 1 <=? 20) eqn:E20].
  - (* a sharp corner *)
    match goal with |- context [corner_pass _ _ _ ks (n + 1) (suppress _ i ?g0)] =>
      set (g := g0) end.
    destruct (pick_spec i 2 f g Hw Hi Epk eq_refl eq_refl eq_refl)
      as (_ & Hw1 & Hk1 & Hp1 & Hl1).
    destruct (IH (n + 1) (suppress segInfo i g)) as (sharp & rest & IHs); [lia | exact Hw1|].
    cbv zeta in IHs.
    destruct IHs as (S1 & S2 & S3 & B1 & B2 & B3 & W & K & Ls & Lr).
    exists (i :: sharp), rest. cbv zeta.
    rewrite S1, S2, S3. cbn [map app length].
    split; [cbn; rewrite <- app_assoc; reflexivity|].
    split; [cbn; rewrite <- app_assoc; reflexivity|].
    split; [reflexivity|]. split; [lia|]. split; [lia|].
    split; [intros Hr; specialize (B3 Hr); lia|].
    split; [exact W|]. split; [eapply keeps_trans; eassumption|].
    split; [|exact Lr].
    intros k' Hk'. apply elem_of_cons in Hk' as [->|Hk']; [|apply Ls, Hk'].
    destruct (K i Hp1) as [P L]. split; [exact P | congruence].
  - (* a less sharp corner *)
    match goal with |- context [corner_pass _ _ _ ks (n + 1) (suppress _ i ?g0)] =>
      set (g := g0) end.
    destruct (pick_spec i 1 f g Hw Hi Epk eq_refl eq_refl eq_refl)
      as (_ & Hw1 & Hk1 & Hp1 & Hl1).
    destruct (IH (n + 1) (suppress segInfo i g)) as (sharp & rest & IHs); [lia | exact Hw1|].
    cbv zeta in IHs.
    destruct IHs as (S1 & S2 & S3 & B1 & B2 & B3 & W & K & Ls & Lr).
    assert (sharp = []) as -> by (destruct sharp; [reflexivity | simpl in B1; lia]).
    exists [], (i :: rest). cbv zeta.
    rewrite S1, S2, S3. cbn [map app length].
    split; [cbn; rewrite app_nil_r; reflexivity|].
    split; [cbn; rewrite <- app_assoc; reflexivity|].
    split; [reflexivity|]. split; [lia|]. split; [simpl in B2; lia|].
    split; [intros _; lia|].
    split; [exact W|]. split; [eapply keeps_trans; eassumption|].
    split; [intros k' Hk'; apply elem_of_nil in Hk' as []|].
    intros k' Hk'. apply elem_of_cons in Hk' as [->|Hk']; [|apply Lr, Hk'].
    destruct (K i Hp1) as [P L]. split; [exact P | congruence].
  - (* the counter passed 20: the loop is left *)
    exists [], []. cbv zeta. simpl. rewrite !app_nil_r.
    split_and!; auto using keeps_refl; try lia; try congruence;
      intros k' Hk'; apply elem_of_nil in Hk' as [].
Qed.

(** The surface pass: [flat] are the indices of the points it accepts. *)
Lemma surface_pass_spec ks n f :
  0 <= n -> features_wf f ->
  exists flat : list Z,
    let f' := surface_pass surfThreshold segInfo segmentedCloud ks n f in
    surfPointsFlat f' = surfPointsFlat f ++ map (point_at segmentedCloud) flat
    /\ cornerPointsSharp f' = cornerPointsSharp f
    /\ cornerPointsLessSharp f' = cornerPointsLessSharp f
    /\ Z.of_nat (length flat) <= Z.max 1 (4 - n)
    /\ features_wf f' /\ keeps f f'.
Proof.
  revert n f. induction ks as [|k ks IH]; intros n f Hn Hw.
  { exists []. simpl. rewrite app_nil_r. split_and!; auto using keeps_refl; lia. }
  cbn [surface_pass].
  set (i := ind (zget (mkSmoothness 0 0) (cloudSmoothness f) k)).
  pose proof (ind_in_range f k Hw) as Hi. fold i in Hi.
  destruct (_ && _) eqn:Econd; [|apply IH; assumption].
  apply andb_true_iff in Econd as [Econd _].
  apply andb_true_iff in Econd as [Epk _]. apply Z.eqb_eq in Epk.
  cbv zeta.
  match goal with |- context [suppress _ i ?g0] => set (g := g0) end.
  destruct (pick_spec i (-1) f g Hw Hi Epk eq_refl eq_refl eq_refl)
    as ((Hwg & Hkg & _) & Hw1 & Hk1 & _).
  destruct (n + 1 >=? 4) eqn:E4.
  - exists [i]. cbv zeta. split_and!; auto; simpl; lia.
  - destruct (IH (n + 1) (suppress segInfo i g)) as (flat & IHs); [lia | exact Hw1|].
    cbv zeta in IHs. destruct IHs as (S1 & S2 & S3 & B & W & K).
    exists (i :: flat). rewrite S1, S2, S3. cbn [map length].
    split; [cbn; rewrite <- app_assoc; reflexivity|].
    split; [reflexivity|]. split; [reflexivity|]. split; [lia|].
    split; [exact W | eapply keeps_trans; eassumption].
Qed.

(** The last loop of a sector only fills the less-flat cloud of the ring. *)
Lemma less_flat_pass_frame ks f :
  let f' := less_flat_pass segmentedCloud ks f in
  cloudLabel f' = cloudLabel f
  /\ cloudNeighborPicked f' = cloudNeighborPicked f
  /\ cloudSmoothness f' = cloudSmoothness f
  /\ cornerPointsSharp f' = cornerPointsSharp f
  /\ cornerPointsLessSharp f' = cornerPointsLessSharp f
  /\ surfPointsFlat f' = surfPointsFlat f.
Proof.
  cbv zeta. unfold less_flat_pass.
  apply (ImageProjectionFacts.for_each_inv
           (fun f' => cloudLabel f' = cloudLabel f
                      /\ cloudNeighborPicked f' = cloudNeighborPicked f
                      /\ cloudSmoothness f' = cloudSmoothness f
                      /\ cornerPointsSharp f' = cornerPointsSharp f
                      /\ cornerPointsLessSharp f' = cornerPointsLessSharp f
                      /\ surfPointsFlat f' = surfPointsFlat f)).
  - split_and!; reflexivity.
  - intros k f0 _ H. destruct (_ <=? _); exact H.
Qed.

(** [std::sort] on a range keeps the indices of the array inside it. *)
Lemma sort_range_wf sp ep f :
  (forall l x, x ∈ sort_by_value l -> x ∈ l) ->
  features_wf f ->
  features_wf (with_cloudSmoothness
                 (sort_range sort_by_value sp ep (cloudSmoothness f)) f).
Proof.
  intros Hsort (Hlen & Hpos & Hall). unfold features_wf. simpl.
  split_and!; [exact Hlen | exact Hpos |]. unfold sort_range.
  rewrite !Forall_app. split_and!.
  - apply Forall_take, Hall.
  - rewrite Forall_forall. intros x Hx. apply Hsort in Hx.
    revert x Hx. rewrite <- Forall_forall. apply Forall_take, Forall_drop, Hall.
  - apply Forall_drop, Hall.
Qed.

End Features.

(** C9. In one ring-sector, [extractFeatures] appends at most 2 points to
    [cornerPointsSharp], at most 20 points to [cornerPointsLessSharp] and at
    most 4 points to [surfPointsFlat].  The points appended to
    [cornerPointsLessSharp] start with the sharp ones, which carry the label
    2 at the end of the sector; the others carry the label 1 and are only
    there once two sharp points were found.  The arrays stay well formed, so
    that the statement applies to every sector of every ring in turn. *)
Theorem extract_sector_feature_counts
    (edgeThreshold surfThreshold : float)
    (sort_by_value : list smoothness_t -> list smoothness_t)
    (segInfo : cloud_info) (segmentedCloud : list PointType)
    (i j : Z) (f : Features) :
  (forall l x, x ∈ sort_by_value l -> x ∈ l) ->
  features_wf f ->
  exists sharp rest flat : list Z,
    let f' := extract_sector edgeThreshold surfThreshold sort_by_value
                segInfo segmentedCloud i j f in
    cornerPointsSharp f' = cornerPointsSharp f ++ map (point_at segmentedCloud) sharp
    /\ cornerPointsLessSharp f'
       = cornerPointsLessSharp f ++ map (point_at segmentedCloud) (sharp ++ rest)
    /\ surfPointsFlat f' = surfPointsFlat f ++ map (point_at segmentedCloud) flat
    /\ (length sharp <= 2)%nat
    /\ (length (sharp ++ rest) <= 20)%nat
    /\ (length flat <= 4)%nat
    /\ (rest <> [] -> length sharp = 2%nat)
    /\ (forall k, k ∈ sharp -> label_of f' k = 2)
    /\ (forall k, k ∈ rest -> label_of f' k = 1)
    /\ features_wf f'.
Proof.
  intros Hsort Hw. unfold extract_sector. cbv zeta.
  set (sp := sector_sp segInfo i j). set (ep := sector_ep segInfo i j).
  destruct (sp >=? ep).
  { exists [], [], []. simpl. rewrite !app_nil_r.
    split_and!; auto; try lia; try congruence;
      intros k Hk; apply elem_of_nil in Hk as []. }
  unfold sector_surfaces, sector_corners.
  set (f0 := with_cloudSmoothness _ f).
  assert (Hw0 : features_wf f0) by (apply sort_range_wf; assumption).
  destruct (corner_pass_spec edgeThreshold segInfo segmentedCloud
              (rev (zrange sp (ep + 1))) 0 f0) as (sharp & rest & Hc);
    [lia | exact Hw0 |].
  cbv zeta in Hc. set (f1 := corner_pass _ _ _ _ 0 f0) in *.
  destruct Hc as (C1 & C2 & C3 & B1 & B2 & B3 & W1 & _ & Ls & Lr).
  destruct (surface_pass_spec surfThreshold segInfo segmentedCloud
              (zrange sp (ep + 1)) 0 f1) as (flat & Hs); [lia | exact W1 |].
  cbv zeta in Hs. set (f2 := surface_pass _ _ _ _ 0 f1) in *.
  destruct Hs as (S1 & S2 & S3 & B4 & W2 & K2).
  destruct (less_flat_pass_frame segmentedCloud (zrange sp (ep + 1)) f2)
    as (F1 & F2 & F3 & F4 & F5 & F6).
  set (f3 := less_flat_pass _ _ f2) in *.
  exists sharp, rest, flat.
  rewrite F4, F5, F6, S1, S2, S3, C1, C2, C3, length_app.
  split_and!; try reflexivity; try lia.
  - intros Hr. specialize (B3 Hr). lia.
  - intros k Hk. destruct (Ls k Hk) as [P L]. destruct (K2 k P) as [_ L2].
    unfold label_of in *. rewrite F1. congruence.
  - intros k Hk. destruct (Lr k Hk) as [P L]. destruct (K2 k P) as [_ L2].
    unfold label_of in *. rewrite F1. congruence.
  - destruct W2 as (G1 & G2 & G3). unfold features_wf. rewrite F1, F2, F3. auto.
Qed.

(** The first sector of [ring30_features]: the bound applies, and the run
    picks the two sharp points 19 and 18, the less sharp points 17, 16 and
    15 and the four flat points 10 to 13. *)
Lemma extract_sector_feature_counts_witness :
  features_wf ring30_features
  /\ exists sharp rest flat : list Z,
       let f' := extract_sector 0x1.999999999999ap-4 0x1.999999999999ap-4
                   (fun l => l) ring30_info ring30_cloud 0 0 ring30_features in
       cornerPointsSharp f'
       = cornerPointsSharp ring30_features ++ map (point_at ring30_cloud) sharp
       /\ cornerPointsLessSharp f'
          = cornerPointsLessSharp ring30_features
            ++ map (point_at ring30_cloud) (sharp ++ rest)
       /\ surfPointsFlat f'
          = surfPointsFlat ring30_features ++ map (point_at ring30_cloud) flat
       /\ (length sharp <= 2)%nat
       /\ (length (sharp ++ rest) <= 20)%nat
       /\ (length flat <= 4)%nat
       /\ (rest <> [] -> length sharp = 2%nat)
       /\ (forall k, k ∈ sharp -> label_of f' k = 2)
       /\ (forall k, k ∈ rest -> label_of f' k = 1)
       /\ features_wf f'.
Proof.
  assert (Hw : features_wf ring30_features).
  { unfold features_wf. split_and!; [reflexivity | simpl; lia |].
    vm_compute. repeat constructor; discriminate. }
  split; [exact Hw|].
  apply (extract_sector_feature_counts 0x1.999999999999ap-4 0x1.999999999999ap-4
           (fun l => l) ring30_info ring30_cloud 0 0 ring30_features);
    [intros l x Hx; exact Hx | exact Hw].
Defined.

Lemma ring30_first_sector :
  let f' := extract_sector 0x1.999999999999ap-4 0x1.999999999999ap-4
              (fun l => l) ring30_info ring30_cloud 0 0 ring30_features in
  cornerPointsSharp f' = map (point_at ring30_cloud) [19; 18]
  /\ cornerPointsLessSharp f' = map (point_at ring30_cloud) [19; 18; 17; 16; 15]
  /\ surfPointsFlat f' = map (point_at ring30_cloud) [10; 11; 12; 13]
  /\ map (label_of f') [19; 18; 17; 16; 15] = [2; 2; 1; 1; 1].
Proof. vm_compute. split_and!; reflexivity. Qed.

(** ** The scan loop *)

Section ScanLoop.

Context (lm : Libm) (eg : EigenLib) (Hidden : Type) (ext : Externals Hidden).

Implicit Types (s : State Hidden) (p : ProjectionOut).

Lemma updateInitialGuess_frame s :
  transformSum (updateInitialGuess ext s) = transformSum s
  /\ systemInitedLM (updateInitialGuess ext s) = systemInitedLM s
  /\ laserCloudCornerLastNum (updateInitialGuess ext s) = laserCloudCornerLastNum s
  /\ laserCloudSurfLastNum (updateInitialGuess ext s) = laserCloudSurfLastNum s.
Proof. repeat split. Qed.

Lemma updateTransformation_frame s :
  transformSum (updateTransformation lm eg ext s) = transformSum s.
Proof.
  unfold updateTransformation.
  destruct (_ || _); [reflexivity|].
  destruct (surf_iterations _ _ _ _ _ _) as [w1 sv1].
  destruct (corner_iterations _ _ _ _ _ _) as [w2 sv2]. reflexivity.
Qed.

Lemma feature_extraction_frame p s :
  transformSum (feature_extraction ext p s) = transformSum s
  /\ solve (feature_extraction ext p s) = solve s
  /\ systemInitedLM (feature_extraction ext p s) = systemInitedLM s
  /\ laserCloudCornerLastNum (feature_extraction ext p s) = laserCloudCornerLastNum s
  /\ laserCloudSurfLastNum (feature_extraction ext p s) = laserCloudSurfLastNum s.
Proof.
  unfold feature_extraction. destruct (adjustDistortion _ _ _ _) as [m1 w1].
  repeat split.
Qed.

Lemma publishOdometry_frame s :
  transformSum (fst (publishOdometry ext s)) = transformSum s
  /\ snd (publishOdometry ext s)
     = PublishOdometry (laserOdometry (fst (publishOdometry ext s)))
  /\ position (laserOdometry (fst (publishOdometry ext s)))
     = (tget (transformSum s) 3, tget (transformSum s) 4, tget (transformSum s) 5).
Proof.
  unfold publishOdometry.
  destruct (createQuaternionMsgFromRollPitchYaw _ _ _ _ _) as [[[qx qy] qz] qw].
  repeat split.
Qed.

Lemma publishCloudsLast_frame s :
  transformSum (publishCloudsLast ext s) = transformSum s
  /\ solve (publishCloudsLast ext s) = solve s.
Proof. repeat split. Qed.

(** The association half: the pose it leaves and what it sends. *)
Lemma associate_spec s :
  let s3 := integrateTransformation lm
              (updateTransformation lm eg ext (updateInitialGuess ext s)) in
  transformSum (fst (associate lm eg ext s)) = transformSum s3
  /\ solve (fst (associate lm eg ext s)) = solve s3
  /\ exists o, head (snd (associate lm eg ext s)) = Some (PublishOdometry o)
       /\ position o = (tget (transformSum s3) 3, tget (transformSum s3) 4,
                        tget (transformSum s3) 5).
Proof.
  cbv zeta. unfold associate.
  generalize (integrateTransformation lm
                (updateTransformation lm eg ext (updateInitialGuess ext s))).
  intros s3. unfold publishOdometry.
  destruct (createQuaternionMsgFromRollPitchYaw _ _ _ _ _) as [[[qx qy] qz] qw].
  cbv zeta. destruct (_ =? _);
    cbn [fst snd head transformSum solve publishCloudsLast];
    (split; [reflexivity|]); (split; [reflexivity|]); eexists;
    (split; [reflexivity|]); reflexivity.
Qed.

(** A scan of the initialized stage. *)
Lemma scan_initialized p s :
  systemInitedLM (feature_extraction ext p s) = true ->
  scan lm eg ext p s = associate lm eg ext (feature_extraction ext p s).
Proof. intros Hinit. unfold scan. cbv zeta. rewrite Hinit. reflexivity. Qed.

(** A scan of the stage before its initialization. *)
Lemma scan_first p s :
  systemInitedLM (feature_extraction ext p s) = false ->
  scan lm eg ext p s
  = (checkSystemInitialization ext (feature_extraction ext p s), []).
Proof. intros Hinit. unfold scan. cbv zeta. rewrite Hinit. reflexivity. Qed.

End ScanLoop.

(** C7, as amended.  When the target clouds of the previous scan are sparse
    (fewer than 10 corner points or fewer than 100 surface points),
    [updateTransformation] runs no solver iteration and returns the state it
    was given; the scan goes on: it integrates the increment [transformCur]
    that [updateInitialGuess] left (the increment of the previous scan with
    the IMU guess, not the identity in general) and publishes the pose. *)
Theorem sparse_scan_skips_solver (lm : Libm) (eg : EigenLib) (Hidden : Type)
    (ext : Externals Hidden) (p : ProjectionOut) (s : State Hidden) :
  let s1 := updateInitialGuess ext (feature_extraction ext p s) in
  systemInitedLM s1 = true ->
  laserCloudCornerLastNum s1 < 10 \/ laserCloudSurfLastNum s1 < 100 ->
  updateTransformation lm eg ext s1 = s1
  /\ transformSum (fst (scan lm eg ext p s))
     = transformSum (integrateTransformation lm s1)
  /\ transformCur (solve (fst (scan lm eg ext p s))) = transformCur (solve s1)
  /\ exists o, head (snd (scan lm eg ext p s)) = Some (PublishOdometry o)
       /\ position o = (tget (transformSum (integrateTransformation lm s1)) 3,
                        tget (transformSum (integrateTransformation lm s1)) 4,
                        tget (transformSum (integrateTransformation lm s1)) 5).
Proof.
  cbv zeta. intros Hinit Hsparse.
  set (s1 := updateInitialGuess ext (feature_extraction ext p s)) in *.
  assert (Hskip : updateTransformation lm eg ext s1 = s1).
  { unfold updateTransformation.
    destruct ((laserCloudCornerLastNum s1 <? 10) || (laserCloudSurfLastNum s1 <? 100))
      eqn:E; [reflexivity|].
    apply orb_false_iff in E as [E1 E2]. lia. }
  split; [exact Hskip|].
  assert (Hinit' : systemInitedLM (feature_extraction ext p s) = true).
  { destruct (updateInitialGuess_frame Hidden ext (feature_extraction ext p s))
      as (_ & Hi & _). fold s1 in Hi. congruence. }
  rewrite (scan_initialized lm eg Hidden ext p s Hinit').
  destruct (associate_spec lm eg Hidden ext (feature_extraction ext p s)) as (T & S & O).
  cbv zeta in T, S, O. fold s1 in T, S, O. rewrite Hskip in T, S, O.
  split; [exact T|]. split; [rewrite S; reflexivity | exact O].
Qed.

(** C7, witness: [moving_state], whose target clouds are empty. *)
Lemma sparse_scan_skips_solver_witness :
  let s1 := updateInitialGuess quiet (feature_extraction quiet empty_projection moving_state) in
  updateTransformation Reference.libm diagonal_eigen quiet s1 = s1.
Proof.
  cbv zeta.
  apply (sparse_scan_skips_solver Reference.libm diagonal_eigen unit quiet
           empty_projection moving_state).
  - vm_compute. reflexivity.
  - left. vm_compute. reflexivity.
Defined.

(** C7 as stated fails: the increment of a sparse scan is not the identity.
    [moving_state] enters the scan with [transformCur] equal to one metre
    along x; the solver is skipped, the increment is integrated, and the
    pose published moves from the origin to x = -1. *)
Lemma sparse_scan_increment_not_identity :
  laserCloudCornerLastNum moving_state < 10
  /\ transformCur (solve (fst (scan Reference.libm diagonal_eigen quiet
                                 empty_projection moving_state)))
     = [0; 0; 0; 1; 0; 0]%float
  /\ transformSum moving_state = [0; 0; 0; 0; 0; 0]%float
  /\ transformSum (fst (scan Reference.libm diagonal_eigen quiet
                          empty_projection moving_state))
     = [-0; 0; 0; -1; 0; 0]%float
  /\ snd (scan Reference.libm diagonal_eigen quiet empty_projection moving_state)
     = [PublishOdometry (mkOdometry (-0, 0, 0, 1)%float (-1, 0, 0)%float)].
Proof.
  split; [vm_compute; reflexivity|]. repeat split; vm_compute; reflexivity.
Qed.

(** C8, as amended.  Within a scan [transformSum] is written by
    [integrateTransformation], which runs once in every scan of the
    initialized stage, and by [checkSystemInitialization], which on the
    first scan adds [imuPitchStart] to component 0 and [imuRollStart] to
    component 2; the feature extraction, [updateInitialGuess],
    [updateTransformation], [publishOdometry] and [publishCloudsLast] leave
    it as it is. *)
Theorem transformSum_writers (lm : Libm) (eg : EigenLib) (Hidden : Type)
    (ext : Externals Hidden) (p : ProjectionOut) (s : State Hidden) :
  transformSum (feature_extraction ext p s) = transformSum s
  /\ transformSum (updateInitialGuess ext s) = transformSum s
  /\ transformSum (updateTransformation lm eg ext s) = transformSum s
  /\ transformSum (fst (publishOdometry ext s)) = transformSum s
  /\ transformSum (publishCloudsLast ext s) = transformSum s
  /\ let s1 := feature_extraction ext p s in
     let s2 := updateTransformation lm eg ext (updateInitialGuess ext s1) in
     transformSum s2 = transformSum s
     /\ transformSum (fst (scan lm eg ext p s))
        = if systemInitedLM s1
          then transformSum (integrateTransformation lm s2)
          else <[2%nat := (tget (transformSum s) 2 + imuRollStart (imu s1))%float]>
                 (<[0%nat := (tget (transformSum s) 0 + imuPitchStart (imu s1))%float]>
                    (transformSum s)).
Proof.
  destruct (feature_extraction_frame Hidden ext p s) as (F1 & _).
  destruct (updateInitialGuess_frame Hidden ext s) as (F2 & _).
  pose proof (updateTransformation_frame lm eg Hidden ext s) as F3.
  destruct (publishOdometry_frame Hidden ext s) as (F4 & _).
  destruct (publishCloudsLast_frame Hidden ext s) as (F5 & _).
  do 5 (split; [assumption|]). cbv zeta. split.
  - rewrite updateTransformation_frame.
    destruct (updateInitialGuess_frame Hidden ext (feature_extraction ext p s)) as (G & _).
    congruence.
  - destruct (systemInitedLM (feature_extraction ext p s)) eqn:Hinit.
    + rewrite (scan_initialized lm eg Hidden ext p s Hinit).
      apply (associate_spec lm eg Hidden ext (feature_extraction ext p s)).
    + rewrite (scan_first lm eg Hidden ext p s Hinit).
      cbn [fst checkSystemInitialization transformSum]. rewrite F1.
      unfold tget at 1. unfold nth_def.
      rewrite list_lookup_insert_ne by lia. reflexivity.
Qed.

(** C8 as stated fails: the first scan writes [transformSum] without
    [integrateTransformation].  With an IMU pitch of 0.5 rad at the start of
    the scan, [first_scan_state] leaves the scan with 0.5 in component 0 and
    nothing published. *)
Lemma first_scan_writes_transformSum :
  systemInitedLM first_scan_state = false
  /\ transformSum first_scan_state = [0; 0; 0; 0; 0; 0]%float
  /\ transformSum (fst (scan Reference.libm diagonal_eigen quiet
                          empty_projection first_scan_state))
     = [0.5; 0; 0; 0; 0; 0]%float
  /\ snd (scan Reference.libm diagonal_eigen quiet empty_projection first_scan_state)
     = [].
Proof. repeat split; vm_compute; reflexivity. Qed.

End FeatureAssociationFacts.

(** * Further properties of the projection stage *)

Module ImageProjectionInvariants.

Import ImageProjection ImageProjectionVocabulary Examples Scenarios.

(** A counting loop adds the number of elements that pass the test. *)
Lemma count_loop (P : Z -> bool) (l : list Z) (c0 : Z) :
  for_each l (fun i c => if P i then c + 1 else c) c0
  = c0 + Z.of_nat (length (filter (fun i => Is_true (P i)) l)).
Proof.
  revert c0. induction l as [|a l IH]; intros c0.
  - simpl. lia.
  - rewrite ImageProjectionFacts.for_each_cons, IH, filter_cons.
    destruct (P a); simpl; lia.
Qed.

Lemma filter_length_ext {A} (P Q : A -> bool) (l : list A) :
  (forall x, x ∈ l -> P x = Q x) ->
  length (filter (fun x => Is_true (P x)) l) = length (filter (fun x => Is_true (Q x)) l).
Proof.
  induction l as [|a l IH]; intros Hext; [reflexivity|].
  rewrite !filter_cons, (Hext a) by left.
  destruct (Q a); simpl; rewrite IH; auto using list_elem_of_further.
Qed.

Section Clusters.

Context (cfg : Config) (lm : Libm).

Lemma row_flagged_spec seed cluster r :
  row_flagged seed cluster r = true
  <-> exists c, c ∈ cluster /\ c <> seed /\ c.1 = r.
Proof.
  unfold row_flagged. rewrite existsb_exists. split.
  - intros (c & Hin & Hc). apply andb_true_iff in Hc as [Hne Hr].
    exists c. split; [apply list_elem_of_In, Hin|].
    split; [|apply Z.eqb_eq, Hr].
    apply negb_true_iff, bool_decide_eq_false in Hne. exact Hne.
  - intros (c & Hin & Hne & Hr). exists c. split; [apply list_elem_of_In, Hin|].
    apply andb_true_iff. split; [|apply Z.eqb_eq, Hr].
    apply negb_true_iff, bool_decide_eq_false. exact Hne.
Qed.

(** The local [lineCount] at the end of the search. *)
Lemma lineCount_spec orig lc seed b :
  bfs_inv cfg orig lc seed b ->
  lineCount cfg (b_lineCountFlag b) = rows_flagged cfg seed (b_all_pushed b).
Proof.
  intros Hb. unfold lineCount, rows_flagged.
  rewrite (count_loop (fun i => nth_def false (b_lineCountFlag b) (Z.to_nat i))).
  rewrite Z.add_0_l. f_equal. apply filter_length_ext.
  intros r Hr. apply ImageProjectionFacts.elem_of_upto in Hr.
  apply eq_true_iff_eq. rewrite row_flagged_spec.
  assert (Hn : nth_def false (b_lineCountFlag b) (Z.to_nat r) = true
               <-> b_lineCountFlag b !! Z.to_nat r = Some true).
  { unfold nth_def. destruct (b_lineCountFlag b !! Z.to_nat r) as [[]|]; simpl;
      split; congruence. }
  rewrite Hn, (inv_flags _ _ _ _ _ Hb). split.
  - intros (c & Hin & Hne & Hc). exists c. split; [exact Hin|]. split; [exact Hne|].
    pose proof (inv_image _ _ _ _ _ Hb c Hin) as [Hc1 _]. lia.
  - intros (c & Hin & Hne & Hc). exists c. split; [exact Hin|]. split; [exact Hne|]. lia.
Qed.

End Clusters.

(** X1.  [labelComponents], called on an unlabeled cell of the image,
    returns.  The cells it pushed form a cluster that starts with the seed,
    holds no cell twice (so the circular buffers, of capacity
    [N_scan * horizon_scan], never overwrite an entry) and only cells of the
    image that were unlabeled.  The cluster is accepted when it has 30 cells,
    or [segmentValidPointNum] cells and [segmentValidLineNum] rows that hold
    a cell other than the seed: then its cells carry the current
    [_label_count], which is incremented; otherwise they carry 999999.  No
    other cell and no other member changes. *)
Theorem labelComponents_cluster (cfg : Config) (lm : Libm) (s : State) (row col : Z) :
  labels_wf cfg s -> in_image cfg (row, col) ->
  label_at cfg (label_mat s) (row, col) = 0 ->
  exists (cluster : list Coord2D) (s' : State),
    labelComponents cfg lm row col s = Some s'
    /\ head cluster = Some (row, col) /\ NoDup cluster
    /\ (length cluster <= cloud_size cfg)%nat
    /\ (forall c, c ∈ cluster -> in_image cfg c /\ label_at cfg (label_mat s) c = 0)
    /\ same_but_labels s s'
    /\ label_count s'
       = (if accepted cfg (row, col) cluster then label_count s + 1 else label_count s)
    /\ forall c, in_image cfg c ->
         label_at cfg (label_mat s') c
         = if decide (c ∈ cluster)
           then (if accepted cfg (row, col) cluster then label_count s else 999999)
           else label_at cfg (label_mat s) c.
Proof.
  intros Hw Hc H0.
  destruct (ImageProjectionFacts.labelComponents_search cfg lm s row col Hw Hc H0)
    as (b & E & Hb & Hq).
  assert (Hacc : feasibleSegment cfg b = accepted cfg (row, col) (b_all_pushed b)).
  { unfold feasibleSegment, accepted.
    rewrite (lineCount_spec cfg _ _ _ _ Hb). reflexivity. }
  exists (b_all_pushed b). unfold labelComponents. rewrite E, Hacc.
  destruct Hb as [Hlen Hfl Hqs Hql Him Hor Hnd Hmk Hch Hsd Hfg].
  assert (Hbound : (length (b_all_pushed b) <= cloud_size cfg)%nat)
    by (apply ImageProjectionFacts.distinct_cells_bound; assumption).
  destruct (accepted cfg (row, col) (b_all_pushed b)).
  - eexists. split; [reflexivity|]. split_and!; try assumption; try reflexivity.
    + intros c Hin. split; [apply Him, Hin | apply Hor, Hin].
    + repeat split.
    + intros c Hcin. simpl. destruct (decide (c ∈ b_all_pushed b)) as [Hin|Hnin].
      * apply Hmk, Hin.
      * destruct (decide (label_at cfg (b_label b) c = label_at cfg (label_mat s) c))
          as [Ec|Ec]; [exact Ec|].
        exfalso. apply Hnin, Hch; assumption.
  - eexists. split; [reflexivity|]. split_and!; try assumption; try reflexivity.
    + intros c Hin. split; [apply Him, Hin | apply Hor, Hin].
    + repeat split.
    + intros c Hcin. simpl.
      destruct (ImageProjectionFacts.relabel_spec cfg (b_all_pushed b) (b_label b) c
                  Hlen Him Hcin) as [_ Hv].
      cbv zeta in Hv. rewrite Hv.
      destruct (decide (c ∈ b_all_pushed b)) as [Hin|Hnin]; [reflexivity|].
      destruct (decide (label_at cfg (b_label b) c = label_at cfg (label_mat s) c))
        as [Ec|Ec]; [exact Ec|].
      exfalso. apply Hnin, Hch; assumption.
Qed.

(** X1, witness: the seed (0, 0) of the wall [wall29]. *)
Lemma labelComponents_cluster_witness :
  labels_wf cfg3x14 wall29_projected
  /\ in_image cfg3x14 (0, 0)
  /\ exists (cluster : list Coord2D) (s' : State),
       labelComponents cfg3x14 Reference.libm 0 0 wall29_projected = Some s'
       /\ head cluster = Some (0, 0) /\ NoDup cluster
       /\ (length cluster <= cloud_size cfg3x14)%nat
       /\ (forall c, c ∈ cluster ->
             in_image cfg3x14 c /\ label_at cfg3x14 (label_mat wall29_projected) c = 0)
       /\ same_but_labels wall29_projected s'
       /\ label_count s'
          = (if accepted cfg3x14 (0, 0) cluster
             then label_count wall29_projected + 1 else label_count wall29_projected)
       /\ forall c, in_image cfg3x14 c ->
            label_at cfg3x14 (label_mat s') c
            = if decide (c ∈ cluster)
              then (if accepted cfg3x14 (0, 0) cluster
                    then label_count wall29_projected else 999999)
              else label_at cfg3x14 (label_mat wall29_projected) c.
Proof.
  assert (Hw : labels_wf cfg3x14 wall29_projected)
    by (split; [vm_compute; reflexivity | vm_compute; discriminate]).
  assert (Hc : in_image cfg3x14 (0, 0)) by (split; vm_compute; intuition discriminate).
  split; [exact Hw|]. split; [exact Hc|].
  apply (labelComponents_cluster cfg3x14 Reference.libm wall29_projected 0 0 Hw Hc).
  vm_compute. reflexivity.
Defined.

(** ** What the stages after the projection leave alone *)

Section Frames.

Context (cfg : Config) (lm : Libm).

Implicit Types (s : State).

Lemma same_images_refl s : same_images s s.
Proof. repeat split. Qed.

Lemma same_images_trans s1 s2 s3 :
  same_images s1 s2 -> same_images s2 s3 -> same_images s1 s3.
Proof. unfold same_images. intuition congruence. Qed.

Lemma same_inputs_refl s : same_inputs s s.
Proof. repeat split. Qed.

Lemma same_inputs_trans s1 s2 s3 :
  same_inputs s1 s2 -> same_inputs s2 s3 -> same_inputs s1 s3.
Proof. unfold same_inputs. intuition congruence. Qed.

Lemma same_inputs_images s s' : same_inputs s s' -> same_images s s'.
Proof. unfold same_inputs, same_images. intuition. Qed.

Lemma same_ground_refl s : same_ground s s.
Proof. reflexivity. Qed.

Lemma same_ground_trans s1 s2 s3 :
  same_ground s1 s2 -> same_ground s2 s3 -> same_ground s1 s3.
Proof. unfold same_ground. congruence. Qed.

(** Two nested loops keep what their body keeps. *)
Lemma nested_rel {A B} (R : State -> State -> Prop) (l1 : list A) (l2 : list B)
    (body : A -> B -> State -> State) s :
  (forall s0, R s0 s0) -> (forall s1 s2 s3, R s1 s2 -> R s2 s3 -> R s1 s3) ->
  (forall a b s0, R s0 (body a b s0)) ->
  R s (for_each l1 (fun a => for_each l2 (body a)) s).
Proof.
  intros Hrefl Htrans Hbody. apply (ImageProjectionFacts.for_each_inv (R s)).
  - apply Hrefl.
  - intros a s0 _ H0.
    apply (ImageProjectionFacts.for_each_inv (R s)); [exact H0|].
    intros b s1 _ H1. eapply Htrans; [exact H1 | apply Hbody].
Qed.

Lemma nested_opt_rel {A B} (R : State -> State -> Prop) (l1 : list A) (l2 : list B)
    (body : A -> B -> State -> option State) s s' :
  (forall s0, R s0 s0) -> (forall s1 s2 s3, R s1 s2 -> R s2 s3 -> R s1 s3) ->
  (forall a b s0 s1, body a b s0 = Some s1 -> R s0 s1) ->
  for_each_opt l1 (fun a => for_each_opt l2 (body a)) s = Some s' -> R s s'.
Proof.
  intros Hrefl Htrans Hbody. apply (ImageProjectionFacts.for_each_opt_inv (R s)).
  - apply Hrefl.
  - intros a s0 s1 _ H0.
    apply (ImageProjectionFacts.for_each_opt_inv (R s)); [exact H0|].
    intros b s2 s3 _ H2 E. eapply Htrans; [exact H2 | eapply Hbody, E].
Qed.

Lemma ground_pair_inputs j i s : same_inputs s (ground_pair cfg lm j i s).
Proof.
  unfold ground_pair. destruct (_ || _); [repeat split|].
  cbv zeta. destruct (PrimFloat.leb _ _); repeat split.
Qed.

Lemma mark_label_inputs i j s :
  same_inputs s (mark_label cfg i j s) /\ same_ground s (mark_label cfg i j s).
Proof. unfold mark_label. destruct (_ || _); repeat split. Qed.

Lemma push_ground_inputs i j s :
  same_inputs s (push_ground cfg i j s) /\ same_ground s (push_ground cfg i j s).
Proof. unfold push_ground. destruct (_ =? _); repeat split. Qed.

Lemma groundRemoval_inputs s : same_inputs s (groundRemoval cfg lm s).
Proof.
  unfold groundRemoval. cbv zeta.
  eapply same_inputs_trans;
    [|apply (nested_rel same_inputs); [apply same_inputs_refl | apply same_inputs_trans
                         | intros; apply push_ground_inputs]].
  eapply same_inputs_trans;
    [|apply (nested_rel same_inputs); [apply same_inputs_refl | apply same_inputs_trans
                         | intros; apply mark_label_inputs]].
  apply (nested_rel same_inputs); [apply same_inputs_refl | apply same_inputs_trans|].
  intros j i s0. apply ground_pair_inputs.
Qed.

Lemma labelComponents_inputs row col s s' :
  labelComponents cfg lm row col s = Some s' -> same_inputs s s' /\ same_ground s s'.
Proof.
  unfold labelComponents. destruct (bfs_loop _ _ _ _ _ _); [|discriminate].
  destruct (feasibleSegment _ _); intros [= <-]; repeat split.
Qed.

Lemma label_all_inputs s s' :
  label_all cfg lm s = Some s' -> same_inputs s s' /\ same_ground s s'.
Proof.
  unfold label_all. intros E. split.
  - revert E. apply (nested_opt_rel same_inputs); [apply same_inputs_refl | apply same_inputs_trans|].
    intros i j s0 s1. destruct (_ =? _).
    + intros E. eapply labelComponents_inputs, E.
    + intros [= <-]. apply same_inputs_refl.
  - revert E. apply (nested_opt_rel same_ground); [apply same_ground_refl | apply same_ground_trans|].
    intros i j s0 s1. destruct (_ =? _).
    + intros E. eapply labelComponents_inputs, E.
    + intros [= <-]. apply same_ground_refl.
Qed.

Lemma pure_cell_images i j s :
  same_images s (pure_cell cfg i j s) /\ same_ground s (pure_cell cfg i j s).
Proof. unfold pure_cell. destruct (_ && _); repeat split. Qed.

Lemma cloudSegmentation_images s s' :
  cloudSegmentation cfg lm s = Some s' -> same_images s s' /\ same_ground s s'.
Proof.
  unfold cloudSegmentation. destruct (label_all cfg lm s) as [s1|] eqn:E; [|discriminate].
  intros [= <-]. cbv zeta. destruct (label_all_inputs _ _ E) as [I1 G1]. split.
  - eapply same_images_trans; [apply same_inputs_images, I1|].
    eapply same_images_trans;
      [|apply (nested_rel same_images); [apply same_images_refl | apply same_images_trans
                           | intros; apply pure_cell_images]].
    repeat split.
  - eapply same_ground_trans; [exact G1|].
    eapply same_ground_trans;
      [|apply (nested_rel same_ground); [apply same_ground_refl | apply same_ground_trans
                           | intros; apply pure_cell_images]].
    reflexivity.
Qed.

Lemma groundRemoval_images s : same_images s (groundRemoval cfg lm s).
Proof. apply same_inputs_images, groundRemoval_inputs. Qed.

(** The stages of [cloudHandler] on a scan it processes. *)
Lemma cloudHandler_stages msg s s' out :
  cloudHandler cfg lm msg s = Some (s', out) ->
  exists s1 s4,
    findStartEndAngle lm
      (with_laser_cloud_in (removeNaNFromPointCloud msg) (resetParameters cfg s)) = Some s1
    /\ cloudSegmentation cfg lm (groundRemoval cfg lm (projectPointCloud cfg lm s1)) = Some s4
    /\ s' = fst (publishClouds s4) /\ out = snd (publishClouds s4).
Proof.
  unfold cloudHandler. cbv zeta.
  destruct (findStartEndAngle lm _) as [s1|]; [|discriminate].
  destruct (cloudSegmentation cfg lm _) as [s4|] eqn:E4; [|discriminate].
  intros E. exists s1, s4. split; [reflexivity|]. split; [exact E4|].
  destruct (publishClouds s4). injection E as <- <-. split; reflexivity.
Qed.

(** [findStartEndAngle] writes the three orientation fields only. *)
Lemma findStartEndAngle_writes s s1 :
  findStartEndAngle lm s = Some s1 ->
  same_images s s1 /\ ground_mat s1 = ground_mat s /\ label_mat s1 = label_mat s
  /\ label_count s1 = label_count s /\ segmented_cloud s1 = segmented_cloud s
  /\ outlier_cloud s1 = outlier_cloud s
  /\ startRingIndex (seg_msg s1) = startRingIndex (seg_msg s)
  /\ endRingIndex (seg_msg s1) = endRingIndex (seg_msg s)
  /\ segmentedCloudGroundFlag (seg_msg s1) = segmentedCloudGroundFlag (seg_msg s)
  /\ segmentedCloudColInd (seg_msg s1) = segmentedCloudColInd (seg_msg s)
  /\ segmentedCloudRange (seg_msg s1) = segmentedCloudRange (seg_msg s).
Proof.
  unfold findStartEndAngle.
  destruct (head _); [|discriminate]. destruct (last _); [|discriminate].
  intros [= <-]. repeat split.
Qed.

End Frames.

(** ** The projection *)

Section Projection.

Context (cfg : Config) (lm : Libm).

Implicit Types (s : State).

Lemma project_point_sizes p s :
  length (range_mat (project_point cfg lm p s)) = length (range_mat s)
  /\ length (full_cloud (project_point cfg lm p s)) = length (full_cloud s)
  /\ length (full_info_cloud (project_point cfg lm p s)) = length (full_info_cloud s)
  /\ laser_cloud_in (project_point cfg lm p s) = laser_cloud_in s.
Proof.
  unfold project_point. cbv zeta.
  destruct (_ || _); [auto|]. destruct (_ || _); [auto|].
  destruct (PrimFloat.ltb _ _); [auto|].
  simpl. unfold mat_set. rewrite !length_insert. auto.
Qed.

Lemma project_point_consistent p s :
  image_sizes cfg s -> p ∈ laser_cloud_in s ->
  (forall c, in_image cfg c -> cell_consistent cfg s c) ->
  forall c, in_image cfg c -> cell_consistent cfg (project_point cfg lm p s) c.
Proof.
  intros (Hr & Hf & Hi) Hp Hall. unfold project_point. cbv zeta.
  set (range := PrimFloat.sqrt _).
  set (row := to_int lm _).
  destruct ((row <? 0) || (row >=? N cfg)) eqn:Er; [exact Hall|].
  set (col := if _ >=? H cfg then _ else _).
  destruct ((col <? 0) || (col >=? H cfg)) eqn:Ec; [exact Hall|].
  destruct (PrimFloat.ltb range _) eqn:El; [exact Hall|].
  apply orb_false_iff in Er as [Er1 Er2], Ec as [Ec1 Ec2].
  rewrite Z.geb_leb in Er2, Ec2.
  apply Z.ltb_ge in Er1, Ec1. apply Z.leb_gt in Er2, Ec2.
  assert (Hrc : in_image cfg (row, col)) by (split; simpl; lia).
  pose proof (ImageProjectionFacts.cellZ_lt cfg row col Hrc) as Hlt.
  change (Z.to_nat (col + row * H cfg)) with (cellZ cfg row col).
  intros c Hc. unfold cell_consistent, mat_set, nth_def. cbn [range_mat full_cloud
    full_info_cloud laser_cloud_in with_full_info_cloud with_full_cloud with_range_mat
    px py pz intensity].
  destruct (decide (c = (row, col))) as [->|Hne].
  - right. exists p. cbn [fst snd].
    rewrite !list_lookup_insert_eq by lia. simpl.
    split_and!; try reflexivity; assumption.
  - assert (Hk : cellZ cfg row col <> cellZ cfg c.1 c.2).
    { intros E. destruct c as [i j].
      apply ImageProjectionFacts.cellZ_inj in E as [-> ->]; [|assumption..].
      apply Hne. reflexivity. }
    rewrite !list_lookup_insert_ne by exact Hk.
    apply (Hall c Hc).
Qed.

Lemma projectPointCloud_consistent s :
  image_sizes cfg s ->
  (forall c, in_image cfg c -> cell_consistent cfg s c) ->
  image_sizes cfg (projectPointCloud cfg lm s)
  /\ laser_cloud_in (projectPointCloud cfg lm s) = laser_cloud_in s
  /\ forall c, in_image cfg c -> cell_consistent cfg (projectPointCloud cfg lm s) c.
Proof.
  intros Hs Hall. unfold projectPointCloud.
  apply (ImageProjectionFacts.for_each_inv
           (fun s0 => image_sizes cfg s0 /\ laser_cloud_in s0 = laser_cloud_in s
                      /\ forall c, in_image cfg c -> cell_consistent cfg s0 c)).
  - auto.
  - intros p s0 Hp (H1 & H2 & H3).
    destruct (project_point_sizes p s0) as (L1 & L2 & L3 & L4).
    split; [|split].
    + unfold image_sizes in *. rewrite L1, L2, L3. exact H1.
    + congruence.
    + apply project_point_consistent; [exact H1 | rewrite H2; exact Hp | exact H3].
Qed.

(** Right after [resetParameters] no cell holds a return. *)
Lemma resetParameters_consistent pts s c :
  length (full_cloud s) = cloud_size cfg ->
  length (full_info_cloud s) = cloud_size cfg ->
  in_image cfg c ->
  cell_consistent cfg (with_laser_cloud_in pts (resetParameters cfg s)) c.
Proof.
  intros Hf Hi Hc. left. simpl. rewrite Hf, Hi.
  pose proof (ImageProjectionFacts.cellZ_lt cfg c.1 c.2) as Hlt.
  destruct c as [i j]. specialize (Hlt Hc). unfold nth_def.
  rewrite !lookup_replicate_2 by exact Hlt. auto.
Qed.

Lemma cell_consistent_ext s s' c :
  same_images s s' -> cell_consistent cfg s c -> cell_consistent cfg s' c.
Proof.
  intros (E1 & E2 & E3 & E4). unfold cell_consistent. rewrite E1, E2, E3, E4. auto.
Qed.

End Projection.

(** X2.  After a scan is processed, the range image and the two full clouds
    agree on every cell: either the cell holds no return ([_range_mat] is
    [FLT_MAX] and both clouds hold the NaN point), or [_full_cloud] and
    [_full_info_cloud] hold the coordinates of one and the same point of the
    incoming cloud (NaN points removed), the intensity in [_full_info_cloud]
    is the value in [_range_mat], and that value is not below 0.1. *)
Theorem cloudHandler_images_consistent (cfg : Config) (lm : Libm)
    (msg : list PointType) (s s' : State) (out : ProjectionOut) (c : Coord2D) :
  length (full_cloud s) = cloud_size cfg ->
  length (full_info_cloud s) = cloud_size cfg ->
  cloudHandler cfg lm msg s = Some (s', out) ->
  in_image cfg c ->
  laser_cloud_in s' = removeNaNFromPointCloud msg /\ cell_consistent cfg s' c.
Proof.
  intros Hf Hi E Hc.
  destruct (cloudHandler_stages cfg lm msg s s' out E) as (s1 & s4 & E1 & E4 & -> & _).
  destruct (findStartEndAngle_writes lm _ _ E1) as (I1 & _).
  set (s0 := with_laser_cloud_in (removeNaNFromPointCloud msg) (resetParameters cfg s)) in *.
  assert (Hsz : image_sizes cfg s1).
  { destruct I1 as (_ & F2 & F3 & F4). unfold image_sizes. rewrite F2, F3, F4.
    simpl. rewrite !length_replicate. auto. }
  destruct (projectPointCloud_consistent cfg lm s1 Hsz) as (_ & L & Hall).
  { intros c0 Hc0. apply (cell_consistent_ext cfg s0 s1 c0 I1).
    apply resetParameters_consistent; assumption. }
  pose proof (groundRemoval_images cfg lm (projectPointCloud cfg lm s1)) as I2.
  destruct (cloudSegmentation_images cfg lm _ _ E4) as [I3 _].
  pose proof (same_images_trans _ _ _ I2 I3) as I4.
  split.
  - simpl. destruct I4 as (-> & _). rewrite L. destruct I1 as (-> & _). reflexivity.
  - apply (cell_consistent_ext cfg s4); [repeat split|].
    apply (cell_consistent_ext cfg _ s4 c I4). apply Hall, Hc.
Qed.

(** X2, witness: the cell (0, 4) of the scan [scan2x8]. *)
Lemma cloudHandler_images_consistent_witness :
  exists s' out,
    cloudHandler cfg2x8 Reference.libm scan2x8 (initial_state cfg2x8) = Some (s', out)
    /\ laser_cloud_in s' = removeNaNFromPointCloud scan2x8
    /\ cell_consistent cfg2x8 s' (0, 4).
Proof.
  eexists _, _. split; [vm_compute; reflexivity|].
  eapply (cloudHandler_images_consistent cfg2x8 Reference.libm scan2x8
            (initial_state cfg2x8)).
  - vm_compute. reflexivity.
  - vm_compute. reflexivity.
  - vm_compute. reflexivity.
  - split; vm_compute; intuition discriminate.
Defined.

(** X3.  [cloudHandler] calls [resetParameters] first, and that call clears
    everything a scan reads: processing a cloud after any processed scan
    gives the result that processing it first gives, state and outputs
    alike. *)
Theorem cloudHandler_forgets_previous_scan (cfg : Config) (lm : Libm)
    (msg0 msg : list PointType) (s s' : State) (out : ProjectionOut) :
  cloudHandler cfg lm msg0 s = Some (s', out) ->
  cloudHandler cfg lm msg s' = cloudHandler cfg lm msg s.
Proof.
  intros E.
  destruct (cloudHandler_stages cfg lm msg0 s s' out E) as (s1 & s4 & E1 & E4 & -> & _).
  destruct (findStartEndAngle_writes lm _ _ E1) as ((_ & F2 & F3 & _) & _).
  pose proof (groundRemoval_images cfg lm (projectPointCloud cfg lm s1)) as I2.
  destruct (cloudSegmentation_images cfg lm _ _ E4) as [I3 _].
  destruct (same_images_trans _ _ _ I2 I3) as (_ & G2 & G3 & _).
  assert (Lf : length (full_cloud s4) = length (full_cloud s)).
  { rewrite G2. unfold projectPointCloud.
    apply (ImageProjectionFacts.for_each_inv
             (fun s0 => length (full_cloud s0) = length (full_cloud s))).
    - rewrite F2. simpl. apply length_replicate.
    - intros p s0 _ H0. rewrite <- H0. apply project_point_sizes. }
  assert (Li : length (full_info_cloud s4) = length (full_info_cloud s)).
  { rewrite G3. unfold projectPointCloud.
    apply (ImageProjectionFacts.for_each_inv
             (fun s0 => length (full_info_cloud s0) = length (full_info_cloud s))).
    - rewrite F3. simpl. apply length_replicate.
    - intros p s0 _ H0. rewrite <- H0. apply project_point_sizes. }
  unfold cloudHandler, findStartEndAngle, resetParameters. simpl.
  rewrite Lf, Li. reflexivity.
Qed.

(** X3, witness: the scan [scan2x8] processed twice. *)
Lemma cloudHandler_forgets_previous_scan_witness :
  exists s' out,
    cloudHandler cfg2x8 Reference.libm scan2x8 (initial_state cfg2x8) = Some (s', out)
    /\ cloudHandler cfg2x8 Reference.libm scan2x8 s'
       = cloudHandler cfg2x8 Reference.libm scan2x8 (initial_state cfg2x8).
Proof.
  eexists _, _. split; [vm_compute; reflexivity|].
  eapply (cloudHandler_forgets_previous_scan cfg2x8 Reference.libm scan2x8 scan2x8
            (initial_state cfg2x8)).
  vm_compute. reflexivity.
Defined.

(** ** The ground matrix *)

Section GroundRows.

Context (cfg : Config) (lm : Libm).

Implicit Types (s : State).

Lemma ground_write (m : list Z) i j v :
  ground_ok cfg m -> 0 <= i <= Z.of_nat (groundScanInd cfg) -> 0 <= j < H cfg ->
  v = 1 \/ v = -1 -> ground_ok cfg (mat_set cfg m i j v).
Proof.
  intros [Hl Hm] Hi Hj Hv. split; [rewrite ImageProjectionFacts.length_mat_set; exact Hl|].
  intros c Hc. cbv zeta. unfold mat_get, mat_set, nth_def.
  pose proof (ImageProjectionFacts.cellZ_lt cfg c.1 c.2) as Hlt.
  destruct c as [i' j']. specialize (Hlt Hc). cbn [fst snd] in *.
  destruct (decide (cellZ cfg i j = cellZ cfg i' j')) as [E|E].
  - rewrite E, list_lookup_insert_eq by lia. simpl.
    split; [lia|]. intros _.
    destruct Hc as [Hi' Hj']. unfold cellZ, H in *. simpl in *.
    assert (i = i') by nia. lia.
  - rewrite list_lookup_insert_ne by exact E. apply (Hm (i', j') Hc).
Qed.

Lemma ground_pair_ok j i s :
  j ∈ upto (horizon_scan cfg) -> i ∈ upto (groundScanInd cfg) ->
  ground_ok cfg (ground_mat s) -> ground_ok cfg (ground_mat (ground_pair cfg lm j i s)).
Proof.
  intros Hj Hi Hok. apply ImageProjectionFacts.elem_of_upto in Hj, Hi.
  unfold ground_pair. destruct (_ || _).
  - simpl. apply ground_write; [exact Hok | lia | exact Hj | auto].
  - cbv zeta. destruct (PrimFloat.leb _ _); [|exact Hok].
    simpl. apply ground_write; [|lia | exact Hj | auto].
    apply ground_write; [exact Hok | lia | exact Hj | auto].
Qed.

Lemma groundRemoval_ok s :
  ground_ok cfg (ground_mat s) -> ground_ok cfg (ground_mat (groundRemoval cfg lm s)).
Proof.
  intros Hok. unfold groundRemoval. cbv zeta.
  set (s1 := for_each (upto (horizon_scan cfg)) _ s).
  assert (H1 : ground_ok cfg (ground_mat s1)).
  { apply (ImageProjectionFacts.for_each_inv (fun s0 => ground_ok cfg (ground_mat s0)));
      [exact Hok|].
    intros j s0 Hj H0.
    apply (ImageProjectionFacts.for_each_inv (fun s0 => ground_ok cfg (ground_mat s0)));
      [exact H0|].
    intros i s2 Hi H2. apply ground_pair_ok; assumption. }
  set (s2 := for_each (upto (N_scan cfg)) _ s1).
  assert (G2 : same_ground s1 s2).
  { apply (nested_rel same_ground); [apply same_ground_refl | apply same_ground_trans|].
    intros; apply mark_label_inputs. }
  match goal with |- ground_ok cfg (ground_mat ?s3) => assert (G3 : same_ground s2 s3) end.
  { apply (nested_rel same_ground); [apply same_ground_refl | apply same_ground_trans|].
    intros; apply push_ground_inputs. }
  unfold same_ground in *. rewrite G3, G2. exact H1.
Qed.

End GroundRows.

(** X4.  After a scan, every cell of [_ground_mat] holds 0, 1 or -1, and a
    cell that is not 0 lies in a row up to [groundScanInd]: no cell of a
    higher ring is ever taken for ground. *)
Theorem cloudHandler_ground_rows (cfg : Config) (lm : Libm) (msg : list PointType)
    (s s' : State) (out : ProjectionOut) (c : Coord2D) :
  cloudHandler cfg lm msg s = Some (s', out) ->
  in_image cfg c ->
  let g := mat_get cfg 0 (ground_mat s') c.1 c.2 in
  (g = 0 \/ g = 1 \/ g = -1) /\ (g <> 0 -> c.1 <= Z.of_nat (groundScanInd cfg)).
Proof.
  intros E Hc.
  destruct (cloudHandler_stages cfg lm msg s s' out E) as (s1 & s4 & E1 & E4 & -> & _).
  destruct (findStartEndAngle_writes lm _ _ E1) as (_ & G1 & _).
  destruct (ImageProjectionFacts.projectPointCloud_frame cfg lm s1) as (_ & G2 & _).
  destruct (cloudSegmentation_images cfg lm _ _ E4) as [_ G4].
  assert (Hok : ground_ok cfg (ground_mat s4)).
  { unfold same_ground in G4. rewrite G4. apply groundRemoval_ok.
    rewrite G2, G1. simpl. split; [apply length_replicate|].
    intros c0 _. cbv zeta. unfold mat_get.
    rewrite ImageProjectionFacts.nth_def_replicate.
    split; [auto | congruence]. }
  apply (proj2 Hok c Hc).
Qed.

(** X4, witness: the cell (1, 4) of the scan [scan2x8]. *)
Lemma cloudHandler_ground_rows_witness :
  exists s' out,
    cloudHandler cfg2x8 Reference.libm scan2x8 (initial_state cfg2x8) = Some (s', out)
    /\ let g := mat_get cfg2x8 0 (ground_mat s') 1 4 in
       (g = 0 \/ g = 1 \/ g = -1) /\ (g <> 0 -> 1 <= Z.of_nat (groundScanInd cfg2x8)).
Proof.
  eexists _, _. split; [vm_compute; reflexivity|].
  eapply (cloudHandler_ground_rows cfg2x8 Reference.libm scan2x8
            (initial_state cfg2x8) _ _ (1, 4)).
  - vm_compute. reflexivity.
  - split; vm_compute; intuition discriminate.
Defined.

(** ** The segmented cloud and its message *)

Lemma for_each_counted {A S} (P : Z -> S -> Prop) (body : A -> S -> S)
    (l : list A) (n0 : Z) (s : S) :
  P n0 s ->
  (forall a n s0, a ∈ l -> n0 <= n < n0 + Z.of_nat (length l) ->
                  P n s0 -> P (n + 1) (body a s0)) ->
  P (n0 + Z.of_nat (length l)) (for_each l body s).
Proof.
  revert n0 s. induction l as [|a l IH]; intros n0 s H0 Hstep.
  - simpl. rewrite Z.add_0_r. exact H0.
  - rewrite ImageProjectionFacts.for_each_cons.
    replace (n0 + Z.of_nat (length (a :: l))) with ((n0 + 1) + Z.of_nat (length l))
      by (simpl; lia).
    apply IH.
    + apply Hstep; [left | simpl; lia | exact H0].
    + intros b n s0 Hb Hn. apply Hstep; [right; exact Hb | simpl; lia].
Qed.

Lemma take_snoc_insert {A} (l : list A) (n : nat) (v : A) (pre : list A) :
  (n < length l)%nat -> take n l = pre -> take (S n) (<[n := v]> l) = pre ++ [v].
Proof.
  intros Hn <-.
  rewrite (take_S_r _ _ v) by (apply list_lookup_insert_eq; exact Hn).
  rewrite take_insert_ge by lia. reflexivity.
Qed.

Section Segmented.

Context (cfg : Config) (lm : Libm).

Implicit Types (s : State) (e : Emit).

Lemma emit_cell_ok s i j n e cells :
  in_image cfg (i, j) -> n < Z.of_nat (cloud_size cfg) ->
  seg_ok cfg s n e cells ->
  seg_ok cfg s (n + 1) (emit_cell cfg s i j e)
    (cells ++ if emits cfg s i j then [(i, j)] else []).
Proof.
  intros Hc Hn (Hsz & Hle & L1 & L2 & L3 & Hseg & T1 & T2 & T3).
  assert (Hkeep : forall out', seg_ok cfg s (n + 1)
                    (mkEmit (sizeOfSegCloud e) (e_msg e) (e_segmented e) out') cells).
  { intros out'. unfold seg_ok. simpl. split_and!; auto; lia. }
  assert (Hsame : seg_ok cfg s (n + 1) e cells).
  { destruct e. apply Hkeep. }
  unfold emit_cell, emits. cbv zeta.
  destruct ((mat_get cfg 0 (label_mat s) i j >? 0) || (mat_get cfg 0 (ground_mat s) i j =? 1));
    [|rewrite app_nil_r; exact Hsame].
  destruct (mat_get cfg 0 (label_mat s) i j =? 999999).
  { simpl. rewrite app_nil_r. destruct (_ && _); [apply Hkeep | exact Hsame]. }
  destruct ((mat_get cfg 0 (ground_mat s) i j =? 1) && _);
    [simpl; rewrite app_nil_r; exact Hsame|].
  simpl negb. cbn [andb].
  assert (Hk0 : Z.to_nat (sizeOfSegCloud e) = length cells) by lia.
  rewrite Hk0.
  unfold seg_ok. cbn [sizeOfSegCloud e_msg e_segmented segmentedCloudColInd
    segmentedCloudRange segmentedCloudGroundFlag].
  rewrite !length_insert, length_app, !map_app. simpl length. simpl map.
  replace (length cells + 1)%nat with (S (length cells)) by lia.
  split_and!; try assumption; try lia.
  - rewrite Hseg. reflexivity.
  - apply take_snoc_insert; [lia | exact T1].
  - apply take_snoc_insert; [lia | exact T2].
  - apply take_snoc_insert; [lia | exact T3].
Qed.

Lemma seg_ok_msg s n e cells (m : cloud_info) :
  segmentedCloudColInd m = segmentedCloudColInd (e_msg e) ->
  segmentedCloudRange m = segmentedCloudRange (e_msg e) ->
  segmentedCloudGroundFlag m = segmentedCloudGroundFlag (e_msg e) ->
  seg_ok cfg s n e cells ->
  seg_ok cfg s n (mkEmit (sizeOfSegCloud e) m (e_segmented e) (e_outlier e)) cells.
Proof.
  intros E1 E2 E3. unfold seg_ok. simpl. rewrite E1, E2, E3. auto.
Qed.

Lemma emit_row_ok s i (js : list Z) n e cells :
  0 <= i < N cfg -> (forall j, j ∈ js -> 0 <= j < H cfg) ->
  n + Z.of_nat (length js) <= Z.of_nat (cloud_size cfg) ->
  seg_ok cfg s n e cells ->
  seg_ok cfg s (n + Z.of_nat (length js)) (for_each js (emit_cell cfg s i) e)
    (cells ++ map (pair i) (filter (fun j => Is_true (emits cfg s i j)) js)).
Proof.
  intros Hi. revert n e cells. induction js as [|j js IH]; intros n e cells Hjs Hn Hok.
  - simpl. rewrite Z.add_0_r, app_nil_r. exact Hok.
  - rewrite ImageProjectionFacts.for_each_cons.
    replace (n + Z.of_nat (length (j :: js))) with ((n + 1) + Z.of_nat (length js))
      by (simpl; lia).
    assert (Hc : in_image cfg (i, j)) by (split; [exact Hi | apply Hjs; left]).
    pose proof (emit_cell_ok s i j n e cells Hc ltac:(simpl in Hn; lia) Hok) as Hstep.
    apply IH in Hstep; [|intros j' Hj'; apply Hjs; right; exact Hj' | simpl in Hn; lia].
    rewrite <- app_assoc in Hstep. rewrite filter_cons.
    destruct (emits cfg s i j); simpl in *; exact Hstep.
Qed.

Lemma emit_ring_ok s i n e cells :
  0 <= i < N cfg -> n + H cfg <= Z.of_nat (cloud_size cfg) ->
  seg_ok cfg s n e cells ->
  seg_ok cfg s (n + H cfg) (emit_ring cfg s i e) (cells ++ row_cells cfg s i).
Proof.
  intros Hi Hn Hok. unfold emit_ring. cbv zeta.
  assert (Hlen : Z.of_nat (length (upto (horizon_scan cfg))) = H cfg)
    by (unfold upto, H; rewrite length_map, length_seq; reflexivity).
  apply (seg_ok_msg s (n + H cfg)
           (for_each (upto (horizon_scan cfg)) (emit_cell cfg s i)
              (mkEmit (sizeOfSegCloud e)
                 (set_startRingIndex i (sizeOfSegCloud e - 1 + 5) (e_msg e))
                 (e_segmented e) (e_outlier e)))); try reflexivity.
  rewrite <- Hlen. apply emit_row_ok.
  - exact Hi.
  - intros j Hj. apply ImageProjectionFacts.elem_of_upto in Hj. exact Hj.
  - lia.
  - apply (seg_ok_msg s n e); try reflexivity. exact Hok.
Qed.

Lemma emit_rings_ok s (rings : list Z) n e cells :
  (forall i, i ∈ rings -> 0 <= i < N cfg) ->
  n + Z.of_nat (length rings) * H cfg <= Z.of_nat (cloud_size cfg) ->
  seg_ok cfg s n e cells ->
  seg_ok cfg s (n + Z.of_nat (length rings) * H cfg)
    (for_each rings (emit_ring cfg s) e)
    (cells ++ flat_map (row_cells cfg s) rings).
Proof.
  revert n e cells. induction rings as [|i rings IH]; intros n e cells Hr Hn Hok.
  - simpl. rewrite Z.add_0_r, app_nil_r. exact Hok.
  - rewrite ImageProjectionFacts.for_each_cons.
    assert (HH : 0 <= H cfg) by (unfold H; lia).
    replace (n + Z.of_nat (length (i :: rings)) * H cfg)
      with ((n + H cfg) + Z.of_nat (length rings) * H cfg) by (simpl length; lia).
    simpl flat_map. rewrite app_assoc. apply IH.
    + intros i' Hi'. apply Hr. right. exact Hi'.
    + simpl length in Hn. lia.
    + apply emit_ring_ok; [apply Hr; left | simpl length in Hn; nia | exact Hok].
Qed.

Lemma extract_segmented_ok s :
  segmented_cloud s = [] ->
  length (segmentedCloudColInd (seg_msg s)) = cloud_size cfg ->
  length (segmentedCloudRange (seg_msg s)) = cloud_size cfg ->
  length (segmentedCloudGroundFlag (seg_msg s)) = cloud_size cfg ->
  seg_ok cfg s (Z.of_nat (cloud_size cfg)) (extract_segmented cfg s) (emitted_cells cfg s).
Proof.
  intros E0 L1 L2 L3. unfold extract_segmented, emitted_cells.
  assert (Hlen : Z.of_nat (length (upto (N_scan cfg))) = N cfg)
    by (unfold upto, N; rewrite length_map, length_seq; reflexivity).
  replace (Z.of_nat (cloud_size cfg))
    with (0 + Z.of_nat (length (upto (N_scan cfg))) * H cfg)
    by (rewrite Hlen; unfold cloud_size, N, H; lia).
  apply (emit_rings_ok s (upto (N_scan cfg)) 0 _ []).
  - intros i Hi. apply ImageProjectionFacts.elem_of_upto in Hi. exact Hi.
  - rewrite Hlen. unfold cloud_size, N, H. lia.
  - unfold seg_ok. rewrite E0. simpl. split_and!; auto; lia.
Qed.

Lemma emitted_cells_ext s s' :
  ground_mat s' = ground_mat s -> label_mat s' = label_mat s ->
  emitted_cells cfg s' = emitted_cells cfg s.
Proof.
  intros E3 E4. unfold emitted_cells, row_cells, emits. rewrite E3, E4. reflexivity.
Qed.

End Segmented.

(** X5.  The segmented cloud a scan sends out is the content of the cells
    that pass the test of the extraction loop, ring by ring and by
    increasing column; it has at most [N_scan * horizon_scan] points, so
    every write to the arrays of the message is inside them; and the first
    entries of [segmentedCloudColInd], [segmentedCloudRange] and
    [segmentedCloudGroundFlag] are the columns, the ranges and the ground
    marks of those cells, in the same order. *)
Theorem cloudHandler_segmented_cloud (cfg : Config) (lm : Libm)
    (msg : list PointType) (s s' : State) (out : ProjectionOut) :
  cloudHandler cfg lm msg s = Some (s', out) ->
  let cells := emitted_cells cfg s' in
  let m := out_seg_msg out in
  out_segmented_cloud out = map (cell_point cfg s') cells
  /\ (length cells <= cloud_size cfg)%nat
  /\ length (segmentedCloudColInd m) = cloud_size cfg
  /\ length (segmentedCloudRange m) = cloud_size cfg
  /\ length (segmentedCloudGroundFlag m) = cloud_size cfg
  /\ take (length cells) (segmentedCloudColInd m) = map snd cells
  /\ take (length cells) (segmentedCloudRange m)
     = map (fun c => mat_get cfg 0%float (range_mat s') c.1 c.2) cells
  /\ take (length cells) (segmentedCloudGroundFlag m)
     = map (fun c => mat_get cfg 0 (ground_mat s') c.1 c.2 =? 1) cells.
Proof.
  intros E.
  destruct (cloudHandler_stages cfg lm msg s s' out E) as (s1 & s4 & E1 & E4 & -> & ->).
  destruct (findStartEndAngle_writes lm _ _ E1)
    as (_ & _ & _ & _ & S1 & _ & _ & _ & A1 & A2 & A3).
  simpl in S1, A1, A2, A3.
  destruct (ImageProjectionFacts.projectPointCloud_frame cfg lm s1)
    as ((_ & S2 & _ & _ & _ & M2 & _) & _).
  pose proof (groundRemoval_inputs cfg lm (projectPointCloud cfg lm s1))
    as (_ & _ & _ & _ & M3 & S3 & _).
  set (s2 := groundRemoval cfg lm (projectPointCloud cfg lm s1)) in *.
  unfold cloudSegmentation in E4.
  destruct (label_all cfg lm s2) as [s3|] eqn:E3; [|discriminate].
  injection E4 as <-.
  destruct (label_all_inputs cfg lm _ _ E3) as [(_ & _ & _ & _ & M4 & S4 & _) _].
  pose proof (extract_segmented_ok cfg s3) as Hok.
  destruct Hok as (Hsz & Hle & L1 & L2 & L3 & Hseg & T1 & T2 & T3).
  { congruence. }
  { rewrite M4, M3, M2, A2. apply length_replicate. }
  { rewrite M4, M3, M2, A3. apply length_replicate. }
  { rewrite M4, M3, M2, A1. apply length_replicate. }
  set (e := extract_segmented cfg s3) in *.
  set (s3' := with_seg_msg (e_msg e) _).
  destruct (ImageProjectionFacts.pure_cells_frame cfg s3')
    as (P1 & _ & P3 & P4 & P5 & P6 & _).
  cbv zeta in P1, P3, P4, P5, P6.
  destruct (nested_rel same_images (upto (N_scan cfg)) (upto (horizon_scan cfg))
              (pure_cell cfg) s3') as (_ & P2 & _);
    [apply same_images_refl | apply same_images_trans
     | intros; apply pure_cell_images |].
  cbv zeta. cbn [publishClouds fst snd out_segmented_cloud out_seg_msg].
  set (s5 := with_seg_msg _ (with_outlier_cloud [] _)).
  assert (F1 : full_cloud s5 = full_cloud s3) by (simpl; rewrite P2; reflexivity).
  assert (F2 : range_mat s5 = range_mat s3) by (simpl; rewrite P4; reflexivity).
  assert (F3 : ground_mat s5 = ground_mat s3) by (simpl; rewrite P3; reflexivity).
  assert (F4 : label_mat s5 = label_mat s3) by (simpl; rewrite P1; reflexivity).
  rewrite (emitted_cells_ext cfg s3 s5 F3 F4), P5, P6, F2, F3.
  unfold cell_point in *. rewrite F1.
  split_and!; try assumption. lia.
Qed.

(** X5, witness: the scan [scan2x8]. *)
Lemma cloudHandler_segmented_cloud_witness :
  exists s' out,
    cloudHandler cfg2x8 Reference.libm scan2x8 (initial_state cfg2x8) = Some (s', out)
    /\ out_segmented_cloud out = map (cell_point cfg2x8 s') (emitted_cells cfg2x8 s')
    /\ take (length (emitted_cells cfg2x8 s')) (segmentedCloudColInd (out_seg_msg out))
       = map snd (emitted_cells cfg2x8 s').
Proof.
  eexists _, _. split; [vm_compute; reflexivity|].
  pose proof (cloudHandler_segmented_cloud cfg2x8 Reference.libm scan2x8
                (initial_state cfg2x8) _ _ ltac:(vm_compute; reflexivity)) as Hx.
  cbv zeta in Hx. split; [apply Hx | apply Hx].
Defined.

(** ** The outlier cloud *)

Section Outliers.

Context (cfg : Config) (lm : Libm).

Implicit Types (s : State) (e : Emit).

Lemma emit_cell_outlier s i j e :
  e_outlier (emit_cell cfg s i j e)
  = e_outlier e ++ if outlier_cell cfg s i j then [cell_point cfg s (i, j)] else [].
Proof.
  unfold emit_cell, outlier_cell, cell_point. cbv zeta.
  destruct (mat_get cfg 0 (label_mat s) i j =? 999999) eqn:B.
  - apply Z.eqb_eq in B. rewrite B. simpl.
    destruct ((i >? Z.of_nat (groundScanInd cfg)) && (j mod 5 =? 0));
      [reflexivity | rewrite app_nil_r; reflexivity].
  - simpl. rewrite app_nil_r.
    destruct (_ || _); [|reflexivity]. destruct (_ && _); reflexivity.
Qed.

Lemma emit_row_outlier s i (js : list Z) e :
  e_outlier (for_each js (emit_cell cfg s i) e)
  = e_outlier e
    ++ map (cell_point cfg s)
         (map (pair i) (filter (fun j => Is_true (outlier_cell cfg s i j)) js)).
Proof.
  revert e. induction js as [|j js IH]; intros e.
  - simpl. rewrite app_nil_r. reflexivity.
  - rewrite ImageProjectionFacts.for_each_cons, IH, emit_cell_outlier, filter_cons.
    rewrite <- app_assoc. destruct (outlier_cell cfg s i j); reflexivity.
Qed.

Lemma emit_rings_outlier s (rings : list Z) e :
  e_outlier (for_each rings (emit_ring cfg s) e)
  = e_outlier e ++ map (cell_point cfg s) (flat_map (outlier_row cfg s) rings).
Proof.
  revert e. induction rings as [|i rings IH]; intros e.
  - simpl. rewrite app_nil_r. reflexivity.
  - rewrite ImageProjectionFacts.for_each_cons, IH. unfold emit_ring. cbv zeta.
    cbn [e_outlier]. rewrite emit_row_outlier. cbn [e_outlier flat_map].
    rewrite map_app, <- app_assoc. reflexivity.
Qed.

End Outliers.

(** X6.  The outlier cloud a scan sends out is the content of the cells
    labeled 999999 that lie in a ring above [groundScanInd] and in a column
    that is a multiple of 5, ring by ring and by increasing column. *)
Theorem cloudHandler_outlier_cloud (cfg : Config) (lm : Libm)
    (msg : list PointType) (s s' : State) (out : ProjectionOut) :
  cloudHandler cfg lm msg s = Some (s', out) ->
  out_outlier_cloud out = map (cell_point cfg s') (outlier_cells cfg s').
Proof.
  intros E.
  destruct (cloudHandler_stages cfg lm msg s s' out E) as (s1 & s4 & E1 & E4 & -> & ->).
  destruct (findStartEndAngle_writes lm _ _ E1) as (_ & _ & _ & _ & _ & O1 & _).
  simpl in O1.
  destruct (ImageProjectionFacts.projectPointCloud_frame cfg lm s1)
    as ((_ & _ & _ & O2 & _) & _).
  pose proof (groundRemoval_inputs cfg lm (projectPointCloud cfg lm s1))
    as (_ & _ & _ & _ & _ & _ & O3).
  set (s2 := groundRemoval cfg lm (projectPointCloud cfg lm s1)) in *.
  unfold cloudSegmentation in E4.
  destruct (label_all cfg lm s2) as [s3|] eqn:E3; [|discriminate].
  injection E4 as <-.
  destruct (label_all_inputs cfg lm _ _ E3) as [(_ & _ & _ & _ & _ & _ & O4) _].
  pose proof (emit_rings_outlier cfg s3 (upto (N_scan cfg))
                (mkEmit 0 (seg_msg s3) (segmented_cloud s3) (outlier_cloud s3))) as Hout.
  change (for_each (upto (N_scan cfg)) (emit_ring cfg s3) _)
    with (extract_segmented cfg s3) in Hout.
  cbn [e_outlier] in Hout. rewrite O4, O3, O2, O1 in Hout. simpl app in Hout.
  set (e := extract_segmented cfg s3) in *.
  set (s3' := with_seg_msg (e_msg e) _).
  destruct (ImageProjectionFacts.pure_cells_frame cfg s3')
    as (P1 & _ & _ & _ & _ & _ & P7).
  cbv zeta in P1, P7.
  destruct (nested_rel same_images (upto (N_scan cfg)) (upto (horizon_scan cfg))
              (pure_cell cfg) s3') as (_ & P2 & _);
    [apply same_images_refl | apply same_images_trans
     | intros; apply pure_cell_images |].
  cbn [publishClouds fst snd out_outlier_cloud].
  set (s5 := with_seg_msg _ (with_outlier_cloud [] _)).
  assert (F1 : full_cloud s5 = full_cloud s3) by (simpl; rewrite P2; reflexivity).
  assert (F4 : label_mat s5 = label_mat s3) by (simpl; rewrite P1; reflexivity).
  rewrite P7. unfold s3' at 1. cbn [outlier_cloud with_seg_msg with_outlier_cloud].
  rewrite Hout.
  unfold outlier_cells, outlier_row, outlier_cell, cell_point. rewrite F1, F4.
  reflexivity.
Qed.

(** X6, witness: the scan [scan2x8]. *)
Lemma cloudHandler_outlier_cloud_witness :
  exists s' out,
    cloudHandler cfg2x8 Reference.libm scan2x8 (initial_state cfg2x8) = Some (s', out)
    /\ out_outlier_cloud out = map (cell_point cfg2x8 s') (outlier_cells cfg2x8 s').
Proof.
  eexists _, _. split; [vm_compute; reflexivity|].
  eapply (cloudHandler_outlier_cloud cfg2x8 Reference.libm scan2x8 (initial_state cfg2x8)).
  vm_compute. reflexivity.
Defined.

End ImageProjectionInvariants.

(** * Further properties of the association stage *)

Module FeatureAssociationInvariants.

Import ImageProjection FeatureAssociation Examples FeatureAssociationVocabulary.

(** ** Column differences and the suppression of neighbours *)

(** X7.  [columnDiff], the absolute value of the difference of two [uint32]
    column indices converted to [int], is the distance of the two columns
    whenever both are below 2^31: the wrap-around of the unsigned
    subtraction is undone by the conversion.  It is symmetric. *)
Theorem columnDiff_is_distance (a b : Z) :
  0 <= a < 2 ^ 31 -> 0 <= b < 2 ^ 31 ->
  columnDiff a b = Z.abs (a - b) /\ columnDiff a b = columnDiff b a.
Proof.
  intros Ha Hb.
  assert (Hab : forall x y, 0 <= x < 2 ^ 31 -> 0 <= y < 2 ^ 31 ->
                            columnDiff x y = Z.abs (x - y)).
  { intros x y Hx Hy. unfold columnDiff. cbv zeta.
    destruct (Z_lt_le_dec x y) as [Hlt|Hge].
    - replace ((x - y) mod 2 ^ 32) with (x - y + 2 ^ 32)
        by (apply Z.mod_unique with (q := -1); lia).
      destruct (_ <? _) eqn:E; [apply Z.ltb_lt in E; lia|]. f_equal. lia.
    - rewrite Z.mod_small by lia.
      destruct (_ <? _) eqn:E; [reflexivity|]. apply Z.ltb_ge in E. lia. }
  split; [apply Hab; assumption|].
  rewrite !Hab by assumption. lia.
Qed.

(** X7, witness: the first and the last column of an image of 1800
    columns. *)
Lemma columnDiff_is_distance_witness :
  columnDiff 0 1799 = Z.abs (0 - 1799) /\ columnDiff 0 1799 = columnDiff 1799 0.
Proof. apply columnDiff_is_distance; lia. Defined.

Section Suppression.

Context (segInfo : cloud_info).

Lemma mark_after_local ls i picked k :
  (forall l, l ∈ ls -> k <> i + l) ->
  zget 0 (mark_after segInfo ls i picked) k = zget 0 picked k.
Proof.
  revert picked. induction ls as [|l ls IH]; intros picked Hk; simpl; [reflexivity|].
  assert (Hk' : forall l', l' ∈ ls -> k <> i + l') by (intros l' Hl'; apply Hk; right; exact Hl').
  destruct (_ >=? _); [apply IH, Hk'|].
  destruct (_ >? _); [reflexivity|].
  rewrite IH by exact Hk'. apply FeatureAssociationFacts.zget_zset_ne.
  intros E. apply (Hk l); [left | congruence].
Qed.

Lemma mark_before_local ls i picked k :
  (forall l, l ∈ ls -> k <> i + l) ->
  zget 0 (mark_before segInfo ls i picked) k = zget 0 picked k.
Proof.
  revert picked. induction ls as [|l ls IH]; intros picked Hk; simpl; [reflexivity|].
  assert (Hk' : forall l', l' ∈ ls -> k <> i + l') by (intros l' Hl'; apply Hk; right; exact Hl').
  destruct (_ <? _); [apply IH, Hk'|].
  destruct (_ >? _); [reflexivity|].
  rewrite IH by exact Hk'. apply FeatureAssociationFacts.zget_zset_ne.
  intros E. apply (Hk l); [left | congruence].
Qed.

(** A gap of more than 10 columns right after the point stops the forward
    marking at once. *)
Lemma mark_after_gap i picked :
  (i + 1) mod 2 ^ 64 < Z.of_nat (length (segmentedCloudColInd segInfo)) ->
  columnDiff (zget 0 (segmentedCloudColInd segInfo) (i + 1))
             (zget 0 (segmentedCloudColInd segInfo) i) > 10 ->
  mark_after segInfo [1; 2; 3; 4; 5] i picked = picked.
Proof.
  intros Hin Hgap. cbn [mark_after].
  destruct (_ >=? _) eqn:E; [rewrite Z.geb_leb in E; apply Z.leb_le in E; lia|].
  replace (i + 1 - 1) with i by lia.
  destruct (_ >? _) eqn:G; [reflexivity|].
  rewrite Z.gtb_ltb in G. apply Z.ltb_ge in G. lia.
Qed.

End Suppression.

(** X8.  The suppression of the neighbourhood of an accepted point [i]
    writes only the array of picked points, only the value 1, and only at
    the indices [i - 5] to [i + 5]; when the next point of the cloud lies
    more than 10 columns away, no index above [i] is written. *)
Theorem suppress_is_local (segInfo : cloud_info) (i : Z) (f : Features) :
  let f' := suppress segInfo i f in
  (forall k, picked_at f' k = picked_at f k \/ picked_at f' k = 1)
  /\ (forall k, k < i - 5 \/ i + 5 < k -> picked_at f' k = picked_at f k)
  /\ ((i + 1) mod 2 ^ 64 < Z.of_nat (length (segmentedCloudColInd segInfo)) ->
      columnDiff (zget 0 (segmentedCloudColInd segInfo) (i + 1))
                 (zget 0 (segmentedCloudColInd segInfo) i) > 10 ->
      forall k, i < k -> picked_at f' k = picked_at f k)
  /\ length (cloudNeighborPicked f') = length (cloudNeighborPicked f)
  /\ cloudLabel f' = cloudLabel f /\ cloudSmoothness f' = cloudSmoothness f
  /\ cloudCurvature f' = cloudCurvature f
  /\ cornerPointsSharp f' = cornerPointsSharp f
  /\ cornerPointsLessSharp f' = cornerPointsLessSharp f
  /\ surfPointsFlat f' = surfPointsFlat f.
Proof.
  cbv zeta. unfold suppress, picked_at, with_cloudNeighborPicked.
  cbn [cloudNeighborPicked cloudLabel cloudSmoothness cloudCurvature cornerPointsSharp
       cornerPointsLessSharp surfPointsFlat].
  set (p0 := zset (cloudNeighborPicked f) i 1).
  destruct (FeatureAssociationFacts.mark_after_spec segInfo [1; 2; 3; 4; 5] i p0) as [L1 K1].
  pose proof (mark_after_local segInfo [1; 2; 3; 4; 5] i p0) as A1.
  pose proof (mark_after_gap segInfo i p0) as G1.
  set (p1 := mark_after segInfo [1; 2; 3; 4; 5] i p0) in *.
  destruct (FeatureAssociationFacts.mark_before_spec segInfo [-1; -2; -3; -4; -5] i p1)
    as [L2 K2].
  pose proof (mark_before_local segInfo [-1; -2; -3; -4; -5] i p1) as A2.
  set (p2 := mark_before segInfo [-1; -2; -3; -4; -5] i p1) in *.
  assert (Hin : forall (ls : list Z) (k : Z), (forall l, l ∈ ls -> k <> i + l)
                <-> Forall (fun l => k <> i + l) ls).
  { intros ls k. rewrite Forall_forall. reflexivity. }
  split_and!; try reflexivity.
  - intros k. destruct (K2 k) as [E2|E2]; [|right; exact E2]. rewrite E2.
    destruct (K1 k) as [E1|E1]; [|right; exact E1]. rewrite E1.
    apply FeatureAssociationFacts.zget_zset_one.
  - intros k Hk.
    rewrite A2 by (apply Hin; repeat constructor; lia).
    rewrite A1 by (apply Hin; repeat constructor; lia).
    apply FeatureAssociationFacts.zget_zset_ne. lia.
  - intros Hlen Hgap k Hk.
    rewrite A2 by (apply Hin; repeat constructor; lia).
    rewrite (G1 Hlen Hgap).
    apply FeatureAssociationFacts.zget_zset_ne. lia.
  - rewrite L2, L1. apply FeatureAssociationFacts.length_zset.
Qed.

(** ** The whole of [extractFeatures] *)

Section Extraction.

Context (edgeThreshold surfThreshold : float)
        (sort_by_value : list smoothness_t -> list smoothness_t)
        (segInfo : cloud_info) (segmentedCloud : list PointType).

Hypothesis sort_sound : forall l x, x ∈ sort_by_value l -> x ∈ l.

Lemma extract_sector_within i j m f :
  within m f ->
  within (m + 1)
    (extract_sector edgeThreshold surfThreshold sort_by_value segInfo segmentedCloud i j f).
Proof.
  intros (Hw & Hsub & B1 & B2 & B3). unfold extract_sector. cbv zeta.
  set (sp := sector_sp segInfo i j). set (ep := sector_ep segInfo i j).
  destruct (sp >=? ep); [unfold within; split_and!; auto; lia|].
  unfold sector_surfaces, sector_corners.
  set (f0 := with_cloudSmoothness _ f).
  assert (Hw0 : features_wf f0)
    by (apply FeatureAssociationFacts.sort_range_wf; assumption).
  destruct (FeatureAssociationFacts.corner_pass_spec edgeThreshold segInfo segmentedCloud
              (rev (zrange sp (ep + 1))) 0 f0) as (sharp & rest & Hc);
    [lia | exact Hw0 |].
  cbv zeta in Hc. set (f1 := corner_pass _ _ _ _ 0 f0) in *.
  destruct Hc as (C1 & C2 & C3 & D1 & D2 & _ & W1 & _).
  destruct (FeatureAssociationFacts.surface_pass_spec surfThreshold segInfo segmentedCloud
              (zrange sp (ep + 1)) 0 f1) as (flat & Hs); [lia | exact W1 |].
  cbv zeta in Hs. set (f2 := surface_pass _ _ _ _ 0 f1) in *.
  destruct Hs as (S1 & S2 & S3 & D4 & W2 & _).
  destruct (FeatureAssociationFacts.less_flat_pass_frame segmentedCloud
              (zrange sp (ep + 1)) f2) as (F1 & F2 & F3 & F4 & F5 & F6).
  set (f3 := less_flat_pass _ _ f2) in *.
  unfold within. rewrite F4, F5, F6, S1, S2, S3, C1, C2, C3.
  change (cornerPointsSharp f0) with (cornerPointsSharp f).
  change (cornerPointsLessSharp f0) with (cornerPointsLessSharp f).
  change (surfPointsFlat f0) with (surfPointsFlat f).
  rewrite !length_app, !length_map, length_app.
  split_and!; try lia.
  - destruct W2 as (G1 & G2 & G3). unfold features_wf. rewrite F1, F2, F3. auto.
  - rewrite map_app. apply sublist_app; [exact Hsub|]. apply sublist_inserts_r. reflexivity.
Qed.

Lemma extract_ring_within downSizeFilter i m f :
  within m f ->
  within (m + 6)
    (extract_ring edgeThreshold surfThreshold sort_by_value downSizeFilter
       segInfo segmentedCloud i f).
Proof.
  intros Hin. unfold extract_ring. cbv zeta.
  set (f1 := for_each (upto 6) _ _).
  assert (H1 : within (m + 6) f1).
  { subst f1.
    apply (ImageProjectionInvariants.for_each_counted within
             (extract_sector edgeThreshold surfThreshold sort_by_value segInfo
                segmentedCloud i) (upto 6) m).
    - exact Hin.
    - intros j n f0 _ _. apply extract_sector_within. }
  exact H1.
Qed.

End Extraction.

Lemma extractFeatures_within (N_scan : nat) (edgeThreshold surfThreshold : float)
    (sort_by_value : list smoothness_t -> list smoothness_t)
    (downSizeFilter : list PointType -> list PointType)
    (segInfo : cloud_info) (segmentedCloud : list PointType) (f : Features) :
  (forall l x, x ∈ sort_by_value l -> x ∈ l) ->
  features_wf f ->
  within (6 * Z.of_nat N_scan)
    (extractFeatures N_scan edgeThreshold surfThreshold sort_by_value
       downSizeFilter segInfo segmentedCloud f).
Proof.
  intros Hsort Hw. unfold extractFeatures.
  pose proof (ImageProjectionInvariants.for_each_counted
                (fun n => within (6 * n))
                (extract_ring edgeThreshold surfThreshold sort_by_value
                   downSizeFilter segInfo segmentedCloud)
                (upto N_scan) 0
                (with_surfPointsLessFlat []
                   (with_surfPointsFlat []
                      (with_cornerPointsLessSharp [] (with_cornerPointsSharp [] f)))))
    as Hloop.
  cbv beta in Hloop.
  assert (Hlen : length (upto N_scan) = N_scan)
    by (unfold upto; rewrite length_map, length_seq; reflexivity).
  rewrite Hlen, Z.add_0_l in Hloop. apply Hloop.
  - unfold within. simpl. split_and!; auto; try lia; try reflexivity.
  - intros i n f0 _ _ H0. replace (6 * (n + 1)) with (6 * n + 6) by lia.
    apply extract_ring_within; assumption.
Qed.

(** X9.  Whatever the scan, [extractFeatures] fills [cornerPointsSharp]
    with at most 12 points per ring, [cornerPointsLessSharp] with at most 120
    and [surfPointsFlat] with at most 24; every sharp corner is also among
    the less sharp ones, in the same order; and the arrays keep the sizes
    and the index range that the function relies on. *)
Theorem extractFeatures_counts (N_scan : nat) (edgeThreshold surfThreshold : float)
    (sort_by_value : list smoothness_t -> list smoothness_t)
    (downSizeFilter : list PointType -> list PointType)
    (segInfo : cloud_info) (segmentedCloud : list PointType) (f : Features) :
  (forall l x, x ∈ sort_by_value l -> x ∈ l) ->
  features_wf f ->
  let f' := extractFeatures N_scan edgeThreshold surfThreshold sort_by_value
              downSizeFilter segInfo segmentedCloud f in
  sublist (cornerPointsSharp f') (cornerPointsLessSharp f')
  /\ (length (cornerPointsSharp f') <= 12 * N_scan)%nat
  /\ (length (cornerPointsLessSharp f') <= 120 * N_scan)%nat
  /\ (length (surfPointsFlat f') <= 24 * N_scan)%nat
  /\ features_wf f'.
Proof.
  intros Hsort Hw. cbv zeta.
  destruct (extractFeatures_within N_scan edgeThreshold surfThreshold sort_by_value
              downSizeFilter segInfo segmentedCloud f Hsort Hw)
    as (W & Hsub & B1 & B2 & B3).
  split_and!; auto; lia.
Qed.

(** X9, witness: the ring of 30 points [ring30_features]. *)
Lemma extractFeatures_counts_witness :
  let f' := extractFeatures 1 0x1.999999999999ap-4 0x1.999999999999ap-4
              (fun l => l) (fun c => c) ring30_info ring30_cloud ring30_features in
  sublist (cornerPointsSharp f') (cornerPointsLessSharp f')
  /\ (length (cornerPointsSharp f') <= 12 * 1)%nat
  /\ (length (cornerPointsLessSharp f') <= 120 * 1)%nat
  /\ (length (surfPointsFlat f') <= 24 * 1)%nat
  /\ features_wf f'.
Proof.
  apply (extractFeatures_counts 1 0x1.999999999999ap-4 0x1.999999999999ap-4
           (fun l => l) (fun c => c) ring30_info ring30_cloud ring30_features).
  - intros l x Hx. exact Hx.
  - unfold features_wf. split_and!; [reflexivity | simpl; lia |].
    vm_compute. repeat constructor; discriminate.
Defined.

(** ** The solver *)

Lemma tget_sanitize (t : list float) (k : nat) :
  tget (sanitize t) k = if isnan (tget t k) then 0%float else tget t k.
Proof.
  unfold tget, sanitize, nth_def. rewrite list_lookup_fmap.
  destruct (t !! k); reflexivity.
Qed.

Lemma tget_insert_ne (t : list float) (i k : nat) (v : float) :
  i <> k -> tget (<[i := v]> t) k = tget t k.
Proof.
  intros Hne. unfold tget, nth_def. rewrite list_lookup_insert_ne by exact Hne.
  reflexivity.
Qed.

Lemma sanitize_no_nan (t : list float) :
  Forall (fun x => isnan x = false) (sanitize t).
Proof.
  unfold sanitize. apply Forall_fmap, Forall_forall. intros x _. simpl.
  destruct (isnan x) eqn:E; [reflexivity | exact E].
Qed.

(** X10.  After a step of either solve no component of [transformCur] is
    NaN.  A surface step updates the components 0, 2 and 4 only and a
    corner step the components 1, 3 and 5 only: each other component keeps
    its value, or becomes 0 if it was NaN.  The clouds of the
    correspondences are not touched. *)
Theorem solve_step_components (lm : Libm) (eg : EigenLib) (iterCount : Z)
    (matP0 : Mat) (s : Solve) :
  let s1 := fst (calculateTransformationSurf lm eg iterCount matP0 s) in
  let s2 := fst (calculateTransformationCorner lm eg iterCount matP0 s) in
  let kept k := if isnan (tget (transformCur s) k) then 0%float
                else tget (transformCur s) k in
  Forall (fun x => isnan x = false) (transformCur s1)
  /\ Forall (fun x => isnan x = false) (transformCur s2)
  /\ length (transformCur s1) = length (transformCur s)
  /\ length (transformCur s2) = length (transformCur s)
  /\ (forall k, k = 1%nat \/ k = 3%nat \/ k = 5%nat -> tget (transformCur s1) k = kept k)
  /\ (forall k, k = 0%nat \/ k = 2%nat \/ k = 4%nat -> tget (transformCur s2) k = kept k)
  /\ laserCloudOri s1 = laserCloudOri s /\ coeffSel s1 = coeffSel s
  /\ laserCloudOri s2 = laserCloudOri s /\ coeffSel s2 = coeffSel s.
Proof.
  cbv zeta. unfold calculateTransformationSurf, calculateTransformationCorner.
  destruct (solve_update eg iterCount matP0 (isDegenerate s) _) as [d1 X1].
  destruct (solve_update eg iterCount matP0 (isDegenerate s) _) as [d2 X2].
  cbn [fst transformCur laserCloudOri coeffSel].
  split_and!; try reflexivity.
  - apply sanitize_no_nan.
  - apply sanitize_no_nan.
  - unfold sanitize. rewrite length_map, !length_insert. reflexivity.
  - unfold sanitize. rewrite length_map, !length_insert. reflexivity.
  - intros k Hk. rewrite tget_sanitize, !tget_insert_ne by lia. reflexivity.
  - intros k Hk. rewrite tget_sanitize, !tget_insert_ne by lia. reflexivity.
Qed.

(** ** The scan loop *)

Section ScanLoop.

Context (lm : Libm) (eg : EigenLib) (Hidden : Type) (ext : Externals Hidden).

Implicit Types (s : State Hidden) (p : ProjectionOut).

Lemma feature_extraction_bookkeeping p s :
  same_bookkeeping s (feature_extraction ext p s).
Proof.
  unfold feature_extraction. cbv zeta.
  destruct (adjustDistortion _ _ _ _) as [m1 w1]. repeat split.
Qed.

Lemma updateTransformation_bookkeeping s :
  same_bookkeeping s (updateTransformation lm eg ext s).
Proof.
  unfold updateTransformation. destruct (_ || _); [repeat split|].
  destruct (surf_iterations _ _ _ _ _ _) as [w1 sv1].
  destruct (corner_iterations _ _ _ _ _ _) as [w2 sv2]. repeat split.
Qed.

Lemma integrateTransformation_writes s :
  exists ts, integrateTransformation lm s = with_transformSum ts s.
Proof.
  unfold integrateTransformation. cbv zeta.
  destruct (AccumulateRotation lm _ _ _ _ _ _) as [[rx ry] rz].
  destruct (PluginIMURotation lm _ _ _ _ _ _ _ _ _) as [[ax ay] az].
  eexists. reflexivity.
Qed.

Lemma before_publication s :
  same_bookkeeping s
    (integrateTransformation lm
       (updateTransformation lm eg ext (updateInitialGuess ext s))).
Proof.
  destruct (integrateTransformation_writes
              (updateTransformation lm eg ext (updateInitialGuess ext s))) as [ts ->].
  destruct (updateTransformation_bookkeeping (updateInitialGuess ext s)) as (A & B & C).
  unfold same_bookkeeping. cbn [with_transformSum systemInitedLM cycle_count laserOdometry].
  rewrite A, B, C. repeat split.
Qed.

End ScanLoop.

(** X11.  What a scan sends on the odometry topic and on the channel to the
    mapping stage; the clouds published for display and the transform
    broadcast are not part of the statement.  Every scan leaves the stage
    initialized.  The first scan sends no odometry message and no bundle, and
    keeps the counter of the mapping bundles.  Every later scan publishes
    exactly one odometry message, whose position is the translation of
    [transformSum] after the scan; when the incremented counter equals
    [mappingFrequencyDivider] it is reset and exactly one bundle is sent, with
    the clouds [laserCloudCornerLast], [laserCloudSurfLast], [outlierCloud] of
    the state and that same odometry; otherwise the counter is incremented
    and no bundle is sent. *)
Theorem scan_outputs (lm : Libm) (eg : EigenLib) (Hidden : Type)
    (ext : Externals Hidden) (p : ProjectionOut) (s : State Hidden) :
  let r := scan lm eg ext p s in
  systemInitedLM (fst r) = true
  /\ (systemInitedLM s = false ->
      odometry_messages (snd r) = [] /\ bundles (snd r) = []
      /\ cycle_count (fst r) = cycle_count s
      /\ laserOdometry (fst r) = laserOdometry s)
  /\ (systemInitedLM s = true ->
      let o := laserOdometry (fst r) in
      odometry_messages (snd r) = [o]
      /\ position o = (tget (transformSum (fst r)) 3, tget (transformSum (fst r)) 4,
                       tget (transformSum (fst r)) 5)
      /\ if cycle_count s + 1 =? mappingFrequencyDivider _ ext
         then bundles (snd r)
              = [mkAssociationOut (laserCloudCornerLast (work (fst r)))
                   (laserCloudSurfLast (work (fst r)))
                   (outlierCloud (work (fst r))) o]
              /\ cycle_count (fst r) = 0
         else bundles (snd r) = [] /\ cycle_count (fst r) = cycle_count s + 1).
Proof.
  cbv zeta. unfold scan. cbv zeta.
  destruct (feature_extraction_bookkeeping _ ext p s) as (A & B & C).
  set (s1 := feature_extraction ext p s) in *. rewrite <- A, <- B, <- C.
  destruct (systemInitedLM s1) eqn:Einit; cbn [negb].
  - destruct (before_publication lm eg _ ext s1) as (A3 & B3 & C3).
    unfold associate. cbv zeta. revert A3 B3 C3.
    generalize (integrateTransformation lm
                  (updateTransformation lm eg ext (updateInitialGuess ext s1))).
    intros s3 A3 B3 C3. unfold publishOdometry.
    destruct (createQuaternionMsgFromRollPitchYaw _ _ _ _ _) as [[[qx qy] qz] qw].
    cbv zeta. cbn [publishCloudsLast cycle_count].
    rewrite B3.
    destruct (cycle_count s1 + 1 =? mappingFrequencyDivider _ ext);
      cbn [fst snd systemInitedLM cycle_count laserOdometry transformSum work position
           laserCloudCornerLast laserCloudSurfLast outlierCloud
           odometry_messages bundles omap list_omap];
      (split; [rewrite A3; exact Einit|]); (split; [discriminate|]);
      intros _; repeat split.
  - cbn [fst snd checkSystemInitialization systemInitedLM cycle_count laserOdometry
         odometry_messages bundles omap list_omap].
    split; [reflexivity|]. split; [intros _; repeat split | discriminate].
Qed.

(** X12.  After every scan the two counters of the target clouds are the
    sizes of [laserCloudCornerLast] and [laserCloudSurfLast], the clouds that
    the test of [updateTransformation] in the next scan is about. *)
Theorem scan_counts_last_clouds (lm : Libm) (eg : EigenLib) (Hidden : Type)
    (ext : Externals Hidden) (p : ProjectionOut) (s : State Hidden) :
  let s' := fst (scan lm eg ext p s) in
  laserCloudCornerLastNum s' = Z.of_nat (length (laserCloudCornerLast (work s')))
  /\ laserCloudSurfLastNum s' = Z.of_nat (length (laserCloudSurfLast (work s'))).
Proof.
  cbv zeta. unfold scan. cbv zeta.
  set (s1 := feature_extraction ext p s).
  destruct (systemInitedLM s1); cbn [negb].
  - unfold associate. cbv zeta.
    generalize (integrateTransformation lm
                  (updateTransformation lm eg ext (updateInitialGuess ext s1))).
    intros s3. unfold publishOdometry.
    destruct (createQuaternionMsgFromRollPitchYaw _ _ _ _ _) as [[[qx qy] qz] qw].
    cbv zeta. cbn [publishCloudsLast cycle_count].
    destruct (_ =? mappingFrequencyDivider _ ext);
      cbn [fst laserCloudCornerLastNum laserCloudSurfLastNum work with_clouds
           laserCloudCornerLast laserCloudSurfLast publishCloudsLast];
      split; reflexivity.
  - cbn [fst checkSystemInitialization laserCloudCornerLastNum laserCloudSurfLastNum
         work]. split; reflexivity.
Qed.

(** X13.  [adjustOutlierCloud] renames the coordinates of every point,
    [(x, y, z)] becoming [(y, z, x)], and keeps the intensity and the number of
    points; applied three times it gives the cloud back. *)
Theorem adjustOutlierCloud_cycle (cloud : list PointType) :
  length (adjustOutlierCloud cloud) = length cloud
  /\ (forall k p, cloud !! k = Some p ->
        adjustOutlierCloud cloud !! k = Some (mkPoint (py p) (pz p) (px p) (intensity p)))
  /\ adjustOutlierCloud (adjustOutlierCloud (adjustOutlierCloud cloud)) = cloud.
Proof.
  unfold adjustOutlierCloud. split_and!.
  - apply length_map.
  - intros k p Hk. rewrite list_lookup_fmap, Hk. reflexivity.
  - rewrite <- !list_fmap_compose. rewrite <- (list_fmap_id cloud) at 2.
    apply list_fmap_ext. intros _ [x y z w] _. reflexivity.
Qed.

End FeatureAssociationInvariants.

(** * Properties of the stages before the extraction of features *)

Module FeatureAssociationStagesInvariants.

Import ImageProjection FeatureAssociation FeatureAssociationStages
       FeatureAssociationVocabulary Examples.

Lemma elem_of_zrange (lo hi k : Z) : k ∈ zrange lo hi <-> lo <= k < hi.
Proof.
  unfold zrange. rewrite list_elem_of_fmap. split.
  - intros (i & -> & Hi). apply elem_of_seq in Hi. lia.
  - intros Hk. exists (Z.to_nat (k - lo)). split; [lia|]. apply elem_of_seq. lia.
Qed.

(** ** calculateSmoothness *)

Section Smoothness.

Context (segInfo : cloud_info).

Implicit Types (f : Features).

Lemma smooth_point_entry i f n :
  arrays_ok n f -> 0 <= i < Z.of_nat n ->
  let d := diffRange segInfo i in
  arrays_ok n (smooth_point segInfo i f)
  /\ entry (smooth_point segInfo i f) i = (mkSmoothness (d * d) i, (d * d)%float, 0, 0)
  /\ (forall k, k <> i -> entry (smooth_point segInfo i f) k = entry f k)
  /\ clouds (smooth_point segInfo i f) = clouds f.
Proof.
  intros ((Hlen & Hpos & Hall) & L1 & L2 & L3) Hi. cbv zeta.
  unfold smooth_point, arrays_ok, features_wf, entry, clouds, picked_at, label_of.
  cbv zeta. cbn [cloudSmoothness cloudCurvature cloudNeighborPicked cloudLabel
    cornerPointsSharp cornerPointsLessSharp surfPointsFlat surfPointsLessFlat
    surfPointsLessFlatScan].
  rewrite !FeatureAssociationFacts.length_zset.
  split_and!; try assumption; try reflexivity.
  - unfold zset. destruct (i <? 0); [exact Hall|].
    apply Forall_insert; [exact Hall|]. simpl. lia.
  - rewrite !FeatureAssociationFacts.zget_zset_eq
      by (rewrite ?FeatureAssociationFacts.length_zset; lia).
    reflexivity.
  - intros k Hk. rewrite !FeatureAssociationFacts.zget_zset_ne by congruence.
    reflexivity.
Qed.

Lemma smooth_points_entries (ks : list Z) f n :
  arrays_ok n f -> (forall k, k ∈ ks -> 0 <= k < Z.of_nat n) ->
  let f' := for_each ks (smooth_point segInfo) f in
  arrays_ok n f'
  /\ (forall i, i ∈ ks ->
        entry f' i = (mkSmoothness (diffRange segInfo i * diffRange segInfo i) i,
                      (diffRange segInfo i * diffRange segInfo i)%float, 0, 0))
  /\ (forall i, i ∉ ks -> entry f' i = entry f i)
  /\ clouds f' = clouds f.
Proof.
  revert f. induction ks as [|k ks IH]; intros f Hok Hks; cbv zeta.
  - simpl. split_and!; auto. intros i Hi. apply elem_of_nil in Hi as [].
  - rewrite ImageProjectionFacts.for_each_cons.
    destruct (smooth_point_entry k f n Hok) as (Hok1 & E1 & N1 & C1);
      [apply Hks; left|].
    cbv zeta in E1.
    destruct (IH (smooth_point segInfo k f) Hok1) as (Hok' & E' & N' & C');
      [intros k' Hk'; apply Hks; right; exact Hk'|].
    cbv zeta in E', N', C'.
    split_and!.
    + exact Hok'.
    + intros i Hi. destruct (decide (i ∈ ks)) as [Hin|Hnin]; [apply E', Hin|].
      apply elem_of_cons in Hi as [->|Hi]; [|contradiction].
      rewrite (N' k Hnin). exact E1.
    + intros i Hi. apply not_elem_of_cons in Hi as [Hne Hnin].
      rewrite (N' i Hnin). apply N1, Hne.
    + congruence.
Qed.

End Smoothness.

(** X14.  [calculateSmoothness] rewrites the entries 5 to [cloudSize - 6]
    of the four arrays: the curvature is the square of [diffRange], the
    smoothness record holds that curvature and the index of the point itself,
    the picked mark and the label are cleared.  Every other entry, the first
    and the last five points of the cloud included, keeps what the previous
    scan left; the feature clouds are not touched. *)
Theorem calculateSmoothness_window (segInfo : cloud_info) (cloudSize : Z)
    (n : nat) (f : Features) :
  arrays_ok n f -> cloudSize <= Z.of_nat n ->
  let f' := calculateSmoothness segInfo cloudSize f in
  arrays_ok n f'
  /\ (forall i, 5 <= i < cloudSize - 5 ->
        entry f' i = (mkSmoothness (diffRange segInfo i * diffRange segInfo i) i,
                      (diffRange segInfo i * diffRange segInfo i)%float, 0, 0))
  /\ (forall i, i < 5 \/ cloudSize - 5 <= i -> entry f' i = entry f i)
  /\ clouds f' = clouds f.
Proof.
  intros Hok Hn. cbv zeta. unfold calculateSmoothness.
  destruct (smooth_points_entries segInfo (zrange 5 (cloudSize - 5)) f n Hok)
    as (Hok' & E & N & C).
  { intros k Hk. apply elem_of_zrange in Hk. lia. }
  cbv zeta in E, N, C. split_and!; [exact Hok' | | | exact C].
  - intros i Hi. apply E, elem_of_zrange, Hi.
  - intros i Hi. apply N. rewrite elem_of_zrange. lia.
Qed.

(** ** markOccludedPoints *)

Section Occlusion.

Context (segInfo : cloud_info).

Lemma set_picked_spec (ks : list Z) (picked : list Z) :
  length (set_picked ks picked) = length picked
  /\ forall k, (zget 0 (set_picked ks picked) k = zget 0 picked k
                \/ zget 0 (set_picked ks picked) k = 1)
               /\ (k ∉ ks -> zget 0 (set_picked ks picked) k = zget 0 picked k).
Proof.
  unfold set_picked. revert picked. induction ks as [|a ks IH]; intros picked.
  - simpl. auto.
  - rewrite ImageProjectionFacts.for_each_cons.
    destruct (IH (zset picked a 1)) as [L K].
    split; [rewrite L; apply FeatureAssociationFacts.length_zset|].
    intros k. destruct (K k) as [K1 K2]. split.
    + destruct K1 as [E|E]; [|right; exact E]. rewrite E.
      apply FeatureAssociationFacts.zget_zset_one.
    + intros Hk. apply not_elem_of_cons in Hk as [Hne Hnin].
      rewrite (K2 Hnin). apply FeatureAssociationFacts.zget_zset_ne. congruence.
Qed.

(** One turn of the loop writes 1 and nothing else, between [i - 5] and
    [i + 6]. *)
Lemma occlusion_at_spec (i : Z) (picked : list Z) :
  length (occlusion_at segInfo i picked) = length picked
  /\ forall k, (zget 0 (occlusion_at segInfo i picked) k = zget 0 picked k
                \/ zget 0 (occlusion_at segInfo i picked) k = 1)
               /\ (k < i - 5 \/ i + 6 < k ->
                   zget 0 (occlusion_at segInfo i picked) k = zget 0 picked k).
Proof.
  unfold occlusion_at. cbv zeta.
  set (p1 := if columnDiff _ _ <? 10 then _ else picked).
  assert (H1 : length p1 = length picked
               /\ forall k, (zget 0 p1 k = zget 0 picked k \/ zget 0 p1 k = 1)
                            /\ (k < i - 5 \/ i + 6 < k -> zget 0 p1 k = zget 0 picked k)).
  { subst p1. destruct (_ <? 10); [|auto].
    destruct (PrimFloat.ltb _ _).
    - destruct (set_picked_spec [i - 5; i - 4; i - 3; i - 2; i - 1; i] picked) as [L K].
      split; [exact L|]. intros k. destruct (K k) as [K1 K2]. split; [exact K1|].
      intros Hk. apply K2. rewrite !not_elem_of_cons. split_and!; try lia.
      apply not_elem_of_nil.
    - destruct (PrimFloat.ltb _ _); [|auto].
      destruct (set_picked_spec [i + 1; i + 2; i + 3; i + 4; i + 5; i + 6] picked)
        as [L K].
      split; [exact L|]. intros k. destruct (K k) as [K1 K2]. split; [exact K1|].
      intros Hk. apply K2. rewrite !not_elem_of_cons. split_and!; try lia.
      apply not_elem_of_nil. }
  destruct H1 as [L1 K1]. destruct (_ && _); [|split; [exact L1 | exact K1]].
  split; [rewrite FeatureAssociationFacts.length_zset; exact L1|].
  intros k. destruct (K1 k) as [A B]. split.
  - destruct (FeatureAssociationFacts.zget_zset_one p1 i k) as [E|E];
      [rewrite E; exact A | right; exact E].
  - intros Hk. rewrite FeatureAssociationFacts.zget_zset_ne by lia. apply B, Hk.
Qed.

End Occlusion.

Lemma initial_features_ok (n : nat) : (0 < n)%nat -> arrays_ok n (initial_features n).
Proof.
  intros Hn. unfold arrays_ok, features_wf, initial_features. simpl.
  rewrite !length_replicate. split_and!; auto.
  apply Forall_replicate. simpl. lia.
Qed.

(** X14, witness: the first scan of a ring of 30 points. *)
Lemma calculateSmoothness_window_witness :
  let f' := calculateSmoothness ring30_info 30 (initial_features 30) in
  arrays_ok 30 f'
  /\ (forall i, 5 <= i < 30 - 5 ->
        entry f' i = (mkSmoothness (diffRange ring30_info i * diffRange ring30_info i) i,
                      (diffRange ring30_info i * diffRange ring30_info i)%float, 0, 0))
  /\ (forall i, i < 5 \/ 30 - 5 <= i -> entry f' i = entry (initial_features 30) i)
  /\ clouds f' = clouds (initial_features 30).
Proof.
  apply (calculateSmoothness_window ring30_info 30 30 (initial_features 30)).
  - apply initial_features_ok. lia.
  - lia.
Defined.

(** X15.  [markOccludedPoints] writes the array of picked points only, the
    value 1 only, and at indices inside the segmented cloud only: an entry
    keeps its value or becomes 1, and the entries below 0 or from [cloudSize]
    on are not written.  Labels, curvatures, smoothness records and feature
    clouds are not touched. *)
Theorem markOccludedPoints_marks (segInfo : cloud_info) (cloudSize : Z) (f : Features) :
  let f' := markOccludedPoints segInfo cloudSize f in
  (forall k, picked_at f' k = picked_at f k \/ picked_at f' k = 1)
  /\ (forall k, k < 0 \/ cloudSize <= k -> picked_at f' k = picked_at f k)
  /\ length (cloudNeighborPicked f') = length (cloudNeighborPicked f)
  /\ cloudLabel f' = cloudLabel f /\ cloudCurvature f' = cloudCurvature f
  /\ cloudSmoothness f' = cloudSmoothness f /\ clouds f' = clouds f.
Proof.
  cbv zeta. unfold markOccludedPoints, picked_at, clouds. simpl.
  set (p0 := cloudNeighborPicked f).
  assert (Hloop : let p' := for_each (zrange 5 (cloudSize - 6)) (occlusion_at segInfo) p0 in
                  length p' = length p0
                  /\ forall k, (zget 0 p' k = zget 0 p0 k \/ zget 0 p' k = 1)
                               /\ (k < 0 \/ cloudSize <= k -> zget 0 p' k = zget 0 p0 k)).
  { cbv zeta.
    apply (ImageProjectionFacts.for_each_inv
             (fun p' => length p' = length p0
                        /\ forall k, (zget 0 p' k = zget 0 p0 k \/ zget 0 p' k = 1)
                                     /\ (k < 0 \/ cloudSize <= k ->
                                         zget 0 p' k = zget 0 p0 k))).
    - auto.
    - intros i p Hi [L K]. apply elem_of_zrange in Hi.
      destruct (occlusion_at_spec segInfo i p) as [L1 K1].
      split; [congruence|]. intros k. destruct (K k) as [A B], (K1 k) as [A1 B1].
      split.
      + destruct A1 as [E|E]; [rewrite E; exact A | right; exact E].
      + intros Hk. rewrite B1 by lia. apply B, Hk. }
  cbv zeta in Hloop. destruct Hloop as [L K].
  split_and!; try reflexivity; [intros k; apply K | intros k; apply K | exact L].
Qed.

Lemma markOccludedPoints_marks_wf (segInfo : cloud_info) (cloudSize : Z) (f : Features) :
  features_wf f ->
  features_wf (markOccludedPoints segInfo cloudSize f)
  /\ length (cloudLabel (markOccludedPoints segInfo cloudSize f)) = length (cloudLabel f).
Proof.
  intros (Hlen & Hpos & Hall). unfold markOccludedPoints, features_wf. simpl.
  split_and!; try assumption; try reflexivity.
  rewrite <- Hlen.
  apply (ImageProjectionFacts.for_each_inv
           (fun p' => length p' = length (cloudNeighborPicked f))); [reflexivity|].
  intros i p _ L. rewrite <- L. apply occlusion_at_spec.
Qed.

(** ** The feature arrays from one scan to the next *)

Section Arrays.

Context (edgeThreshold surfThreshold : float)
        (sort_by_value : list smoothness_t -> list smoothness_t)
        (segInfo : cloud_info) (segmentedCloud : list PointType).

Implicit Types (f : Features).

Lemma suppress_label i f : cloudLabel (suppress segInfo i f) = cloudLabel f.
Proof. reflexivity. Qed.

Lemma corner_pass_label_length ks n f :
  length (cloudLabel (corner_pass edgeThreshold segInfo segmentedCloud ks n f))
  = length (cloudLabel f).
Proof.
  revert n f. induction ks as [|k ks IH]; intros n f; [reflexivity|].
  cbn [corner_pass]. cbv zeta. destruct (_ && _); [|apply IH].
  destruct (_ <=? 2); [|destruct (_ <=? 20); [|reflexivity]];
    rewrite IH, suppress_label; simpl; apply FeatureAssociationFacts.length_zset.
Qed.

Lemma surface_pass_label_length ks n f :
  length (cloudLabel (surface_pass surfThreshold segInfo segmentedCloud ks n f))
  = length (cloudLabel f).
Proof.
  revert n f. induction ks as [|k ks IH]; intros n f; [reflexivity|].
  cbn [surface_pass]. cbv zeta. destruct (_ && _); [|apply IH].
  destruct (_ >=? 4).
  - simpl. apply FeatureAssociationFacts.length_zset.
  - rewrite IH, suppress_label. simpl. apply FeatureAssociationFacts.length_zset.
Qed.

Lemma extract_sector_label_length i j f :
  length (cloudLabel (extract_sector edgeThreshold surfThreshold sort_by_value
                        segInfo segmentedCloud i j f))
  = length (cloudLabel f).
Proof.
  unfold extract_sector. cbv zeta. destruct (_ >=? _); [reflexivity|].
  destruct (FeatureAssociationFacts.less_flat_pass_frame segmentedCloud
              (zrange (sector_sp segInfo i j) (sector_ep segInfo i j + 1))
              (sector_surfaces surfThreshold segInfo segmentedCloud
                 (sector_sp segInfo i j) (sector_ep segInfo i j)
                 (sector_corners edgeThreshold sort_by_value segInfo segmentedCloud
                    (sector_sp segInfo i j) (sector_ep segInfo i j) f))) as (F1 & _).
  rewrite F1. unfold sector_surfaces, sector_corners.
  rewrite surface_pass_label_length, corner_pass_label_length. reflexivity.
Qed.

Lemma extractFeatures_label_length N_scan downSizeFilter f :
  length (cloudLabel (extractFeatures N_scan edgeThreshold surfThreshold sort_by_value
                        downSizeFilter segInfo segmentedCloud f))
  = length (cloudLabel f).
Proof.
  unfold extractFeatures.
  apply (ImageProjectionFacts.for_each_inv
           (fun f' => length (cloudLabel f') = length (cloudLabel f))); [reflexivity|].
  intros i f0 _ H0. unfold extract_ring. cbv zeta.
  cbn [with_surfPointsLessFlat cloudLabel].
  apply (ImageProjectionFacts.for_each_inv
           (fun f' => length (cloudLabel f') = length (cloudLabel f))); [exact H0|].
  intros j f1 _ H1. rewrite extract_sector_label_length. exact H1.
Qed.

Lemma calculateSmoothness_wf cloudSize f :
  features_wf f -> cloudSize <= Z.of_nat (length (cloudLabel f)) ->
  features_wf (calculateSmoothness segInfo cloudSize f)
  /\ length (cloudLabel (calculateSmoothness segInfo cloudSize f)) = length (cloudLabel f).
Proof.
  intros Hw Hn. unfold calculateSmoothness.
  apply (ImageProjectionFacts.for_each_inv
           (fun f' => features_wf f' /\ length (cloudLabel f') = length (cloudLabel f)));
    [auto|].
  intros i f0 Hi ((Hlen & Hpos & Hall) & L0). apply elem_of_zrange in Hi.
  unfold smooth_point, features_wf. cbv zeta.
  cbn [cloudSmoothness cloudNeighborPicked cloudLabel].
  rewrite !FeatureAssociationFacts.length_zset.
  split_and!; try assumption.
  unfold zset at 1. destruct (i <? 0); [exact Hall|].
  apply Forall_insert; [exact Hall|]. simpl. lia.
Qed.

End Arrays.

(** X16.  The size and index conditions under which [extractFeatures]
    stays inside its arrays hold from one scan to the next: they hold for the
    arrays as [initializationValue] sizes them, and when they hold before
    [calculateSmoothness] they hold after it, after [markOccludedPoints] and
    after [extractFeatures], for every segmented cloud that fits the
    arrays. *)
Theorem feature_arrays_invariant (N_scan : nat) (edgeThreshold surfThreshold : float)
    (sort_by_value : list smoothness_t -> list smoothness_t)
    (downSizeFilter : list PointType -> list PointType)
    (segInfo : cloud_info) (segmentedCloud : list PointType)
    (cloudSize : Z) (n : nat) (f : Features) :
  (forall l x, x ∈ sort_by_value l -> x ∈ l) ->
  (0 < n)%nat -> cloudSize <= Z.of_nat n ->
  f = initial_features n \/ (features_wf f /\ length (cloudLabel f) = n) ->
  let f1 := calculateSmoothness segInfo cloudSize f in
  let f2 := markOccludedPoints segInfo cloudSize f1 in
  let f3 := extractFeatures N_scan edgeThreshold surfThreshold sort_by_value
              downSizeFilter segInfo segmentedCloud f2 in
  features_wf f /\ features_wf f1 /\ features_wf f2
  /\ features_wf f3 /\ length (cloudLabel f3) = n.
Proof.
  intros Hsort Hn Hsize Hf. cbv zeta.
  assert (Hw : features_wf f /\ length (cloudLabel f) = n).
  { destruct Hf as [->|Hf]; [|exact Hf].
    unfold features_wf, initial_features. simpl. rewrite !length_replicate.
    split_and!; auto. apply Forall_replicate. simpl. lia. }
  destruct Hw as [Hw Hl].
  destruct (calculateSmoothness_wf segInfo cloudSize f Hw) as [W1 L1]; [lia|].
  set (f1 := calculateSmoothness segInfo cloudSize f) in *.
  destruct (markOccludedPoints_marks_wf segInfo cloudSize f1 W1) as [W2 L2].
  set (f2 := markOccludedPoints segInfo cloudSize f1) in *.
  pose proof (FeatureAssociationInvariants.extractFeatures_within N_scan edgeThreshold
                surfThreshold sort_by_value downSizeFilter segInfo segmentedCloud f2
                Hsort W2) as (W3 & _).
  split_and!; auto.
  rewrite extractFeatures_label_length. congruence.
Qed.

(** ** The IMU queue *)

(** X17.  [imuHandler] advances [imuPointerLast] by one slot around the
    queue, from -1 to 0 at the first message, and writes that slot only: the
    pointer stays inside the queue, the arrays keep their length, and every
    other slot of the nine arrays keeps its content.  The new slot holds the
    time stamp and the angular velocity of the message. *)
Theorem imuHandler_ring_buffer (lm : Libm) (imuQueLength : Z) (scanPeriod : float)
    (getRPY : float * float * float * float -> float * float * float)
    (imuIn : ImuMsg) (q : ImuQueue) :
  0 < imuQueLength -> -1 <= imuPointerLast q < imuQueLength ->
  queue_sized imuQueLength q ->
  let q' := imuHandler lm imuQueLength scanPeriod getRPY imuIn q in
  imuPointerLast q' = (imuPointerLast q + 1) mod imuQueLength
  /\ 0 <= imuPointerLast q' < imuQueLength
  /\ queue_sized imuQueLength q'
  /\ (forall k, k <> imuPointerLast q' -> slot q' k = slot q k)
  /\ zget 0%float (imuTime q') (imuPointerLast q') = stamp imuIn
  /\ zget vzero (imuAngularVelo q') (imuPointerLast q') = angular_velocity imuIn.
Proof.
  intros HQ Hlast (L1 & L2 & L3 & L4 & L5 & L6 & L7 & L8 & L9). cbv zeta.
  unfold imuHandler. destruct (getRPY _) as [[roll pitch] yaw]. cbv zeta.
  rewrite Z.rem_mod_nonneg by lia.
  pose proof (Z.mod_pos_bound (imuPointerLast q + 1) imuQueLength HQ) as Hb.
  set (last := (imuPointerLast q + 1) mod imuQueLength) in *.
  unfold AccumulateIMUShiftAndRotation. cbv zeta.
  cbn [imuPointerLast imuTime imuRoll imuPitch imuYaw imuAcc imuVelo imuShift
       imuAngularVelo imuAngularRotation].
  destruct (PrimFloat.ltb _ scanPeriod);
    unfold queue_sized, slot;
    cbn [imuPointerLast imuTime imuRoll imuPitch imuYaw imuAcc imuVelo imuShift
         imuAngularVelo imuAngularRotation];
    rewrite !FeatureAssociationFacts.length_zset;
    (split_and!;
     first [ assumption | reflexivity | lia
           | intros k Hk; rewrite !FeatureAssociationFacts.zget_zset_ne by congruence;
             reflexivity
           | apply FeatureAssociationFacts.zget_zset_eq; lia ]).
Qed.

(** X17, witness: the first message, on the empty queue of 200 slots. *)
Lemma imuHandler_ring_buffer_witness :
  let q' := imuHandler Reference.libm 200 0x1.999999999999ap-4 (fun _ => (0, 0, 0)%float)
              (mkImuMsg 1 (0, 0, 0, 1)%float (0, 0, 0)%float (0, 0, 1)%float)
              (initial_queue 200) in
  imuPointerLast q' = 0 /\ queue_sized 200 q'
  /\ zget vzero (imuAngularVelo q') 0 = (0, 0, 1)%float.
Proof.
  pose proof (imuHandler_ring_buffer Reference.libm 200 0x1.999999999999ap-4
                (fun _ => (0, 0, 0)%float)
                (mkImuMsg 1 (0, 0, 0, 1)%float (0, 0, 0)%float (0, 0, 1)%float)
                (initial_queue 200)) as Hx.
  cbv zeta in Hx.
  destruct Hx as (P & _ & S & _ & _ & A).
  - lia.
  - simpl. lia.
  - unfold queue_sized. split_and!; vm_compute; reflexivity.
  - cbv zeta. rewrite P in A. split; [exact P|]. split; [exact S | exact A].
Defined.

(** ** adjustDistortion *)

Section Distortion.

Context (lm : Libm) (imuQueLength : Z) (scanPeriod : float)
        (q : ImuQueue) (segInfo : cloud_info) (timeScanCur : float).

Hypothesis queue_positive : 0 < imuQueLength.
Hypothesis last_in_queue : imuPointerLast q < imuQueLength.

Lemma find_front_returns (fuel : nat) (t : float) (front : Z) :
  0 <= imuPointerLast q -> 0 <= front < imuQueLength ->
  ring_distance imuQueLength front (imuPointerLast q) <= Z.of_nat fuel ->
  exists r, find_front imuQueLength q fuel t front = Some r /\ 0 <= r < imuQueLength.
Proof.
  intros Hlast. revert front. induction fuel as [|fuel IH]; intros front Hf Hd.
  - unfold ring_distance in Hd. simpl.
    destruct (front =? imuPointerLast q) eqn:E; [eauto|].
    apply Z.eqb_neq in E. destruct (front <=? imuPointerLast q) eqn:E2;
      [apply Z.leb_le in E2 | apply Z.leb_gt in E2]; lia.
  - simpl. destruct (front =? imuPointerLast q) eqn:E; [eauto|].
    destruct (PrimFloat.ltb _ _); [eauto|].
    apply Z.eqb_neq in E. apply IH.
    + rewrite Z.rem_mod_nonneg by lia. apply Z.mod_pos_bound. lia.
    + rewrite Z.rem_mod_nonneg by lia. unfold ring_distance in *.
      destruct (decide (front + 1 = imuQueLength)) as [Ew|Ew].
      * rewrite Ew, Z_mod_same_full.
        destruct (0 <=? imuPointerLast q) eqn:E0; [|apply Z.leb_gt in E0; lia].
        destruct (front <=? imuPointerLast q) eqn:E2;
          [apply Z.leb_le in E2 | apply Z.leb_gt in E2]; lia.
      * rewrite Z.mod_small by lia.
        destruct (front + 1 <=? imuPointerLast q) eqn:E1;
          [apply Z.leb_le in E1 | apply Z.leb_gt in E1];
          (destruct (front <=? imuPointerLast q) eqn:E2;
           [apply Z.leb_le in E2 | apply Z.leb_gt in E2]); lia.
Qed.

Lemma adjust_point_returns (i : Z) (p : PointType) (st : Deskew) :
  (0 <= imuPointerLast q -> 0 <= imuPointerLastIteration (track st) < imuQueLength) ->
  exists st' p',
    adjust_point lm imuQueLength scanPeriod q segInfo timeScanCur i p st = Some (st', p')
    /\ imuPointerLastIteration (track st') = imuPointerLastIteration (track st)
    /\ deskew_keeps (scan_imu st) (scan_imu st')
    /\ (0 <= imuPointerLast q -> 0 <= imuPointerFront (track st') < imuQueLength)
    /\ (imuPointerLast q < 0 ->
        track st' = track st /\ sincos st' = sincos st /\ scan_imu st' = scan_imu st
        /\ axes_renamed p p').
Proof.
  intros Hiter. unfold adjust_point.
  destruct (point_orientation _ _ _ _ _) as [ori half]. cbv zeta.
  destruct (imuPointerLast q >=? 0) eqn:Elast.
  - rewrite Z.geb_leb in Elast. apply Z.leb_le in Elast.
    destruct (find_front_returns (Z.to_nat imuQueLength)
                (timeScanCur + (ori - startOrientation segInfo) / orientationDiff segInfo
                               * scanPeriod)%float
                (imuPointerLastIteration (track st)) Elast (Hiter Elast))
      as (front & -> & Hfront).
    { unfold ring_distance. specialize (Hiter Elast).
      destruct (_ <=? _) eqn:E2; [apply Z.leb_le in E2 | apply Z.leb_gt in E2]; lia. }
    destruct (imu_at_time _ _ _ _ _) as [[[[roll pitch] yaw] velo] shift].
    destruct (i =? 0); eexists _, _; (split; [reflexivity|]);
      cbn [track scan_imu imuPointerLastIteration imuPointerFront];
      (split; [reflexivity|]); (split; [repeat split|]);
      (split; [intros _; exact Hfront | intros Hneg; lia]).
  - rewrite Z.geb_leb in Elast. apply Z.leb_gt in Elast.
    eexists _, _. split; [reflexivity|]. cbn [track scan_imu sincos].
    split; [reflexivity|]. split; [repeat split|].
    split; [intros Hpos; lia | intros _; repeat split].
Qed.

Lemma adjust_points_returns (cloud : list PointType) (i : Z) (st : Deskew) :
  (0 <= imuPointerLast q -> 0 <= imuPointerLastIteration (track st) < imuQueLength) ->
  exists st' cloud',
    adjust_points lm imuQueLength scanPeriod q segInfo timeScanCur i cloud st
    = Some (st', cloud')
    /\ length cloud' = length cloud
    /\ imuPointerLastIteration (track st') = imuPointerLastIteration (track st)
    /\ deskew_keeps (scan_imu st) (scan_imu st')
    /\ (0 <= imuPointerLast q -> cloud <> [] ->
        0 <= imuPointerFront (track st') < imuQueLength)
    /\ (imuPointerLast q < 0 ->
        track st' = track st /\ sincos st' = sincos st /\ scan_imu st' = scan_imu st
        /\ Forall2 axes_renamed cloud cloud').
Proof.
  revert i st. induction cloud as [|p cloud IH]; intros i st Hiter.
  - exists st, []. simpl. split_and!; auto; try (repeat split; fail).
    intros _ Hne. congruence.
  - destruct (adjust_point_returns i p st Hiter) as (st1 & p1 & E1 & I1 & K1 & F1 & N1).
    destruct (IH (i + 1) st1) as (st2 & cloud2 & E2 & L2 & I2 & K2 & F2 & N2).
    { rewrite I1. exact Hiter. }
    exists st2, (p1 :: cloud2). cbn [adjust_points]. rewrite E1, E2.
    split; [reflexivity|]. split; [simpl; congruence|]. split; [congruence|].
    split.
    { unfold deskew_keeps in *. intuition congruence. }
    split.
    + intros Hpos _. destruct cloud as [|p' cloud'].
      * simpl in E2. injection E2 as <- <-. apply F1, Hpos.
      * apply F2; [exact Hpos | discriminate].
    + intros Hneg. destruct (N1 Hneg) as (A1 & B1 & C1 & D1).
      destruct (N2 Hneg) as (A2 & B2 & C2 & D2).
      split_and!; try congruence. constructor; assumption.
Qed.

End Distortion.

(** X18.  [adjustDistortion] returns: the search for the IMU sample of a
    point ends within [imuQueLength] turns, inside the queue.  The cloud
    keeps its size, [imuPointerLastIteration] becomes [imuPointerLast], and
    the function has no assignment to [imuShiftFromStartCur]
    ([ShiftToStartIMU] is never called), nor to [imuShiftFromStart],
    [imuVeloFromStart] and the three [Last] angles. *)
Theorem adjustDistortion_returns (lm : Libm) (imuQueLength : Z) (scanPeriod : float)
    (q : ImuQueue) (segInfo : cloud_info) (timeScanCur : float)
    (tr : ImuTrack) (sc : ImuSinCos) (m : ImuScan) (segmentedCloud : list PointType) :
  0 < imuQueLength -> imuPointerLast q < imuQueLength ->
  (0 <= imuPointerLast q -> 0 <= imuPointerLastIteration tr < imuQueLength) ->
  exists tr' sc' m' cloud',
    adjustDistortion lm imuQueLength scanPeriod q segInfo timeScanCur tr sc m segmentedCloud
    = Some (tr', sc', m', cloud')
    /\ length cloud' = length segmentedCloud
    /\ imuPointerLastIteration tr' = imuPointerLast q
    /\ deskew_keeps m m'
    /\ (0 <= imuPointerLast q -> segmentedCloud <> [] ->
        0 <= imuPointerFront tr' < imuQueLength).
Proof.
  intros HQ Hlast Hiter. unfold adjustDistortion.
  destruct (adjust_points_returns lm imuQueLength scanPeriod q segInfo timeScanCur HQ Hlast
              segmentedCloud 0 (mkDeskew false tr sc m) Hiter)
    as (st & cloud' & -> & L & I & K & F & _).
  eexists _, _, _, _. split; [reflexivity|]. simpl. split_and!; auto.
Qed.

(** X18, witness: a scan of one point against a queue that holds one
    sample. *)
Lemma adjustDistortion_returns_witness :
  let q := mkImuQueue 0 [1; 0]%float [0; 0]%float [0; 0]%float [0; 0]%float
             [vzero; vzero] [vzero; vzero] [vzero; vzero] [vzero; vzero] [vzero; vzero] in
  let tr := mkImuTrack 0 0 vzero vzero vzero vzero vzero vzero in
  let sc := mkImuSinCos 0 0 0 0 0 0 in
  exists tr' sc' m' cloud',
    adjustDistortion Reference.libm 2 0x1.999999999999ap-4 q ring30_info 2 tr sc
      (imu_at 0) [mkPoint 1 2 3 4]
    = Some (tr', sc', m', cloud')
    /\ length cloud' = 1%nat
    /\ imuPointerLastIteration tr' = 0
    /\ deskew_keeps (imu_at 0) m'.
Proof.
  cbv zeta.
  destruct (adjustDistortion_returns Reference.libm 2 0x1.999999999999ap-4
              (mkImuQueue 0 [1; 0]%float [0; 0]%float [0; 0]%float [0; 0]%float
                 [vzero; vzero] [vzero; vzero] [vzero; vzero] [vzero; vzero]
                 [vzero; vzero])
              ring30_info 2 (mkImuTrack 0 0 vzero vzero vzero vzero vzero vzero)
              (mkImuSinCos 0 0 0 0 0 0) (imu_at 0) [mkPoint 1 2 3 4])
    as (tr' & sc' & m' & cloud' & E & L & I & K & _).
  - lia.
  - simpl. lia.
  - simpl. lia.
  - exists tr', sc', m', cloud'. auto.
Defined.

(** X19.  While no IMU message has arrived ([imuPointerLast] is -1),
    [adjustDistortion] leaves every IMU member as it is, except
    [imuPointerLastIteration], which becomes -1; of each point it renames the
    axes, [(x, y, z)] becoming [(y, z, x)]. *)
Theorem adjustDistortion_without_imu (lm : Libm) (imuQueLength : Z) (scanPeriod : float)
    (q : ImuQueue) (segInfo : cloud_info) (timeScanCur : float)
    (tr : ImuTrack) (sc : ImuSinCos) (m : ImuScan) (segmentedCloud : list PointType) :
  0 < imuQueLength -> imuPointerLast q = -1 ->
  exists cloud',
    adjustDistortion lm imuQueLength scanPeriod q segInfo timeScanCur tr sc m segmentedCloud
    = Some (mkImuTrack (imuPointerFront tr) (-1) (imuVeloStart tr) (imuShiftStart tr)
              (imuVeloCur tr) (imuShiftCur tr) (imuAngularRotationCur tr)
              (imuAngularRotationLast tr),
            sc, m, cloud')
    /\ Forall2 axes_renamed segmentedCloud cloud'.
Proof.
  intros HQ Hlast. unfold adjustDistortion.
  destruct (adjust_points_returns lm imuQueLength scanPeriod q segInfo timeScanCur HQ
              ltac:(lia) segmentedCloud 0 (mkDeskew false tr sc m) ltac:(lia))
    as (st & cloud' & -> & _ & _ & _ & _ & N).
  destruct N as (A & B & C & D); [lia|]. simpl in A, B, C.
  exists cloud'. rewrite A, B, C, Hlast. split; [reflexivity | exact D].
Qed.

(** X19, witness: a scan of one point on the empty queue. *)
Lemma adjustDistortion_without_imu_witness :
  let tr := mkImuTrack 0 0 vzero vzero vzero vzero vzero vzero in
  let sc := mkImuSinCos 0 0 0 0 0 0 in
  exists cloud',
    adjustDistortion Reference.libm 200 0x1.999999999999ap-4
      (initial_queue 200) ring30_info 2 tr sc (imu_at 0) [mkPoint 1 2 3 4]
    = Some (mkImuTrack 0 (-1) vzero vzero vzero vzero vzero vzero, sc, imu_at 0, cloud')
    /\ Forall2 axes_renamed [mkPoint 1 2 3 4] cloud'.
Proof.
  cbv zeta.
  apply (adjustDistortion_without_imu Reference.libm 200 0x1.999999999999ap-4
           (initial_queue 200) ring30_info 2
           (mkImuTrack 0 0 vzero vzero vzero vzero vzero vzero)
           (mkImuSinCos 0 0 0 0 0 0) (imu_at 0) [mkPoint 1 2 3 4]).
  - lia.
  - reflexivity.
Defined.

(** X16, witness: the first scan, a ring of 30 points, on the arrays of an
    image of 30 cells. *)
Lemma feature_arrays_invariant_witness :
  let f1 := calculateSmoothness ring30_info 30 (initial_features 30) in
  let f2 := markOccludedPoints ring30_info 30 f1 in
  let f3 := extractFeatures 1 0x1.999999999999ap-4 0x1.999999999999ap-4
              (fun l => l) (fun c => c) ring30_info ring30_cloud f2 in
  features_wf (initial_features 30) /\ features_wf f1 /\ features_wf f2
  /\ features_wf f3 /\ length (cloudLabel f3) = 30%nat.
Proof.
  apply (feature_arrays_invariant 1 0x1.999999999999ap-4 0x1.999999999999ap-4
           (fun l => l) (fun c => c) ring30_info ring30_cloud 30 30 (initial_features 30)).
  - intros l x Hx. exact Hx.
  - lia.
  - lia.
  - left. reflexivity.
Defined.

End FeatureAssociationStagesInvariants.
